(** * IPCClient: a shallow embedding of [ipc/client.py]

    The client is one Python object shared by several asyncio coroutines.
    Each coroutine is embedded as a function on a [World]: the client object,
    the answers its awaits will receive (together with what the other tasks
    did to the object while it was suspended), and the trace of the effects
    it performed. *)

From Stdlib Require Import ZArith List String Bool Lia QArith DecimalString.
Import ListNotations.
Open Scope Z_scope.
Open Scope string_scope.

(** ** Python values and exceptions *)

#[warnings="-register-all"]
Inductive value :=
| VNone
| VBool (b : bool)
| VInt (z : Z)
| VStr (s : string)
| VList (l : list value)
| VDict (d : list (string * value)).

(** [isinstance(data, dict)] *)
Definition is_dict (v : value) : bool :=
  match v with VDict _ => true | _ => false end.

(** Truth value of the results an [and] chain of the client can produce. *)
Definition truthy (v : value) : bool :=
  match v with
  | VNone => false
  | VBool b => b
  | VInt z => negb (Z.eqb z 0)
  | VStr s => negb (String.eqb s "")
  | VList l => match l with [] => false | _ => true end
  | VDict d => match d with [] => false | _ => true end
  end.

(** The exception classes the client names, raises or catches.
    [CancelledError] derives from [BaseException] only; every other class
    derives from [Exception]. *)
#[warnings="-register-all"]
Inductive exn :=
| CancelledError
| TimeoutError
| ConnectionResetError
| ConnectionError (msg : string) (cause : option exn)
| ClientConnectorError
| WSServerHandshakeError (status : Z)
| ClientError
| OtherException (name : string).

Definition is_Exception (e : exn) : bool :=
  match e with CancelledError => false | _ => true end.

Definition is_ClientError (e : exn) : bool :=
  match e with
  | ClientConnectorError | WSServerHandshakeError _ | ClientError => true
  | _ => false
  end.

(** The class of an exception: what an [except] clause dispatches on. *)
Inductive exn_class :=
| CCancelledError | CTimeoutError | CConnectionResetError | CConnectionError
| CClientConnectorError | CWSServerHandshakeError | CClientError
| COther (name : string).

Definition class_of (e : exn) : exn_class :=
  match e with
  | CancelledError => CCancelledError
  | TimeoutError => CTimeoutError
  | ConnectionResetError => CConnectionResetError
  | ConnectionError _ _ => CConnectionError
  | ClientConnectorError => CClientConnectorError
  | WSServerHandshakeError _ => CWSServerHandshakeError
  | ClientError => CClientError
  | OtherException n => COther n
  end.

(** ** The client object *)

Definition timestamp := Z.

Record ConnectionMetrics := {
  connect_attempts : Z;
  last_connect_time : option timestamp;
  reconnect_count : Z;
  message_count : Z;
  last_heartbeat : option timestamp
}.

Record ClientSession := { session_closed : bool }.
Record ClientWebSocketResponse := { ws_closed : bool }.
Record TCPConnector := { connector_closed : bool }.
Record Task := { task_cancelled : bool }.

Record IPCClient := {
  _host : string;
  _port : Z;
  _heartbeat : Z;
  _is_connected : bool;
  _is_connecting : bool;
  _max_reconnect_attempts : Z;
  _reconnect_delay : Z;
  _session : option ClientSession;
  _websocket : option ClientWebSocketResponse;
  _task : option Task;
  _connector : option TCPConnector;
  _metrics : ConnectionMetrics
}.

(** [__init__] with the default options. *)
Definition init (host : string) (port : Z) : IPCClient :=
  {| _host := host; _port := port; _heartbeat := 30;
     _is_connected := false; _is_connecting := false;
     _max_reconnect_attempts := 5; _reconnect_delay := 5;
     _session := None; _websocket := None; _task := None; _connector := None;
     _metrics := {| connect_attempts := 0; last_connect_time := None;
                    reconnect_count := 0; message_count := 0;
                    last_heartbeat := None |} |}.

(** Field updates. *)
Definition set_is_connected (b : bool) (c : IPCClient) : IPCClient :=
  {| _host := _host c; _port := _port c; _heartbeat := _heartbeat c;
     _is_connected := b; _is_connecting := _is_connecting c;
     _max_reconnect_attempts := _max_reconnect_attempts c;
     _reconnect_delay := _reconnect_delay c;
     _session := _session c; _websocket := _websocket c; _task := _task c;
     _connector := _connector c; _metrics := _metrics c |}.

Definition set_is_connecting (b : bool) (c : IPCClient) : IPCClient :=
  {| _host := _host c; _port := _port c; _heartbeat := _heartbeat c;
     _is_connected := _is_connected c; _is_connecting := b;
     _max_reconnect_attempts := _max_reconnect_attempts c;
     _reconnect_delay := _reconnect_delay c;
     _session := _session c; _websocket := _websocket c; _task := _task c;
     _connector := _connector c; _metrics := _metrics c |}.

Definition set_session (s : option ClientSession) (c : IPCClient) : IPCClient :=
  {| _host := _host c; _port := _port c; _heartbeat := _heartbeat c;
     _is_connected := _is_connected c; _is_connecting := _is_connecting c;
     _max_reconnect_attempts := _max_reconnect_attempts c;
     _reconnect_delay := _reconnect_delay c;
     _session := s; _websocket := _websocket c; _task := _task c;
     _connector := _connector c; _metrics := _metrics c |}.

Definition set_websocket (s : option ClientWebSocketResponse) (c : IPCClient)
  : IPCClient :=
  {| _host := _host c; _port := _port c; _heartbeat := _heartbeat c;
     _is_connected := _is_connected c; _is_connecting := _is_connecting c;
     _max_reconnect_attempts := _max_reconnect_attempts c;
     _reconnect_delay := _reconnect_delay c;
     _session := _session c; _websocket := s; _task := _task c;
     _connector := _connector c; _metrics := _metrics c |}.

Definition set_task (t : option Task) (c : IPCClient) : IPCClient :=
  {| _host := _host c; _port := _port c; _heartbeat := _heartbeat c;
     _is_connected := _is_connected c; _is_connecting := _is_connecting c;
     _max_reconnect_attempts := _max_reconnect_attempts c;
     _reconnect_delay := _reconnect_delay c;
     _session := _session c; _websocket := _websocket c; _task := t;
     _connector := _connector c; _metrics := _metrics c |}.

Definition set_connector (k : option TCPConnector) (c : IPCClient) : IPCClient :=
  {| _host := _host c; _port := _port c; _heartbeat := _heartbeat c;
     _is_connected := _is_connected c; _is_connecting := _is_connecting c;
     _max_reconnect_attempts := _max_reconnect_attempts c;
     _reconnect_delay := _reconnect_delay c;
     _session := _session c; _websocket := _websocket c; _task := _task c;
     _connector := k; _metrics := _metrics c |}.

Definition set_metrics (m : ConnectionMetrics) (c : IPCClient) : IPCClient :=
  {| _host := _host c; _port := _port c; _heartbeat := _heartbeat c;
     _is_connected := _is_connected c; _is_connecting := _is_connecting c;
     _max_reconnect_attempts := _max_reconnect_attempts c;
     _reconnect_delay := _reconnect_delay c;
     _session := _session c; _websocket := _websocket c; _task := _task c;
     _connector := _connector c; _metrics := m |}.

Definition incr_connect_attempts (m : ConnectionMetrics) : ConnectionMetrics :=
  {| connect_attempts := connect_attempts m + 1;
     last_connect_time := last_connect_time m;
     reconnect_count := reconnect_count m;
     message_count := message_count m;
     last_heartbeat := last_heartbeat m |}.

Definition stamp_connect_time (t : timestamp) (m : ConnectionMetrics)
  : ConnectionMetrics :=
  {| connect_attempts := connect_attempts m;
     last_connect_time := Some t;
     reconnect_count := reconnect_count m;
     message_count := message_count m;
     last_heartbeat := last_heartbeat m |}.

Definition incr_reconnect_count (m : ConnectionMetrics) : ConnectionMetrics :=
  {| connect_attempts := connect_attempts m;
     last_connect_time := last_connect_time m;
     reconnect_count := reconnect_count m + 1;
     message_count := message_count m;
     last_heartbeat := last_heartbeat m |}.

Definition incr_message_count (m : ConnectionMetrics) : ConnectionMetrics :=
  {| connect_attempts := connect_attempts m;
     last_connect_time := last_connect_time m;
     reconnect_count := reconnect_count m;
     message_count := message_count m + 1;
     last_heartbeat := last_heartbeat m |}.

Definition stamp_heartbeat (t : timestamp) (m : ConnectionMetrics)
  : ConnectionMetrics :=
  {| connect_attempts := connect_attempts m;
     last_connect_time := last_connect_time m;
     reconnect_count := reconnect_count m;
     message_count := message_count m;
     last_heartbeat := Some t |}.

(** ** The [is_connected] property

    [a and b and ...] yields its first falsy operand, else its last one:
    the property can return [False], [None] or [True]. *)
Definition is_connected (c : IPCClient) : value :=
  if negb (_is_connected c) then VBool false       (* self._is_connected *)
  else match _websocket c with
       | None => VNone                             (* self._websocket *)
       | Some ws =>
         if ws_closed ws then VBool false          (* not self._websocket.closed *)
         else match _session c with
              | None => VNone                      (* self._session *)
              | Some s => VBool (negb (session_closed s))
              end
       end.

(** ** Effects, awaits and interference *)

Inductive log_level := DEBUG | INFO | WARNING | ERROR.

(** [aiohttp.WSMsgType] *)
Inductive WSMsgType :=
| CONTINUATION | TEXT | BINARY | PING | PONG | CLOSE | CLOSING | CLOSED
| WS_ERROR.

(** A received frame: its type and what [msg.json()] yields ([None] when it
    raises). *)
Record WSMessage := { msg_type : WSMsgType; msg_json : option value }.

Inductive task_kind :=
| ListenTask
| ProcessMessageTask (data : value) (n : Z)
| ReconnectionTask.

(** What a coroutine does to the outside, in order. *)
Inductive effect :=
| Log (level : log_level) (msg : string)
| Sleep (seconds : Q)
| CreateConnector
| CreateSession
| WsConnect
| CreateTask (k : task_kind)
| SendJson (data : value)
| Receive (timeout : Z)
| TaskCancel
| TaskWait (timeout : Q)
| WsClose
| SessionClose
| ConnectorClose.

(** What other tasks may do to the client while a coroutine is suspended:
    the listener leaving its loop (line 149), the peer closing the socket,
    the session being closed, another task entering [connect()] (lines
    243-249), the attempt of another task resolving (lines 254-269 and 292),
    or [disconnect()] having run. *)
Inductive action :=
| listener_ended
| peer_closed
| session_lost
| attempt_started
| attempt_resolved (ok : bool) (t : timestamp)
| disconnected.

Definition open_session : ClientSession := {| session_closed := false |}.
Definition open_websocket : ClientWebSocketResponse := {| ws_closed := false |}.
Definition open_connector : TCPConnector := {| connector_closed := false |}.
Definition closed_connector : TCPConnector := {| connector_closed := true |}.
Definition new_task : Task := {| task_cancelled := false |}.

(** [aiohttp.ClientSession(connector=k)] (lines 93-97): the session owns
    the connector it is built over and is closed exactly when that connector
    is, so a session built over a closed connector is closed from the
    start. *)
Definition session_over (k : TCPConnector) : ClientSession :=
  {| session_closed := connector_closed k |}.

(** The connector [_create_session] builds the session over: the one the
    client holds, open or closed (line 77 tests its presence only), else a
    new one. *)
Definition connector_for (c : IPCClient) : TCPConnector :=
  match _connector c with Some k => k | None => open_connector end.

(** [not self._session or self._session.closed] *)
Definition needs_session (c : IPCClient) : bool :=
  match _session c with
  | None => true
  | Some s => session_closed s
  end.

(** The state left by lines 248-249 together with [_create_session]. *)
Definition ensure_session (c : IPCClient) : IPCClient :=
  if needs_session c then
    set_session (Some (session_over (connector_for c)))
      (match _connector c with
       | None => set_connector (Some open_connector) c
       | Some _ => c
       end)
  else c.

(** The state left by lines 254-269: socket, listener task, flag, time. *)
Definition install (t : timestamp) (c : IPCClient) : IPCClient :=
  let c1 := set_websocket (Some open_websocket) c in
  let c2 := set_task (Some new_task) c1 in
  let c3 := set_is_connected true c2 in
  set_metrics (stamp_connect_time t (_metrics c3)) c3.

Definition close_websocket (c : IPCClient) : IPCClient :=
  match _websocket c with
  | Some _ => set_websocket (Some {| ws_closed := true |}) c
  | None => c
  end.

(** [session.close()] closes the connector the session owns. *)
Definition close_connector (c : IPCClient) : IPCClient :=
  match _connector c with
  | Some _ => set_connector (Some closed_connector) c
  | None => c
  end.

Definition close_session (c : IPCClient) : IPCClient :=
  match _session c with
  | Some s =>
    if session_closed s then c
    else close_connector (set_session (Some {| session_closed := true |}) c)
  | None => c
  end.

(** Which of the four owned resources are held open. *)
Definition task_live (c : IPCClient) : bool :=
  match _task c with Some t => negb (task_cancelled t) | None => false end.

Definition ws_open (c : IPCClient) : bool :=
  match _websocket c with Some ws => negb (ws_closed ws) | None => false end.

Definition session_open (c : IPCClient) : bool :=
  match _session c with Some s => negb (session_closed s) | None => false end.

Definition connector_open (c : IPCClient) : bool :=
  match _connector c with
  | Some k => negb (connector_closed k)
  | None => false
  end.

(** The client left by [disconnect]: the flag unset, the handles of the
    open task, socket and session dropped. [closes] tells whether the close
    of the session returned: it has then closed the connector, which line
    327 finds closed and leaves on the client; a connector still open at
    line 327 is closed there and dropped. *)
Definition released_if (closes : bool) (c : IPCClient) : IPCClient :=
  let c1 := set_is_connected false c in
  let c2 := if task_live c1 then set_task None c1 else c1 in
  let c3 := if ws_open c2 then set_websocket None c2 else c2 in
  let c4 := if session_open c3 then
              set_session None (if closes then close_connector c3 else c3)
            else c3 in
  if connector_open c4 then set_connector None c4 else c4.

(** The client left by a [disconnect] whose close calls all return. *)
Definition released (c : IPCClient) : IPCClient := released_if true c.

(** [own] tells that the attempt in flight is the suspended coroutine's own:
    nobody else can resolve it. *)
Definition apply_action (own : bool) (a : action) (c : IPCClient) : IPCClient :=
  match a with
  | listener_ended => set_is_connected false c
  | peer_closed => close_websocket c
  | session_lost => close_session c
  | attempt_started =>
    if _is_connecting c || _is_connected c then c
    else
      let c1 := ensure_session
                  (set_metrics (incr_connect_attempts (_metrics c))
                     (set_is_connecting true c)) in
      (* over a closed session the attempt fails before it suspends *)
      if session_open c1 then c1 else set_is_connecting false c1
  | attempt_resolved ok t =>
    if _is_connecting c && negb own then
      set_is_connecting false (if ok then install t c else c)
    else c
  | disconnected => released c
  end.

Definition interfere (own : bool) (l : list action) (c : IPCClient) : IPCClient :=
  fold_left (fun c a => apply_action own a c) l c.

Inductive answer :=
| Done
| Raises (e : exn)
| Frame (m : WSMessage).

(** The reply to one await: what happened to the client meanwhile, the clock
    at resumption, and how the awaited call ended. *)
Record reply := {
  during : list action;
  clock : timestamp;
  result : answer
}.

Record World := {
  client : IPCClient;
  script : list reply;
  trace : list effect;
  now : timestamp
}.

Inductive outcome (A : Type) :=
| Return (a : A)
| Raise (e : exn).
Arguments Return {A} a.
Arguments Raise {A} e.

(** A coroutine call run to completion; [None] when it is still suspended
    after the last reply of the script (or a reply does not fit the await). *)
Definition Coro (A : Type) : Type := World -> option (outcome A * World).

Definition ret {A} (a : A) : Coro A := fun w => Some (Return a, w).

Definition raise {A} (e : exn) : Coro A := fun w => Some (Raise e, w).

Definition bind {A B} (m : Coro A) (f : A -> Coro B) : Coro B :=
  fun w =>
    match m w with
    | None => None
    | Some (Return a, w') => f a w'
    | Some (Raise e, w') => Some (Raise e, w')
    end.

Declare Scope coro_scope.
Delimit Scope coro_scope with coro.
Notation "x <- m ;; k" := (bind m (fun x => k))
  (at level 61, m at next level, right associativity) : coro_scope.
Notation "m ;; k" := (bind m (fun _ => k))
  (at level 61, right associativity) : coro_scope.
Open Scope coro_scope.

(** [try: body except <classes caught by h>: h e] *)
Definition try_except {A} (body : Coro A) (h : exn -> option (Coro A)) : Coro A :=
  fun w =>
    match body w with
    | Some (Raise e, w') =>
      match h e with
      | Some k => k w'
      | None => Some (Raise e, w')
      end
    | r => r
    end.

(** [try: body finally: fin] *)
Definition try_finally {A} (body : Coro A) (fin : Coro unit) : Coro A :=
  fun w =>
    match body w with
    | None => None
    | Some (o, w') =>
      match fin w' with
      | None => None
      | Some (Return _, w'') => Some (o, w'')
      | Some (Raise e, w'') => Some (Raise e, w'')
      end
    end.

Definition get : Coro IPCClient := fun w => Some (Return (client w), w).

Definition modify (f : IPCClient -> IPCClient) : Coro unit :=
  fun w => Some (Return tt,
                 {| client := f (client w); script := script w;
                    trace := trace w; now := now w |}).

Definition emit (e : effect) : Coro unit :=
  fun w => Some (Return tt,
                 {| client := client w; script := script w;
                    trace := trace w ++ [e]; now := now w |}).

(** [time.time()] *)
Definition time_time : Coro timestamp := fun w => Some (Return (now w), w).

(** One suspension: the effect is performed, the coroutine yields, the other
    tasks act, and the reply comes back. *)
Definition suspend (own : bool) (e : effect) : Coro answer :=
  fun w =>
    match script w with
    | [] => None
    | r :: rest =>
      Some (Return (result r),
            {| client := interfere own (during r) (client w);
               script := rest;
               trace := trace w ++ [e];
               now := clock r |})
    end.

Definition await_ (own : bool) (e : effect) : Coro unit :=
  a <- suspend own e ;;
  match a with
  | Done => ret tt
  | Raises x => raise x
  | Frame _ => fun _ => None
  end.

Definition await (e : effect) : Coro unit := await_ false e.

Definition await_frame (e : effect) : Coro WSMessage :=
  a <- suspend false e ;;
  match a with
  | Frame m => ret m
  | Raises x => raise x
  | Done => fun _ => None
  end.

(** Loops. A [while] body that suspends consumes one reply at least, so the
    length of the script bounds the number of iterations. *)
Inductive ctl := Continue | Break.

Fixpoint while_ (fuel : nat) (cond : IPCClient -> bool) (body : Coro ctl)
  : Coro unit :=
  fun w =>
    if cond (client w) then
      match fuel with
      | O => None
      | S n =>
        (c <- body ;;
         match c with
         | Continue => while_ n cond body
         | Break => ret tt
         end) w
      end
    else Some (Return tt, w).

Definition while (cond : IPCClient -> bool) (body : Coro ctl) : Coro unit :=
  fun w => while_ (S (List.length (script w))) cond body w.

(** [for x in l: body], where the body may [return] from the function. *)
Fixpoint for_ {A R} (l : list A) (body : A -> Coro (option R))
  : Coro (option R) :=
  match l with
  | [] => ret None
  | a :: l' =>
    r <- body a ;;
    match r with
    | Some x => ret (Some x)
    | None => for_ l' body
    end
  end.

(** [range(lo, hi)] *)
Definition range (lo hi : Z) : list Z :=
  map (fun i => lo + Z.of_nat i) (seq 0 (Z.to_nat (hi - lo))).

(** [str(n)] for an integer *)
Definition str (z : Z) : string := NilZero.string_of_int (Z.to_int z).

(** ** The coroutines of [IPCClient] *)

Definition AttributeError : exn := OtherException "AttributeError".
Definition RuntimeError : exn := OtherException "RuntimeError".
Definition JSONDecodeError : exn := OtherException "JSONDecodeError".

(** [_create_session]: no await inside; the connector is created only when
    the client holds none, and the session is built over the connector the
    client then holds. *)
Definition _create_session : Coro ClientSession :=
  c <- get ;;
  (match _connector c with
   | None => emit CreateConnector ;; modify (set_connector (Some open_connector))
   | Some _ => ret tt
   end) ;;
  emit CreateSession ;;
  ret (session_over (connector_for c)).

Definition unreachable_msg (c : IPCClient) : string :=
  "Connection failed - unable to reach " ++ _host c ++ ":" ++ str (_port c).

(** The [except] clauses of [connect], in source order. *)
Definition connect_handlers (e : exn) : option (Coro unit) :=
  match e with
  | ClientConnectorError =>
    Some (c <- get ;;
          emit (Log ERROR (unreachable_msg c)) ;;
          raise (ConnectionError (unreachable_msg c) (Some e)))
  | WSServerHandshakeError status =>
    Some ((if Z.eqb status 401 then
             emit (Log ERROR "Authentication failed: Invalid password or bot ID")
           else if Z.eqb status 403 then
             emit (Log ERROR "Access forbidden: Check bot permissions or version compatibility")
           else
             emit (Log ERROR "WebSocket handshake failed")) ;;
          raise e)
  | _ =>
    if is_Exception e then
      Some (emit (Log ERROR "Unexpected error during connection") ;; raise e)
    else None
  end.

(** [await self._session.ws_connect(...)] (lines 254-260): a closed session
    raises [RuntimeError] before anything is sent, without suspending. *)
Definition ws_connect : Coro unit :=
  c <- get ;;
  match _session c with
  | None => raise AttributeError
  | Some s =>
    if session_closed s then raise RuntimeError else await_ true WsConnect
  end.

(** The body of the [try] block of [connect] (lines 247-271). *)
Definition connect_try : Coro unit :=
  c <- get ;;
  (if needs_session c then
     s <- _create_session ;; modify (set_session (Some s))
   else ret tt) ;;
  emit (Log INFO "Connecting") ;;
  ws_connect ;;
  modify (set_websocket (Some open_websocket)) ;;
  emit (CreateTask ListenTask) ;;
  modify (set_task (Some new_task)) ;;
  modify (set_is_connected true) ;;
  t <- time_time ;;
  modify (fun c => set_metrics (stamp_connect_time t (_metrics c)) c) ;;
  emit (Log INFO "Successfully connected to dashboard!").

Definition connect : Coro unit :=
  c <- get ;;
  if _is_connecting c then
    emit (Log DEBUG "Connection already in progress, waiting...") ;;
    while _is_connecting (await (Sleep (1 # 10)) ;; ret Continue)
  else if _is_connected c then
    emit (Log DEBUG "Already connected")
  else
    modify (set_is_connecting true) ;;
    modify (fun c => set_metrics (incr_connect_attempts (_metrics c)) c) ;;
    try_finally
      (try_except connect_try connect_handlers)
      (modify (set_is_connecting false)).

(** Line 170. *)
Definition backoff_delay (c : IPCClient) (attempt : Z) : Z :=
  Z.min (_reconnect_delay c * 2 ^ (attempt - 1)) 60.

(** One turn of the attempt loop (lines 169-181). *)
Definition reconnection_attempt (attempt : Z) : Coro (option unit) :=
  try_except
    (c <- get ;;
     let delay := backoff_delay c attempt in
     emit (Log INFO "Reconnection attempt") ;;
     await (Sleep (inject_Z delay)) ;;
     connect ;;
     c <- get ;;
     if _is_connected c then
       emit (Log INFO "Successfully reconnected") ;; ret (Some tt)
     else ret None)
    (fun e =>
       if is_Exception e then
         Some (emit (Log ERROR "Reconnection attempt failed") ;; ret None)
       else None).

(** [_attempt_reconnection], entered with the guard free: the coroutine
    takes it without suspending and holds it until it returns. *)
Definition _attempt_reconnection : Coro unit :=
  c <- get ;;
  if _is_connected c || _is_connecting c then ret tt
  else
    modify (fun c => set_metrics (incr_reconnect_count (_metrics c)) c) ;;
    r <- for_ (range 1 (_max_reconnect_attempts c + 1)) reconnection_attempt ;;
    match r with
    | Some _ => ret tt
    | None => emit (Log ERROR "Failed to reconnect")
    end.

(** [await self._websocket.send_json(data)] *)
Definition ws_send_json (data : value) : Coro unit :=
  c <- get ;;
  match _websocket c with
  | None => raise AttributeError
  | Some _ => await (SendJson data)
  end.

(** One turn of the retry loop (lines 215-225). *)
Definition retry_once (data : value) (retry : Z) : Coro (option bool) :=
  try_except
    (_attempt_reconnection ;;
     c <- get ;;
     if truthy (is_connected c) then
       await (Sleep (1 # 2)) ;;
       ws_send_json data ;;
       emit (Log DEBUG "Sent message after reconnection") ;;
       ret (Some true)
     else ret None)
    (fun e =>
       if is_Exception e then
         Some (emit (Log ERROR "Retry failed") ;; ret None)
       else None).

Definition _handle_reconnect_and_retry (data : value) (max_retries : Z)
  : Coro bool :=
  r <- for_ (range 0 max_retries) (retry_once data) ;;
  match r with
  | Some b => ret b
  | None =>
    emit (Log ERROR "Failed to send message after reconnection attempts") ;;
    ret false
  end.

Definition send (data : value) : Coro bool :=
  if negb (is_dict data) then
    emit (Log ERROR "Data must be a dictionary") ;; ret false
  else
    c <- get ;;
    if negb (truthy (is_connected c)) then
      emit (Log WARNING "WebSocket is not connected. Cannot send message.") ;;
      ret false
    else
      try_except
        (ws_send_json data ;;
         emit (Log DEBUG "Sent Message") ;;
         ret true)
        (fun e =>
           match e with
           | ConnectionResetError =>
             Some (emit (Log WARNING "Connection lost, attempting to reconnect.") ;;
                   _handle_reconnect_and_retry data 2)
           | _ =>
             if is_ClientError e then
               Some (emit (Log ERROR "Client error sending message") ;; ret false)
             else if is_Exception e then
               Some (emit (Log ERROR "Unexpected error sending message") ;;
                     ret false)
             else None
           end).

(** [except Exception as e: self._logger.warning(...)] *)
Definition warn_on_error (msg : string) (e : exn) : option (Coro unit) :=
  if is_Exception e then Some (emit (Log WARNING msg)) else None.

(** Lines 302-308: cancel the listener task and wait for it, at most 5 s. *)
Definition cancel_listener : Coro unit :=
  c <- get ;;
  match _task c with
  | Some t =>
    if negb (task_cancelled t) then
      emit TaskCancel ;;
      try_except (await (TaskWait 5))
        (fun e =>
           match e with
           | CancelledError | TimeoutError => Some (ret tt)
           | _ => None
           end) ;;
      modify (set_task None)
    else ret tt
  | None => ret tt
  end.

(** Lines 311-316. *)
Definition drop_websocket : Coro unit :=
  c <- get ;;
  match _websocket c with
  | Some ws =>
    if negb (ws_closed ws) then
      try_except (await WsClose) (warn_on_error "Error closing WebSocket") ;;
      modify (set_websocket None)
    else ret tt
  | None => ret tt
  end.

(** Lines 319-324. A [session.close()] that returns has closed the
    connector the session owns; one that raises has closed nothing. *)
Definition drop_session : Coro unit :=
  c <- get ;;
  match _session c with
  | Some s =>
    if negb (session_closed s) then
      try_except (await SessionClose ;; modify close_connector)
                 (warn_on_error "Error closing session") ;;
      modify (set_session None)
    else ret tt
  | None => ret tt
  end.

(** Lines 327-332. *)
Definition drop_connector : Coro unit :=
  c <- get ;;
  match _connector c with
  | Some k =>
    if negb (connector_closed k) then
      try_except (await ConnectorClose)
        (warn_on_error "Error closing connector") ;;
      modify (set_connector None)
    else ret tt
  | None => ret tt
  end.

Definition disconnect : Coro unit :=
  emit (Log INFO "Initiating disconnect...") ;;
  modify (set_is_connected false) ;;
  cancel_listener ;;
  drop_websocket ;;
  drop_session ;;
  drop_connector ;;
  emit (Log INFO "Disconnected from dashboard!").

(** One turn of the listener loop (lines 104-145). *)
Definition listen_body : Coro ctl :=
  try_except
    (c <- get ;;
     match _websocket c with
     | None => raise AttributeError
     | Some _ =>
       msg <- await_frame (Receive (_heartbeat c + 10)) ;;
       emit (Log DEBUG "Received Message") ;;
       modify (fun c => set_metrics (incr_message_count (_metrics c)) c) ;;
       t <- time_time ;;
       modify (fun c => set_metrics (stamp_heartbeat t (_metrics c)) c) ;;
       match msg_type msg with
       | TEXT =>
         try_except
           (match msg_json msg with
            | Some data =>
              c <- get ;;
              emit (CreateTask
                      (ProcessMessageTask data (message_count (_metrics c)))) ;;
              ret Continue
            | None => raise JSONDecodeError
            end)
           (fun e =>
              if is_Exception e then
                Some (emit (Log ERROR "Failed to parse message JSON") ;;
                      ret Continue)
              else None)
       | WS_ERROR =>
         c <- get ;;
         match _websocket c with
         | None => raise AttributeError
         | Some _ => emit (Log ERROR "WebSocket error") ;; ret Break
         end
       | CLOSE | CLOSED =>
         emit (Log INFO "WebSocket connection closed by server") ;; ret Break
       | _ => ret Continue
       end
     end)
    (fun e =>
       match e with
       | TimeoutError =>
         Some (emit (Log WARNING
                       "Message receive timeout - checking connection health") ;;
               c <- get ;;
               if negb (truthy (is_connected c)) then ret Break
               else ret Continue)
       | CancelledError =>
         Some (emit (Log INFO "Message listener cancelled") ;; ret Break)
       | _ =>
         Some (emit (Log ERROR "Unexpected error in message listener") ;;
               ret Break)
       end).

Definition _listen : Coro unit :=
  emit (Log INFO "Starting message listener") ;;
  while _is_connected listen_body ;;
  c <- get ;;
  if _is_connected c then
    modify (set_is_connected false) ;;
    emit (Log INFO "Message listener ended - scheduling reconnection") ;;
    emit (CreateTask ReconnectionTask)
  else ret tt.

(** A world for a call: the client, the replies to come, an empty trace. *)
Definition world (c : IPCClient) (s : list reply) : World :=
  {| client := c; script := s; trace := []; now := 0 |}.

Definition quiet (t : timestamp) (a : answer) : reply :=
  {| during := []; clock := t; result := a |}.

(** * Vocabulary of the properties *)

(** ** Connectivity predicate *)

(** The three conditions the predicate combines. *)
Definition link_up (c : IPCClient) : Prop :=
  _is_connected c = true
  /\ (exists ws, _websocket c = Some ws /\ ws_closed ws = false)
  /\ (exists s, _session c = Some s /\ session_closed s = false).

(** ** Send path: fast failure *)

(** The two guards at the head of [send]. *)
Definition fast_fail (data : value) (c : IPCClient) : bool :=
  negb (is_dict data) || negb (truthy (is_connected c)).

Definition logged (w : World) (l : log_level) (m : string) : World :=
  {| client := client w; script := script w;
     trace := trace w ++ [Log l m]; now := now w |}.

(** ** Connection attempts and the Connecting flag *)

Definition resumed (own : bool) (e : effect) (r : reply) (s : list reply)
           (w : World) : World :=
  {| client := interfere own (during r) (client w); script := s;
     trace := trace w ++ [e]; now := clock r |}.

(** C8 as worded: every completed call, returned or raised, leaves the
    Connecting flag cleared, and every raising call leaves the predicate
    false. *)
Definition connect_always_settles : Prop :=
  forall w o w',
    connect w = Some (o, w') ->
    _is_connecting (client w') = false
    /\ (forall e, o = Raise e -> truthy (is_connected (client w')) = false).

(** ** Handshake failures surfaced by [connect] *)

Inductive failure_kind :=
| Unreachable | Unauthorized | Forbidden | OtherFailure.

(** The kind of failure behind what the handshake raised. *)
Definition kind_of (f : exn) : failure_kind :=
  match f with
  | ClientConnectorError => Unreachable
  | WSServerHandshakeError status =>
    if Z.eqb status 401 then Unauthorized
    else if Z.eqb status 403 then Forbidden
    else OtherFailure
  | _ => OtherFailure
  end.

(** What a caller of [connect] can read in the exception it catches, and
    in nothing else: a [ConnectionError] raised from a connector error (its
    [__cause__], line 276), or the status a handshake error carries. *)
Definition surfaced_kind (e : exn) : failure_kind :=
  match e with
  | ConnectionError _ (Some ClientConnectorError) => Unreachable
  | WSServerHandshakeError status =>
    if Z.eqb status 401 then Unauthorized
    else if Z.eqb status 403 then Forbidden
    else OtherFailure
  | _ => OtherFailure
  end.

(** The session [connect] will use can carry a handshake: the client holds
    an open session, or the session to be created is built over no closed
    connector. *)
Definition can_handshake (c : IPCClient) : bool :=
  negb (needs_session c) || negb (connector_closed (connector_for c)).

(** A first attempt whose handshake raises [f]. *)
Definition failing_handshake (c : IPCClient) (t : timestamp) (f : exn) : World :=
  world c [quiet t (Raises f)].

(** A stronger reading than C4 makes: failures of different kinds surface as
    exceptions of different classes. *)
Definition failures_distinct_by_class : Prop :=
  forall c t f1 f2 e1 e2 w1 w2,
    connect (failing_handshake c t f1) = Some (Raise e1, w1) ->
    connect (failing_handshake c t f2) = Some (Raise e2, w2) ->
    kind_of f1 <> kind_of f2 ->
    class_of e1 <> class_of e2.

(** ** Backoff of the reconnection coordinator *)

(** The durations of the sleeps of a trace, in order. *)
Definition sleeps (tr : list effect) : list Q :=
  flat_map (fun e => match e with Sleep q => [q] | _ => [] end) tr.

(** Scripts in which no other task touches the client. *)
Definition quiet_script (s : list reply) : Prop :=
  Forall (fun r => during r = []) s.

Definition backoff (base : Z) (n : Z) : Q := inject_Z (Z.min (base * 2 ^ (n - 1)) 60).

(** A script in which each of [n] attempts sleeps, then fails its
    handshake. *)
Fixpoint all_fail (n : nat) : list reply :=
  match n with
  | O => []
  | S k => quiet 0 Done :: quiet 0 (Raises ClientError) :: all_fail k
  end.

(** ** Disconnect *)

Definition is_close (e : effect) : bool :=
  match e with
  | TaskCancel | WsClose | SessionClose | ConnectorClose => true
  | _ => false
  end.

(** The closing calls of a trace, in order. *)
Definition closes (tr : list effect) : list effect := filter is_close tr.

Definition when {A} (b : bool) (x : A) : list A := if b then [x] else [].

(** The resources a client holds open, each named by its closing call. *)
Definition owed (c : IPCClient) : list effect :=
  (when (task_live c) TaskCancel ++ when (ws_open c) WsClose
   ++ when (session_open c) SessionClose
   ++ when (connector_open c) ConnectorClose)%list.

(** Fault injection: how the wait on the cancelled task and each of the
    three close calls end. *)
Record faults := {
  on_task_wait : answer;
  on_ws_close : answer;
  on_session_close : answer;
  on_connector_close : answer
}.

(** Awaiting the cancelled listener ends by its return, by
    [CancelledError] or by the 5 s [TimeoutError]. *)
Definition wait_end (a : answer) : bool :=
  match a with
  | Done | Raises CancelledError | Raises TimeoutError => true
  | _ => false
  end.

(** A close call returns or raises an error (an [Exception]). *)
Definition close_end (a : answer) : bool :=
  match a with
  | Done => true
  | Raises e => is_Exception e
  | Frame _ => false
  end.

Definition injected (f : faults) : bool :=
  wait_end (on_task_wait f) && close_end (on_ws_close f)
  && close_end (on_session_close f) && close_end (on_connector_close f).

Definition returns (a : answer) : bool :=
  match a with Done => true | _ => false end.

(** The connector is still open when line 327 tests it: it was open, and
    no close of the session has returned and closed it. *)
Definition connector_left (f : faults) (c : IPCClient) : bool :=
  connector_open c && negb (session_open c && returns (on_session_close f)).

(** The closing calls [disconnect] makes on client [c] under faults [f]:
    one per resource held open, the connector's only if the close of the
    session has not closed it already. *)
Definition closing_calls (f : faults) (c : IPCClient) : list effect :=
  (when (task_live c) TaskCancel ++ when (ws_open c) WsClose
   ++ when (session_open c) SessionClose
   ++ when (connector_left f c) ConnectorClose)%list.

(** The replies [disconnect] meets on client [c] under faults [f]. *)
Definition closing_script (c : IPCClient) (f : faults) : list reply :=
  (when (task_live c) (quiet 0 (on_task_wait f))
   ++ when (ws_open c) (quiet 0 (on_ws_close f))
   ++ when (session_open c) (quiet 0 (on_session_close f))
   ++ when (connector_left f c) (quiet 0 (on_connector_close f)))%list.

(** ** Message listener *)

Definition is_frame (r : reply) : bool :=
  match result r with Frame _ => true | _ => false end.

(** A text frame whose JSON decodes: the only frames that are dispatched. *)
Definition decodes (r : reply) : bool :=
  match result r with
  | Frame m =>
    match msg_type m, msg_json m with
    | TEXT, Some _ => true
    | _, _ => false
    end
  | _ => false
  end.

Definition count (p : reply -> bool) (s : list reply) : Z :=
  Z.of_nat (List.length (filter p s)).

(** The heartbeat stamp after the replies [s]: the clock of the last frame. *)
Definition last_stamp (s : list reply) (d : option timestamp) : option timestamp :=
  fold_left (fun acc r => if is_frame r then Some (clock r) else acc) s d.

Definition is_dispatch (e : effect) : bool :=
  match e with CreateTask (ProcessMessageTask _ _) => true | _ => false end.

Definition is_reschedule (e : effect) : bool :=
  match e with CreateTask ReconnectionTask => true | _ => false end.

(** Handler tasks started, reconnection tasks scheduled. *)
Definition dispatched (tr : list effect) : Z :=
  Z.of_nat (List.length (filter is_dispatch tr)).

Definition rescheduled (tr : list effect) : Z :=
  Z.of_nat (List.length (filter is_reschedule tr)).

(** Everything the other tasks did during the replies [s]. *)
Definition interference (s : list reply) : list action :=
  List.concat (map during s).

(** The client's flags and handles: all that the other tasks' actions
    depend on, besides the attempt counter they increment. *)
Definition standing (c : IPCClient) :=
  (_is_connected c, _is_connecting c,
   (_session c, _websocket c, _task c, _connector c)).

(** C2 as worded: the message counter counts the dispatched frames, and the
    heartbeat is stamped on those only. *)
Definition counter_counts_dispatches : Prop :=
  forall c s o w',
    _listen (world c s) = Some (o, w') ->
    message_count (_metrics (client w'))
      = message_count (_metrics c) + dispatched (trace w')
    /\ (dispatched (trace w') = 0 ->
        last_heartbeat (_metrics (client w')) = last_heartbeat (_metrics c)).

(** The replies a listener has consumed end at the first cancellation among
    them: a [CancelledError] is the last thing the listener awaits. *)
Definition ends_at_cancellation (used : list reply) : Prop :=
  forall u1 r u2, used = (u1 ++ r :: u2)%list ->
    result r = Raises CancelledError -> u2 = [].

(** C10 as worded: a loop left on cancellation never schedules a
    reconnection. *)
Definition cancellation_never_reschedules : Prop :=
  forall c s o w',
    _listen (world c s) = Some (o, w') ->
    In (Log INFO "Message listener cancelled") (trace w') ->
    rescheduled (trace w') = 0.

(** A connected client: [connect] has succeeded at time 7. *)
Definition connected_client : IPCClient :=
  install 7 (ensure_session (init "dashboard" 8000)).

Definition undecodable_then_close : list reply :=
  [quiet 11 (Frame {| msg_type := TEXT; msg_json := None |});
   quiet 12 (Frame {| msg_type := CLOSE; msg_json := None |})].

(** ** Send path: reconnect and retry *)

Definition is_transmission (e : effect) : bool :=
  match e with SendJson _ => true | _ => false end.

(** The number of [send_json] calls of a trace. *)
Definition transmissions (tr : list effect) : nat :=
  List.length (filter is_transmission tr).

(** Coroutines that never call [send_json]. *)
Definition silent {A} (m : Coro A) : Prop :=
  forall w o w', m w = Some (o, w') ->
    transmissions (trace w') = transmissions (trace w).

(** Coroutines that call [send_json] at most [n] times. *)
Definition sends_at_most {A} (n : nat) (m : Coro A) : Prop :=
  forall w o w', m w = Some (o, w') ->
    (transmissions (trace w') <= transmissions (trace w) + n)%nat.

(** Coroutines that let no error out: they return, or are cancelled. *)
Definition absorbs_errors {A} (m : Coro A) : Prop :=
  forall w o w', m w = Some (o, w') ->
    (exists a, o = Return a) \/ (exists e, o = Raise e /\ is_Exception e = false).

(** The world in which the retry starts: the first [send_json] has raised
    [ConnectionResetError] and the warning is logged. *)
Definition after_reset (data : value) (c : IPCClient) (r : reply)
           (s : list reply) : World :=
  {| client := interfere false (during r) c;
     script := s;
     trace := [SendJson data;
               Log WARNING "Connection lost, attempting to reconnect."];
     now := clock r |}.

(** C7 as worded: after a reset and a reconnection cycle that leaves the
    client connected, [send] returns [True] having retransmitted once. *)
Definition retransmits_once_after_reconnect : Prop :=
  forall data c r s w1 o w',
    is_dict data = true -> truthy (is_connected c) = true ->
    result r = Raises ConnectionResetError ->
    _attempt_reconnection (after_reset data c r s) = Some (Return tt, w1) ->
    truthy (is_connected (client w1)) = true ->
    send data (world c (r :: s)) = Some (o, w') ->
    o = Return true /\ transmissions (trace w') = 2%nat.

Definition ping : value := VDict [("op", VStr "ping")].

(** The first transmission is reset and the listener has left its loop. *)
Definition reset_noticed : reply :=
  {| during := [listener_ended]; clock := 20;
     result := Raises ConnectionResetError |}.

(** ** The reconnection guard under concurrent invocations

    Several tasks run [_attempt_reconnection] on the same client. A task
    runs until it suspends: in [lock.acquire()] when the guard is taken, or
    in the [sleep] of an attempt. [asyncio.Lock] wakes its waiters in FIFO
    order and a newcomer queues behind them. While one task is inside its
    cycle the others can only queue, so the rest of an attempt after its
    sleep (lines 174-181) is one step of the holder. *)

Inductive pc :=
| Start                                   (* created, has not run yet *)
| Waiting                                 (* suspended in lock.acquire() *)
| InCycle (attempt : Z) (rest : list Z)   (* holds the guard, sleeping *)
| Finished (cycled : bool).               (* returned: after a cycle, or as a no-op *)

Record Pool := {
  shared : IPCClient;
  locked : bool;
  waiters : list nat;
  tasks : list pc
}.

Fixpoint upd (i : nat) (x : pc) (l : list pc) : list pc :=
  match l, i with
  | [], _ => []
  | _ :: l', O => x :: l'
  | y :: l', S j => y :: upd j x l'
  end.

(** Task [i] has the guard: lines 163-168. *)
Definition enter (i : nat) (p : Pool) : Pool :=
  let c := shared p in
  if _is_connected c || _is_connecting c then
    {| shared := c; locked := false; waiters := waiters p;
       tasks := upd i (Finished false) (tasks p) |}
  else
    let c' := set_metrics (incr_reconnect_count (_metrics c)) c in
    match range 1 (_max_reconnect_attempts c + 1) with
    | [] =>
      {| shared := c'; locked := false; waiters := waiters p;
         tasks := upd i (Finished true) (tasks p) |}
    | a :: rest =>
      {| shared := c'; locked := true; waiters := waiters p;
         tasks := upd i (InCycle a rest) (tasks p) |}
    end.

Definition leave (i : nat) (c : IPCClient) (p : Pool) : Pool :=
  {| shared := c; locked := false; waiters := waiters p;
     tasks := upd i (Finished true) (tasks p) |}.

(** One step of task [i]; [answers] are the replies to the awaits of the
    [connect] it runs, if it runs one. [None]: the task cannot run. *)
Definition step (i : nat) (answers : list answer) (p : Pool) : option Pool :=
  match nth_error (tasks p) i with
  | Some Start =>
    if negb (locked p) && match waiters p with [] => true | _ => false end
    then Some (enter i p)
    else Some {| shared := shared p; locked := locked p;
                 waiters := (waiters p ++ [i])%list;
                 tasks := upd i Waiting (tasks p) |}
  | Some Waiting =>
    match waiters p with
    | j :: q =>
      if negb (locked p) && Nat.eqb i j then
        Some (enter i {| shared := shared p; locked := locked p;
                         waiters := q; tasks := tasks p |})
      else None
    | [] => None
    end
  | Some (InCycle a rest) =>
    match reconnection_attempt a
            (world (shared p) (map (quiet 0) (Done :: answers))) with
    | Some (Return None, w') =>
      match rest with
      | b :: rest' =>
        Some {| shared := client w'; locked := true; waiters := waiters p;
                tasks := upd i (InCycle b rest') (tasks p) |}
      | [] => Some (leave i (client w') p)
      end
    | Some (_, w') => Some (leave i (client w') p)
    | None => None
    end
  | Some (Finished _) | None => None
  end.

(** A schedule: which task runs next, with the replies it meets. *)
Fixpoint run (sched : list (nat * list answer)) (p : Pool) : option Pool :=
  match sched with
  | [] => Some p
  | (i, answers) :: sched' =>
    match step i answers p with
    | Some p' => run sched' p'
    | None => None
    end
  end.

(** [n] invocations created at once on client [c]. *)
Definition pool (c : IPCClient) (n : nat) : Pool :=
  {| shared := c; locked := false; waiters := []; tasks := repeat Start n |}.

Definition total (f : pc -> Z) (l : list pc) : Z :=
  fold_right (fun x acc => f x + acc) 0 l.

Definition in_cycle (x : pc) : Z :=
  match x with InCycle _ _ => 1 | _ => 0 end.

Definition has_cycled (x : pc) : Z :=
  match x with InCycle _ _ | Finished true => 1 | _ => 0 end.

(** Cycles in progress, cycles started. *)
Definition running (p : Pool) : Z := total in_cycle (tasks p).

Definition cycles (p : Pool) : Z := total has_cycled (tasks p).

Definition recon (c : IPCClient) : Z := reconnect_count (_metrics c).

(** C5 as worded: however many invocations run, one cycle is counted. *)
Definition one_cycle_for_all : Prop :=
  forall (n : nat) (c : IPCClient) sched p,
    (2 <= n)%nat ->
    _is_connected c = false -> _is_connecting c = false ->
    run sched (pool c n) = Some p ->
    Forall (fun x => exists b, x = Finished b) (tasks p) ->
    recon (shared p) = recon c + 1.

Definition fails : list answer := [Raises ClientConnectorError].

(** Task 0 runs a whole cycle of five failed attempts while task 1 waits
    for the guard; task 1 then runs a cycle of its own. *)
Definition two_failed_cycles : list (nat * list answer) :=
  [(0%nat, []); (1%nat, []);
   (0%nat, fails); (0%nat, fails); (0%nat, fails); (0%nat, fails);
   (0%nat, fails);
   (1%nat, []);
   (1%nat, fails); (1%nat, fails); (1%nat, fails); (1%nat, fails);
   (1%nat, fails)].

(** Coroutines that leave the cycle counter alone. *)
Definition steady {A} (m : Coro A) : Prop :=
  forall w o w', m w = Some (o, w') -> recon (client w') = recon (client w).

Definition guard_inv (rc0 : Z) (p : Pool) : Prop :=
  running p = (if locked p then 1 else 0)
  /\ (locked p = true ->
      _is_connected (shared p) = false /\ _is_connecting (shared p) = false)
  /\ recon (shared p) = rc0 + cycles p.

Definition succeeds : list answer := [Done].

(** Task 0 fails once and then reconnects while tasks 1 and 2 queue. *)
Definition one_cycle_suffices : list (nat * list answer) :=
  [(0%nat, []); (1%nat, []); (2%nat, []);
   (0%nat, fails); (0%nat, succeeds)].

(** ** Fuel of the loops *)

(** A loop body that consumes a reply whenever it asks for another turn. *)
Definition consuming (body : Coro ctl) : Prop :=
  forall w w1, body w = Some (Return Continue, w1) ->
    (List.length (script w1) < List.length (script w))%nat.


(** * Further vocabulary *)

(** ** Counting effects, keeping fields *)

(** How often an effect of kind [p] occurs in a trace. *)
Definition occurrences (p : effect -> bool) (tr : list effect) : nat :=
  List.length (filter p tr).

(** Coroutines that perform at most [n] effects of kind [p]. *)
Definition emits_at_most {A} (p : effect -> bool) (n : nat) (m : Coro A)
  : Prop :=
  forall w o w', m w = Some (o, w') ->
    (occurrences p (trace w') <= occurrences p (trace w) + n)%nat.

(** Coroutines that leave the observation [f] of the client as it was. *)
Definition keeps {A B} (f : IPCClient -> B) (m : Coro A) : Prop :=
  forall w o w', m w = Some (o, w') -> f (client w') = f (client w).

Definition is_handshake (e : effect) : bool :=
  match e with WsConnect => true | _ => false end.

Definition is_session_creation (e : effect) : bool :=
  match e with CreateSession | CreateConnector => true | _ => false end.

(** The options given to [__init__]. *)
Definition config (c : IPCClient) : string * Z * Z * Z * Z :=
  (_host c, _port c, _heartbeat c, _max_reconnect_attempts c,
   _reconnect_delay c).

Definition is_create_session (e : effect) : bool :=
  match e with CreateSession => true | _ => false end.

Definition is_create_connector (e : effect) : bool :=
  match e with CreateConnector => true | _ => false end.

(** Coroutines that, started with the client in [P] and the script in [Q],
    end with both still there and perform no effect of kind [p]. *)
Definition confined {A} (P : IPCClient -> Prop) (Q : list reply -> Prop)
           (p : effect -> bool) (m : Coro A) : Prop :=
  forall w o w',
    P (client w) -> Q (script w) -> m w = Some (o, w') ->
    P (client w') /\ Q (script w')
    /\ occurrences p (trace w') = occurrences p (trace w).

(** A client that can make no handshake any more: idle, in need of a
    session, and holding a closed connector, over which any session to come
    is built. *)
Definition spent (c : IPCClient) : Prop :=
  _is_connecting c = false /\ _is_connected c = false
  /\ can_handshake c = false.

(** The client holds a connector that is closed. *)
Definition stale_connector (k : TCPConnector) (c : IPCClient) : Prop :=
  _connector c = Some k /\ connector_closed k = true.

(** The replies met by attempts that fail one after the other: each sleep
    returns, each handshake raises. *)
Definition failed_attempts (fs : list exn) : list reply :=
  flat_map (fun f => [quiet 0 Done; quiet 0 (Raises f)]) fs.

(** Neither connected nor connecting: the state in which a cycle starts. *)
Definition idle (c : IPCClient) : Prop :=
  _is_connected c = false /\ _is_connecting c = false.

(** ** Handler tasks of the listener *)

(** The handler tasks a trace creates, in order: the payload handed over and
    the number in the task's name, [process_msg_<n>]. *)
Definition dispatches (tr : list effect) : list (value * Z) :=
  flat_map (fun e => match e with
                     | CreateTask (ProcessMessageTask d n) => [(d, n)]
                     | _ => []
                     end) tr.

(** The payload of a reply, when it is a text frame that decodes. *)
Definition payload (r : reply) : option value :=
  match result r with
  | Frame m => match msg_type m with TEXT => msg_json m | _ => None end
  | _ => None
  end.

(** The replies [s] numbered as frames from [n] on: each frame takes the
    next number, and the payloads keep the number of their frame. *)
Fixpoint numbered (n : Z) (s : list reply) : list (value * Z) :=
  match s with
  | [] => []
  | r :: s' =>
    if is_frame r then
      (match payload r with Some d => [(d, n + 1)] | None => [] end
       ++ numbered (n + 1) s')%list
    else numbered n s'
  end.

Definition is_receive (e : effect) : bool :=
  match e with Receive _ => true | _ => false end.

(** [n] receive calls in a row that run into their timeout. *)
Definition timeouts (n : nat) : list reply :=
  repeat (quiet 0 (Raises TimeoutError)) n.

Definition close_frame : WSMessage := {| msg_type := CLOSE; msg_json := None |}.

(** The client is the one the call started with. *)
Definition is_client (c0 c : IPCClient) : Prop := c = c0.

(** No condition on the replies to come. *)
Definition any_script (s : list reply) : Prop := True.

(** ** [get_metrics] *)

(** An optional time as a Python value; a time of 0 is falsy, as [None] is. *)
Definition time_value (o : option timestamp) : value :=
  match o with Some t => VInt t | None => VNone end.

(** [get_metrics] (lines 336-346): the dict, its keys in source order. The
    clock is read only when the connect time is truthy. *)
Definition get_metrics : Coro value :=
  c <- get ;;
  uptime <- (if truthy (time_value (last_connect_time (_metrics c))) then
               t <- time_time ;;
               ret (match last_connect_time (_metrics c) with
                    | Some t0 => t - t0
                    | None => 0
                    end)
             else ret 0) ;;
  ret (VDict [("connect_attempts", VInt (connect_attempts (_metrics c)));
              ("reconnect_count", VInt (reconnect_count (_metrics c)));
              ("message_count", VInt (message_count (_metrics c)));
              ("last_connect_time",
               time_value (last_connect_time (_metrics c)));
              ("last_heartbeat", time_value (last_heartbeat (_metrics c)));
              ("is_connected", is_connected c);
              ("uptime", VInt uptime)]).

(** [d[k]] *)
Fixpoint assoc (k : string) (d : list (string * value)) : option value :=
  match d with
  | [] => None
  | (k', v) :: d' => if String.eqb k k' then Some v else assoc k d'
  end.

Definition item (k : string) (v : value) : option value :=
  match v with VDict d => assoc k d | _ => None end.

(** * The startup script ([src/start.py])

    The script talks to the outside through the file system, sockets, HTTP,
    subprocesses and the terminal. The answers of the outside are gathered
    in an environment; what the script does is recorded as a list of
    events. Layout of the printed text (blank lines, indentation, the box of
    the banner) is not modelled, and the symbol a message starts with is
    kept apart from its text. *)
Module Start.

Definition LAVALINK_HOST : string := "localhost".
Definition LAVALINK_PORT : Z := 2333.
Definition LAVALINK_PASSWORD : string := "youshallnotpass".
Definition LAVALINK_URL : string :=
  "http://" ++ LAVALINK_HOST ++ ":" ++ str LAVALINK_PORT.
Definition MAX_WAIT_TIME : Z := 120.
Definition CHECK_INTERVAL : Z := 2.
Definition VENV_PATHS : list string := ["venv"; ".venv"; "env"; ".env"].

Inductive Colors :=
| HEADER | OKBLUE | OKCYAN | OKGREEN | WARNING | FAIL | ENDC | BOLD.

(** The symbol in front of a message. *)
Inductive mark :=
| NoMark | Tick | Cross | Caution | Hourglass | Whale | Robot | Package.

(** The answer to [requests.get]: a response, or a [RequestException]. *)
Inductive http_reply := Status (code : Z) | RequestException.

(** How a subprocess run ends: with a return code, with
    [FileNotFoundError] (no such program) or with [KeyboardInterrupt]. *)
Inductive completed := Returned (code : Z) | Missing | Interrupted.

Record Env := {
  platform : string;                    (* sys.platform *)
  real_prefix : option string;          (* sys.real_prefix, if present *)
  base_prefix : option string;          (* sys.base_prefix, if present *)
  prefix : string;                      (* sys.prefix *)
  executable : string;                  (* sys.executable *)
  script_dir : string;   (* os.path.dirname(os.path.abspath(__file__)) *)
  join : string -> string -> string;    (* os.path.join *)
  basename : string -> string;          (* os.path.basename *)
  isdir : string -> bool;               (* os.path.isdir *)
  isfile : string -> bool;              (* os.path.isfile *)
  path_exists : string -> bool;         (* os.path.exists *)
  connect_ex : option Z;    (* sock.connect_ex, [None]: socket.error *)
  health : nat -> http_reply;           (* the n-th GET of /version *)
  imports : completed;                  (* python -c "import ..." *)
  pip : completed;                      (* python -m pip install ... *)
  docker_version : completed;           (* docker compose version *)
  docker_up : bool;          (* Popen succeeds, else FileNotFoundError *)
  bot : completed;                      (* python main.py *)
  typed : option string      (* input(), [None]: KeyboardInterrupt *)
}.

Inductive event :=
| Print (color : Colors) (m : mark) (text : string)
| Get (url : string)
| ConnectEx (host : string) (port : Z)
| Sleep (seconds : Z)
| Run (argv : list string) (check : bool)
| Popen (argv : list string)
| Terminate
| Input (prompt : string).

Inductive error :=
| KeyboardInterrupt
| CalledProcessError (returncode : Z)
| FileNotFoundError.

(** [Exit] is [SystemExit]: no handler of the script catches it. *)
Inductive res (A : Type) :=
| Ret (a : A)
| Exit (code : Z)
| Raise (e : error).
Arguments Ret {A} a.
Arguments Exit {A} code.
Arguments Raise {A} e.

(** The events so far, and the number of health checks made. *)
Record St := { log : list event; checks : nat }.

(** [None]: the loop of [wait_for_lavalink] ran out of fuel. *)
Definition Script (A : Type) : Type := Env -> St -> option (res A * St).

Definition ret {A} (a : A) : Script A := fun _ st => Some (Ret a, st).

Definition raise {A} (e : error) : Script A := fun _ st => Some (Raise e, st).

Definition sys_exit {A} (code : Z) : Script A :=
  fun _ st => Some (Exit code, st).

Definition bind {A B} (m : Script A) (f : A -> Script B) : Script B :=
  fun env st =>
    match m env st with
    | None => None
    | Some (Ret a, st') => f a env st'
    | Some (Exit code, st') => Some (Exit code, st')
    | Some (Raise e, st') => Some (Raise e, st')
    end.

Declare Scope script_scope.
Delimit Scope script_scope with script.
Notation "x <- m ;; k" := (bind m (fun x => k))
  (at level 61, m at next level, right associativity) : script_scope.
Notation "m ;; k" := (bind m (fun _ => k))
  (at level 61, right associativity) : script_scope.
#[local] Open Scope script_scope.

Definition try_except {A} (body : Script A) (h : error -> option (Script A))
  : Script A :=
  fun env st =>
    match body env st with
    | Some (Raise e, st') =>
      match h e with
      | Some k => k env st'
      | None => Some (Raise e, st')
      end
    | r => r
    end.

Definition ask {A} (f : Env -> A) : Script A :=
  fun env st => Some (Ret (f env), st).

Definition emit (e : event) : Script unit :=
  fun _ st => Some (Ret tt, {| log := log st ++ [e]; checks := checks st |}).

Definition print_colored (color : Colors) (m : mark) (text : string)
  : Script unit :=
  emit (Print color m text).

(** [subprocess.run(argv, check=check)]: the return code. *)
Definition subprocess_run (argv : list string) (check : bool)
           (outcome : Env -> completed) : Script Z :=
  emit (Run argv check) ;;
  o <- ask outcome ;;
  match o with
  | Returned code =>
    if check && negb (Z.eqb code 0) then raise (CalledProcessError code)
    else ret code
  | Missing => raise FileNotFoundError
  | Interrupted => raise KeyboardInterrupt
  end.

(** [str.lower], on ASCII letters. *)
Definition lower_ascii (a : Ascii.ascii) : Ascii.ascii :=
  let n := Ascii.nat_of_ascii a in
  if Nat.leb 65 n && Nat.leb n 90 then Ascii.ascii_of_nat (n + 32) else a.

Fixpoint lower (s : string) : string :=
  match s with
  | EmptyString => EmptyString
  | String a s' => String (lower_ascii a) (lower s')
  end.

(** [s * n] *)
Fixpoint times (s : string) (n : nat) : string :=
  match n with O => "" | S k => s ++ times s k end.

(** [os.path.join(venv_path, "Scripts", "python.exe")] or
    [os.path.join(venv_path, "bin", "python")] (lines 57-60). *)
Definition python_in (env : Env) (venv_path : string) : string :=
  if String.eqb (platform env) "win32" then
    join env (join env venv_path "Scripts") "python.exe"
  else
    join env (join env venv_path "bin") "python".

(** The loop of [find_venv] (lines 52-65). *)
Fixpoint find_venv_in (env : Env) (names : list string)
  : option string * option string :=
  match names with
  | [] => (None, None)
  | venv_name :: rest =>
    let venv_path := join env (script_dir env) venv_name in
    if isdir env venv_path then
      let python_exe := python_in env venv_path in
      if isfile env python_exe then (Some venv_path, Some python_exe)
      else find_venv_in env rest
    else find_venv_in env rest
  end.

Definition find_venv (env : Env) : option string * option string :=
  find_venv_in env VENV_PATHS.

(** Line 74. *)
Definition in_virtualenv (env : Env) : bool :=
  match real_prefix env with
  | Some _ => true
  | None =>
    match base_prefix env with
    | Some b => negb (String.eqb b (prefix env))
    | None => false
    end
  end.

Definition get_python_executable : Script string :=
  env <- ask (fun env => env) ;;
  if in_virtualenv env then
    print_colored OKGREEN Tick "Already running in virtual environment" ;;
    ret (executable env)
  else
    match find_venv env with
    | (Some venv_path, Some python_exe) =>
      if String.eqb python_exe "" then
        print_colored WARNING Caution
                      "No virtual environment found, using system Python" ;;
        ret (executable env)
      else
        print_colored OKGREEN Tick
                      ("Found virtual environment: "
                         ++ basename env venv_path) ;;
        ret python_exe
    | _ =>
      print_colored WARNING Caution
                    "No virtual environment found, using system Python" ;;
      ret (executable env)
    end.

Definition is_port_in_use (port : Z) (host : string) : Script bool :=
  emit (ConnectEx host port) ;;
  r <- ask connect_ex ;;
  match r with
  | Some result => ret (Z.eqb result 0)
  | None => ret false
  end.

Definition check_lavalink_health : Script bool :=
  emit (Get (LAVALINK_URL ++ "/version")) ;;
  fun env st =>
    let st' := {| log := log st; checks := S (checks st) |} in
    match health env (checks st) with
    | Status code => Some (Ret (Z.eqb code 200), st')
    | RequestException => Some (Ret false, st')
    end.

(** The loop of [wait_for_lavalink] (lines 120-130). *)
Fixpoint wait_loop (fuel : nat) (elapsed : Z) : Script bool :=
  if Z.ltb elapsed MAX_WAIT_TIME then
    match fuel with
    | O => fun _ _ => None
    | S n =>
      ok <- check_lavalink_health ;;
      if ok then
        print_colored OKGREEN Tick "Lavalink is ready!" ;;
        ret true
      else
        emit (Sleep CHECK_INTERVAL) ;;
        let elapsed := elapsed + CHECK_INTERVAL in
        (if Z.eqb (elapsed mod 10) 0 then
           print_colored WARNING NoMark
                         ("Still waiting... (" ++ str elapsed ++ "s / "
                            ++ str MAX_WAIT_TIME ++ "s)")
         else ret tt) ;;
        wait_loop n elapsed
    end
  else ret false.

Definition wait_for_lavalink : Script bool :=
  print_colored OKCYAN Hourglass "Waiting for Lavalink to be ready..." ;;
  wait_loop (Z.to_nat MAX_WAIT_TIME) 0.

(** The process handle returned by [subprocess.Popen]. *)
Inductive process := LavalinkProcess.

Definition start_lavalink_docker : Script (option process) :=
  print_colored OKCYAN Whale "Starting Lavalink with Docker Compose..." ;;
  try_except
    (subprocess_run ["docker"; "compose"; "version"] true docker_version ;;
     emit (Popen ["docker"; "compose"; "up"; "lavalink"]) ;;
     up <- ask docker_up ;;
     if up then
       print_colored OKGREEN Tick "Docker Compose command executed" ;;
       ret (Some LavalinkProcess)
     else raise FileNotFoundError)
    (fun e =>
       match e with
       | CalledProcessError _ =>
         Some (print_colored FAIL Cross
                             "Docker Compose not found or failed to start" ;;
               ret None)
       | FileNotFoundError =>
         Some (print_colored FAIL Cross "Docker not found on system" ;;
               ret None)
       | _ => None
       end).

Definition start_bot (python_exe : string) : Script unit :=
  print_colored OKCYAN Robot "Starting Vocard Discord Bot..." ;;
  print_colored HEADER NoMark (times "=" 50) ;;
  try_except
    (subprocess_run [python_exe; "main.py"] true bot ;; ret tt)
    (fun e =>
       match e with
       | KeyboardInterrupt =>
         Some (print_colored WARNING Tick "Bot stopped by user")
       | CalledProcessError returncode =>
         Some (print_colored FAIL Cross
                             ("Bot exited with error code "
                                ++ str returncode) ;;
               sys_exit returncode)
       | _ => None
       end).

(** [input(prompt)] *)
Definition input (prompt : string) : Script string :=
  emit (Input prompt) ;;
  t <- ask typed ;;
  match t with
  | Some s => ret s
  | None => raise KeyboardInterrupt
  end.

Definition check_requirements (python_exe : string) : Script bool :=
  print_colored OKCYAN Package "Checking requirements..." ;;
  present <- ask (fun env => path_exists env "requirements.txt") ;;
  if negb present then
    print_colored FAIL Cross "requirements.txt not found!" ;;
    ret false
  else
    returncode <-
      subprocess_run [python_exe; "-c"; "import discord; import voicelink"]
                     false imports ;;
    if Z.eqb returncode 0 then
      print_colored OKGREEN Tick "Core dependencies found" ;;
      ret true
    else
      print_colored WARNING Caution "Some dependencies might be missing" ;;
      found <- ask find_venv ;;
      (match fst found with
       | Some venv_path =>
         if String.eqb venv_path "" then
           print_colored
             WARNING NoMark
             "Run: python3 -m pip install -r requirements.txt"
         else
           print_colored
             WARNING NoMark
             ("Run: source " ++ venv_path
                ++ "/bin/activate && pip install -r requirements.txt")
       | None =>
         print_colored WARNING NoMark
                       "Run: python3 -m pip install -r requirements.txt"
       end) ;;
      response <- input "Would you like to install dependencies now? (y/n): " ;;
      if String.eqb (lower response) "y" then
        try_except
          (subprocess_run
             [python_exe; "-m"; "pip"; "install"; "-r"; "requirements.txt"]
             true pip ;;
           print_colored OKGREEN Tick "Dependencies installed" ;;
           ret true)
          (fun e =>
             match e with
             | CalledProcessError _ =>
               Some (print_colored FAIL Cross
                                   "Failed to install dependencies" ;;
                     ret false)
             | _ => None
             end)
      else ret false.

Definition main : Script unit :=
  print_colored HEADER NoMark "Vocard Startup Script" ;;
  python_exe <- get_python_executable ;;
  print_colored OKBLUE NoMark ("Using Python: " ++ python_exe) ;;
  ok <- check_requirements python_exe ;;
  (if negb ok then
     print_colored FAIL Cross
                   "Please install requirements before continuing" ;;
     sys_exit 1
   else ret tt) ;;
  used <- is_port_in_use LAVALINK_PORT LAVALINK_HOST ;;
  (if used then
     print_colored OKGREEN Tick
                   ("Lavalink is already running on port "
                      ++ str LAVALINK_PORT) ;;
     healthy <- check_lavalink_health ;;
     if healthy then
       print_colored OKGREEN Tick "Lavalink health check passed"
     else
       print_colored WARNING Caution
                     "Port is in use but Lavalink health check failed" ;;
       print_colored WARNING NoMark "Continuing anyway..."
   else
     print_colored WARNING Caution
                   ("Lavalink not detected on port " ++ str LAVALINK_PORT) ;;
     lavalink_process <- start_lavalink_docker ;;
     match lavalink_process with
     | None =>
       print_colored FAIL Cross "Could not start Lavalink automatically" ;;
       print_colored
         WARNING NoMark
         "Please start Lavalink manually with one of these methods:" ;;
       print_colored WARNING NoMark "1. Docker: docker compose up lavalink" ;;
       print_colored WARNING NoMark "2. Java: java -jar Lavalink.jar" ;;
       sys_exit 1
     | Some _ =>
       ready <- wait_for_lavalink ;;
       if negb ready then
         print_colored FAIL Cross
                       ("Lavalink did not become ready within "
                          ++ str MAX_WAIT_TIME ++ " seconds") ;;
         print_colored WARNING NoMark
                       "Please check Lavalink logs for errors" ;;
         emit Terminate ;;
         sys_exit 1
       else ret tt
     end) ;;
  print_colored HEADER NoMark (times "=" 50) ;;
  start_bot python_exe.

(** The guard at the end of the file (lines 280-288): every exception of
    the model derives from [Exception], but [KeyboardInterrupt]. *)
Definition __main__ : Script unit :=
  try_except main
    (fun e =>
       match e with
       | KeyboardInterrupt =>
         Some (print_colored WARNING Tick "Startup cancelled by user" ;;
               sys_exit 0)
       | _ =>
         Some (print_colored FAIL Cross "Unexpected error" ;;
               sys_exit 1)
       end).

(** The state in which the script starts. *)
Definition start : St := {| log := []; checks := 0 |}.

(** ** Vocabulary of the properties of the script *)

(** A reply that [check_lavalink_health] takes for a healthy server. *)
Definition healthy (r : http_reply) : bool :=
  match r with Status code => Z.eqb code 200 | RequestException => false end.

(** The durations of the sleeps of a log, in order. *)
Definition pauses (l : list event) : list Z :=
  flat_map (fun e => match e with Sleep s => [s] | _ => [] end) l.

Definition is_progress (e : event) : bool :=
  match e with Print WARNING NoMark _ => true | _ => false end.

Definition is_bot_run (e : event) : bool :=
  match e with
  | Run [_; script] true => String.eqb script "main.py"
  | _ => false
  end.

Definition is_terminate (e : event) : bool :=
  match e with Terminate => true | _ => false end.

(** How often an event of kind [p] occurs in a log. *)
Definition tally (p : event -> bool) (l : list event) : nat :=
  List.length (filter p l).

(** The requirements check passes: the file is there, and the imports
    succeed or the user has the dependencies installed. *)
Definition requirements_met (env : Env) : bool :=
  path_exists env "requirements.txt"
  && match imports env with
     | Returned code =>
       Z.eqb code 0
       || match typed env, pip env with
          | Some s, Returned c => String.eqb (lower s) "y" && Z.eqb c 0
          | _, _ => false
          end
     | _ => false
     end.

(** The port of Lavalink answers. *)
Definition port_open (env : Env) : bool :=
  match connect_ex env with Some r => Z.eqb r 0 | None => false end.

(** Docker Compose is there and the service was launched. *)
Definition docker_started (env : Env) : bool :=
  match docker_version env with
  | Returned code => Z.eqb code 0 && docker_up env
  | _ => false
  end.

(** The directory [venv_name] of the project is a virtual environment: it
    is a directory and holds the interpreter of the platform. *)
Definition qualifies (env : Env) (venv_name : string) : bool :=
  isdir env (join env (script_dir env) venv_name)
  && isfile env (python_in env (join env (script_dir env) venv_name)).

(** One of the first [n] health checks finds the server healthy. *)
Definition ready_within (env : Env) (n : nat) : bool :=
  existsb (fun k => healthy (health env k)) (seq 0 n).

(** ** Running the script *)

Definition push (e : event) (st : St) : St :=
  {| log := log st ++ [e]; checks := checks st |}.

(** What a step leaves behind: it ends, and [P] holds of its result and
    of the state it leaves. *)
Definition leaves {A} (m : Script A) (env : Env) (st : St)
           (P : res A -> St -> Prop) : Prop :=
  match m env st with
  | Some (r, st') => P r st'
  | None => False
  end.

(** A step that touches neither the health checks nor the counts of bot
    runs and of terminations. *)
Definition untouched (st st' : St) : Prop :=
  checks st' = checks st
  /\ tally is_bot_run (log st') = tally is_bot_run (log st)
  /\ tally is_terminate (log st') = tally is_terminate (log st).

(** What [main] leaves behind, in terms of the answers of the outside. *)
Definition startup (env : Env) (r : res unit) (st' : St) : Prop :=
  tally is_bot_run (log st')
  = (if requirements_met env
        && (port_open env || docker_started env && ready_within env 60)
     then 1 else 0)%nat
  /\ tally is_terminate (log st')
     = (if requirements_met env && negb (port_open env)
           && docker_started env && negb (ready_within env 60)
        then 1 else 0)%nat
  /\ (r = Ret tt -> tally is_bot_run (log st') = 1%nat).
End Start.

(** * Properties *)

(** ** Connectivity predicate *)

(** C1: [is_connected] returns [True] exactly when the status flag is set,
    the websocket handle exists and is not closed, and the session handle
    exists and is not closed; in every other state its result is [False] or
    [None], never a true value. *)
Theorem is_connected_true_iff (c : IPCClient) :
  (is_connected c = VBool true <-> link_up c)
  /\ (truthy (is_connected c) = true <-> link_up c)
  /\ (~ link_up c -> is_connected c = VBool false \/ is_connected c = VNone).
Proof.
  unfold is_connected, link_up.
  destruct (_is_connected c); simpl.
  2:{ repeat split; try discriminate; try (intros (H & _); discriminate).
      intros _. now left. }
  destruct (_websocket c) as [[wc]|]; simpl.
  2:{ repeat split; try discriminate;
        try (intros (_ & (ws & H & _) & _); discriminate).
      intros _. now right. }
  destruct wc; simpl.
  { repeat split; try discriminate;
      try (intros (_ & (ws & H & Hc) & _); inversion H; subst; discriminate).
    intros _. now left. }
  destruct (_session c) as [[sc]|]; simpl.
  2:{ repeat split; try discriminate;
        try (intros (_ & _ & (s & H & _)); discriminate).
      intros _. now right. }
  destruct sc; simpl.
  { repeat split; try discriminate;
      try (intros (_ & _ & (s & H & Hc)); inversion H; subst; discriminate).
    intros _. now left. }
  repeat split; try reflexivity; eauto.
  intros H. exfalso. apply H. repeat split; eauto.
Qed.

(** ** Send path: fast failure *)

(** C6: when the payload is not a dict, or the connectivity predicate is
    false, [send] returns [False] (it does not raise); it consumes no reply,
    so it awaits nothing: no transport call, no reconnection; the client is
    unchanged and the only effect is one log line. *)
Theorem send_fast_fail (data : value) (w : World) :
  fast_fail data (client w) = true ->
  exists l m, send data w = Some (Return false, logged w l m).
Proof.
  unfold fast_fail, send. intros H.
  destruct (is_dict data); simpl in *.
  - unfold bind at 1. simpl. rewrite H. do 2 eexists. reflexivity.
  - do 2 eexists. reflexivity.
Qed.

Lemma send_fast_fail_witness :
  exists l m,
    send (VList [VInt 1]) (world (init "dashboard" 8000) []) =
    Some (Return false, logged (world (init "dashboard" 8000) []) l m).
Proof. apply send_fast_fail. reflexivity. Defined.

(** ** Connection attempts and the Connecting flag *)

Lemma while_exit (cond : IPCClient -> bool) (body : Coro ctl) :
  (forall w k w1, body w = Some (Return k, w1) -> k = Continue) ->
  forall n w u w',
    while_ n cond body w = Some (Return u, w') -> cond (client w') = false.
Proof.
  intros Hb. induction n as [|n IH]; simpl; intros w u w';
    destruct (cond (client w)) eqn:E; try discriminate;
    try (intros H; inversion H; subst; exact E).
  unfold bind. destruct (body w) as [[[k|e] w1]|] eqn:B; try discriminate.
  rewrite (Hb _ _ _ B). apply IH.
Qed.

(** Case analysis on the client's flags and handles and on what another
    task does. *)
Ltac by_cases_on c a :=
  destruct c as [h p hb ed ing mx rd ses ws tk cn mt];
  destruct ses as [[[|]]|], ws as [[[|]]|], tk as [[[|]]|], cn as [[[|]]|],
           ed, ing;
  destruct a as [| | | |[|] t|].

Lemma apply_action_own_attempt (a : action) (c : IPCClient) :
  _is_connecting c = true -> _is_connected c = false ->
  _is_connecting (apply_action true a c) = true
  /\ _is_connected (apply_action true a c) = false.
Proof.
  intros H1 H2. revert H1 H2. by_cases_on c a; simpl; intros; try discriminate;
    split; reflexivity.
Qed.

Lemma interfere_own_attempt (l : list action) :
  forall c, _is_connecting c = true -> _is_connected c = false ->
  _is_connecting (interfere true l c) = true
  /\ _is_connected (interfere true l c) = false.
Proof.
  unfold interfere. induction l as [|a l IH]; simpl; intros c H1 H2; auto.
  destruct (apply_action_own_attempt a c H1 H2). apply IH; assumption.
Qed.

Lemma not_connected_flag (c : IPCClient) :
  _is_connected c = false -> truthy (is_connected c) = false.
Proof. unfold is_connected. intros ->. reflexivity. Qed.

Lemma await_inv (own : bool) (e : effect) (w w' : World) (o : outcome unit) :
  await_ own e w = Some (o, w') ->
  exists r s, script w = r :: s /\ w' = resumed own e r s w
    /\ (result r = Done /\ o = Return tt
        \/ exists x, result r = Raises x /\ o = Raise x).
Proof.
  unfold await_, bind, suspend. destruct (script w) as [|r s]; [discriminate|].
  destruct (result r) eqn:R; simpl; intros E; inversion E; subst;
    exists r, s; repeat split; eauto.
Qed.

(** While the attempt is the caller's own, the [try] block keeps the
    Connecting flag, and sets the status flag only when it completes. *)
Lemma connect_try_flags (w w' : World) (o : outcome unit) :
  _is_connecting (client w) = true -> _is_connected (client w) = false ->
  connect_try w = Some (o, w') ->
  _is_connecting (client w') = true
  /\ (forall e, o = Raise e -> _is_connected (client w') = false).
Proof.
  intros H1 H2.
  unfold connect_try, ws_connect, bind, get, _create_session, bind, get,
    needs_session, connector_for, session_over, raise.
  simpl.
  destruct (_session (client w)) as [[[|]]|] eqn:Es; simpl;
    try (destruct (_connector (client w)) as [[[|]]|]; simpl);
    try rewrite Es; simpl;
    try match goal with
        | |- context [await_ true WsConnect ?w0] =>
          destruct (await_ true WsConnect w0) as [[[u|x] w1]|] eqn:A;
            [| |discriminate];
            (apply await_inv in A; destruct A as (r & s & _ & -> & _);
             destruct (interfere_own_attempt (during r) (client w0))
               as [I1 I2];
             [simpl; assumption | simpl; assumption |])
        end;
    simpl in *; intros E; inversion E; subst; simpl;
    (split; [assumption | try discriminate; intros; assumption]).
Qed.

Lemma connect_handlers_reraise (e : exn) (k : Coro unit) (w w' : World)
      (o : outcome unit) :
  connect_handlers e = Some k -> k w = Some (o, w') ->
  client w' = client w /\ exists e', o = Raise e'.
Proof.
  unfold connect_handlers.
  destruct e; simpl; intros Hk; inversion Hk; subst; clear Hk;
    try (intros E; inversion E; subst; simpl; eauto; fail).
  destruct (Z.eqb status 401); [|destruct (Z.eqb status 403)];
    intros E; inversion E; subst; simpl; eauto.
Qed.

(** A call that finds no attempt in flight: its own attempt, or none. *)
Lemma connect_attempt_flags (w w' : World) (o : outcome unit) :
  _is_connecting (client w) = false ->
  connect w = Some (o, w') ->
  _is_connecting (client w') = false
  /\ (forall e, o = Raise e ->
        _is_connected (client w') = false
        /\ truthy (is_connected (client w')) = false).
Proof.
  intros Eing. unfold connect. unfold bind at 1. simpl. rewrite Eing.
  destruct (_is_connected (client w)) eqn:Eed.
  - simpl. intros H. inversion H; subst; simpl. split; [auto|].
    intros e He. discriminate.
  - unfold bind at 1. simpl. unfold bind at 1. simpl.
    unfold try_finally, try_except.
    match goal with
    | |- context [connect_try ?w0] =>
      destruct (connect_try w0) as [[[u|e0] w1]|] eqn:T; [| |discriminate];
        (apply connect_try_flags in T; [|reflexivity|simpl; exact Eed]);
        destruct T as [T1 T2]
    end.
    + simpl. intros E; inversion E; subst; simpl. split; [reflexivity|].
      intros e He; discriminate.
    + destruct (connect_handlers e0) as [k|] eqn:Hk.
      * destruct (k w1) as [[o1 w2]|] eqn:K; [|discriminate].
        destruct (connect_handlers_reraise _ _ _ _ _ Hk K) as [Hc [e' ->]].
        simpl. intros E; inversion E; subst; simpl. split; [reflexivity|].
        intros e He. rewrite Hc.
        split; [|apply not_connected_flag]; simpl; eauto.
      * simpl. intros E; inversion E; subst; simpl. split; [reflexivity|].
        intros e He.
        split; [|apply not_connected_flag]; simpl; eauto.
Qed.

(** C8 (amended): a call to [connect] that finds no attempt in flight, or
    that returns normally, leaves the Connecting flag cleared; and when a
    call that found no attempt in flight raises, the status flag is unset and
    the connectivity predicate is false. *)
Theorem connect_clears_connecting (w w' : World) (o : outcome unit) :
  connect w = Some (o, w') ->
  ((_is_connecting (client w) = false \/ o = Return tt) ->
   _is_connecting (client w') = false)
  /\ (_is_connecting (client w) = false ->
      forall e, o = Raise e ->
        _is_connected (client w') = false
        /\ truthy (is_connected (client w')) = false).
Proof.
  intros H. destruct (_is_connecting (client w)) eqn:Eing.
  - (* an attempt of another task is in flight: the call waits for it *)
    split; [|discriminate].
    intros [Hf | ->]; [discriminate|].
    revert H. unfold connect. unfold bind at 1. simpl. rewrite Eing.
    unfold bind at 1. simpl. unfold while. intros H.
    eapply while_exit with (cond := _is_connecting); [|exact H].
    intros w0 k w1. unfold bind, await, await_, bind, suspend.
    destruct (script w0) as [|r s]; [discriminate|].
    destruct (result r); simpl; intros E; inversion E; reflexivity.
  - (* the call makes its own attempt, or finds the client connected *)
    destruct (connect_attempt_flags _ _ _ Eing H) as [F1 F2].
    split; [intros _; exact F1|intros _; exact F2].
Qed.

Lemma connect_clears_connecting_witness :
  exists w',
    connect (world (init "dashboard" 8000)
                   [quiet 3 (Raises (WSServerHandshakeError 401))]) =
    Some (Raise (WSServerHandshakeError 401), w')
    /\ _is_connecting (client w') = false
    /\ _is_connected (client w') = false.
Proof.
  eexists. split; [vm_compute; reflexivity|].
  match goal with
  | |- _is_connecting (client ?w1) = _ /\ _ =>
    assert (E : connect (world (init "dashboard" 8000)
                               [quiet 3 (Raises (WSServerHandshakeError 401))])
                = Some (Raise (WSServerHandshakeError 401), w1))
      by (vm_compute; reflexivity)
  end.
  destruct (connect_clears_connecting _ _ _ E) as [H1 H2].
  split; [apply H1; left; reflexivity|].
  apply (H2 eq_refl (WSServerHandshakeError 401) eq_refl).
Defined.

(** A call that waits for the attempt of another task and is cancelled in
    its [sleep(0.1)] raises while that attempt is still in flight. *)
Lemma connect_cancelled_while_waiting : ~ connect_always_settles.
Proof.
  intros H.
  eassert (E : connect (world (set_is_connecting true (init "dashboard" 8000))
                              [quiet 1 (Raises CancelledError)])
               = Some (Raise CancelledError, _))
    by (vm_compute; reflexivity).
  destruct (H _ _ _ E) as [Hf _].
  vm_compute in Hf. discriminate Hf.
Qed.

(** ** Handshake failures surfaced by [connect] *)

(** C4: when the handshake fails, [connect] raises [ConnectionError],
    chained from the original error, for an unreachable endpoint, and
    re-raises the original exception unchanged otherwise; the kind of the
    failure - unreachable, unauthorized (401), forbidden (403), other - is a
    function of the exception the caller catches, so the four cases are
    told apart by the exception alone. The handshake is one that is made (no
    closed connector under the session), and the transport does not itself
    raise what only line 276 builds. *)
Theorem connect_surfaces_failure (c : IPCClient) (t : timestamp) (f : exn) :
  _is_connecting c = false -> _is_connected c = false ->
  can_handshake c = true ->
  (forall m, f <> ConnectionError m (Some ClientConnectorError)) ->
  exists e w',
    connect (failing_handshake c t f) = Some (Raise e, w')
    /\ surfaced_kind e = kind_of f
    /\ e = match f with
           | ClientConnectorError =>
             ConnectionError (unreachable_msg c) (Some f)
           | _ => f
           end.
Proof.
  intros H1 H2 Hc Hf.
  unfold connect, failing_handshake, bind at 1. simpl. rewrite H1, H2.
  unfold bind at 1. simpl. unfold bind at 1. simpl.
  revert Hc.
  unfold try_finally, try_except, connect_try, ws_connect, bind, get,
    _create_session, bind, get, raise, can_handshake, needs_session,
    connector_for, session_over, surfaced_kind, kind_of.
  simpl.
  destruct (_session c) as [[[|]]|] eqn:Es; simpl;
    try (destruct (_connector c) as [[[|]]|]; simpl);
    try rewrite Es; simpl;
    intros Hc; try discriminate Hc;
    (destruct f as [| | |m [[]|]| |status| |]; simpl;
     try (do 2 eexists; repeat split; fail);
     try (exfalso; apply (Hf m); reflexivity);
     destruct (Z.eqb status 401) eqn:E1; simpl;
     [|destruct (Z.eqb status 403) eqn:E2; simpl];
     do 2 eexists; repeat split; simpl; rewrite E1; try rewrite E2;
     reflexivity).
Qed.

Lemma connect_surfaces_failure_witness :
  exists e w',
    connect (failing_handshake (init "dashboard" 8000) 3
                               (WSServerHandshakeError 403)) =
    Some (Raise e, w')
    /\ surfaced_kind e = kind_of (WSServerHandshakeError 403)
    /\ e = WSServerHandshakeError 403.
Proof.
  apply (connect_surfaces_failure (init "dashboard" 8000) 3
                                  (WSServerHandshakeError 403));
    [reflexivity | reflexivity | reflexivity | discriminate].
Defined.

(** The four kinds are not four classes: a 401 and a 403 rejection are
    logged differently but raised as the same [WSServerHandshakeError], and
    it is the status it carries that tells them apart. *)
Lemma unauthorized_and_forbidden_same_class : ~ failures_distinct_by_class.
Proof.
  intros H.
  eassert (E1 : connect (failing_handshake (init "dashboard" 8000) 3
                                           (WSServerHandshakeError 401))
                = Some (Raise _, _))
    by (vm_compute; reflexivity).
  eassert (E2 : connect (failing_handshake (init "dashboard" 8000) 3
                                           (WSServerHandshakeError 403))
                = Some (Raise _, _))
    by (vm_compute; reflexivity).
  apply (H _ _ _ _ _ _ _ _ E1 E2).
  - discriminate.
  - reflexivity.
Qed.

(** ** Backoff of the reconnection coordinator *)

Lemma sleeps_app (a b : list effect) :
  sleeps (a ++ b) = (sleeps a ++ sleeps b)%list.
Proof. apply flat_map_app. Qed.

Ltac sleeps_norm :=
  repeat rewrite sleeps_app; simpl; repeat rewrite app_nil_r.

(** An attempt of [connect] sleeps nowhere and leaves the base delay. *)
Lemma connect_attempt_quiet (w w' : World) (o : outcome unit) :
  _is_connecting (client w) = false -> _is_connected (client w) = false ->
  quiet_script (script w) ->
  connect w = Some (o, w') ->
  sleeps (trace w') = sleeps (trace w)
  /\ quiet_script (script w')
  /\ _reconnect_delay (client w') = _reconnect_delay (client w).
Proof.
  intros H1 H2 Hq.
  unfold connect, bind at 1. simpl. rewrite H1, H2.
  unfold bind at 1. simpl. unfold bind at 1. simpl.
  unfold try_finally, try_except, connect_try, ws_connect, bind, get,
    _create_session, await_, suspend, bind, get, raise, needs_session,
    connector_for, session_over.
  simpl.
  destruct (_session (client w)) as [[[|]]|] eqn:Es; simpl;
    try (destruct (_connector (client w)) as [[[|]]|]; simpl);
    try rewrite Es; simpl;
    lazymatch goal with
    | |- context [match script w with _ => _ end] =>
      destruct (script w) as [|r s]; simpl; [discriminate|];
        inversion Hq as [|r0 s0 Hr Hs]; subst; rewrite Hr; simpl;
        destruct (result r) as [|f|m]; simpl; [| |discriminate];
        [|destruct f; simpl;
          try (destruct (Z.eqb status 401); simpl;
               [|destruct (Z.eqb status 403); simpl])];
        intros E; inversion E; subst; simpl; sleeps_norm; auto
    | |- _ =>
      (* over a closed session no handshake is made *)
      intros E; inversion E; subst; simpl; sleeps_norm; auto
    end.
Qed.

Lemma reconnection_attempt_quiet (a : Z) (w w' : World) (o : outcome (option unit)) :
  _is_connecting (client w) = false -> _is_connected (client w) = false ->
  quiet_script (script w) ->
  reconnection_attempt a w = Some (o, w') ->
  sleeps (trace w') =
    (sleeps (trace w) ++ [backoff (_reconnect_delay (client w)) a])%list
  /\ quiet_script (script w')
  /\ _reconnect_delay (client w') = _reconnect_delay (client w)
  /\ (o = Return None ->
      _is_connecting (client w') = false /\ _is_connected (client w') = false).
Proof.
  intros H1 H2 Hq.
  unfold reconnection_attempt, try_except, bind, get, emit, await. simpl.
  match goal with
  | |- context [await_ false ?e ?w0] =>
    destruct (await_ false e w0) as [[[u|x] w1]|] eqn:A; [| |discriminate];
      apply await_inv in A; simpl in A;
      destruct A as (r & s & Es & -> & _);
      rewrite Es in Hq; inversion Hq as [|r0 s0 Hr Hs]; subst
  end.
  - (* the sleep returned: the attempt goes on with [connect] *)
    match goal with
    | |- context [connect ?w0] =>
      set (w1 := w0);
      assert (F1 : _is_connecting (client w1) = false)
        by (subst w1; unfold resumed; simpl; rewrite Hr; exact H1);
      assert (F2 : _is_connected (client w1) = false)
        by (subst w1; unfold resumed; simpl; rewrite Hr; exact H2);
      assert (Q1 : quiet_script (script w1)) by exact Hs;
      assert (S1 : sleeps (trace w1) =
                   (sleeps (trace w)
                    ++ [backoff (_reconnect_delay (client w)) a])%list)
        by (subst w1; unfold resumed; simpl; sleeps_norm; reflexivity);
      assert (D1 : _reconnect_delay (client w1) = _reconnect_delay (client w))
        by (subst w1; unfold resumed; simpl; rewrite Hr; reflexivity);
      clearbody w1
    end.
    destruct (connect w1) as [[[u1|e1] w2]|] eqn:C; [| |discriminate];
      destruct (connect_attempt_quiet _ _ _ F1 F2 Q1 C) as (S2 & Q2 & D2);
      destruct (connect_attempt_flags _ _ _ F1 C) as [G1 G2].
    + destruct (_is_connected (client w2)) eqn:Ed; simpl;
        intros E; inversion E; subst; simpl; sleeps_norm;
        rewrite S2, S1, D2, D1; repeat split; auto; try discriminate.
    + destruct (is_Exception e1); simpl;
        intros E; inversion E; subst; simpl; sleeps_norm;
        rewrite S2, S1, D2, D1; repeat split; auto; try discriminate.
      apply (G2 e1 eq_refl).
  - (* the sleep raised *)
    destruct (is_Exception x); simpl; intros E; inversion E; subst;
      unfold resumed; simpl; sleeps_norm; rewrite Hr; simpl;
      repeat split; auto; discriminate.
Qed.

Lemma attempts_quiet (l : list Z) :
  forall (w w' : World) (o : outcome (option unit)),
    _is_connecting (client w) = false -> _is_connected (client w) = false ->
    quiet_script (script w) ->
    for_ l reconnection_attempt w = Some (o, w') ->
    exists k, (k <= List.length l)%nat
      /\ sleeps (trace w') =
         (sleeps (trace w)
          ++ map (backoff (_reconnect_delay (client w))) (firstn k l))%list.
Proof.
  induction l as [|a l IH]; simpl; intros w w' o H1 H2 Hq.
  - intros E; inversion E; subst. exists 0%nat. simpl.
    rewrite app_nil_r. auto.
  - unfold bind.
    destruct (reconnection_attempt a w) as [[[[u|]|e] w1]|] eqn:R;
      [| | |discriminate];
      destruct (reconnection_attempt_quiet _ _ _ _ H1 H2 Hq R)
        as (S1 & Q1 & D1 & F).
    + intros E; inversion E; subst. exists 1%nat. simpl. split; [lia|].
      exact S1.
    + destruct (F eq_refl) as [F1 F2]. intros E.
      destruct (IH _ _ _ F1 F2 Q1 E) as (k & Hk & S2).
      exists (S k). simpl. split; [lia|].
      rewrite S2, S1, D1, <- app_assoc. reflexivity.
    + intros E; inversion E; subst. exists 1%nat. simpl. split; [lia|].
      exact S1.
Qed.

Lemma firstn_seq_le (k : nat) :
  forall n s, (k <= n)%nat -> firstn k (seq s n) = seq s k.
Proof.
  induction k as [|k IH]; intros [|n] s Hk; simpl; try reflexivity; try lia.
  rewrite IH by lia. reflexivity.
Qed.

Lemma firstn_range (lo hi : Z) (k : nat) :
  (k <= Z.to_nat (hi - lo))%nat ->
  firstn k (range lo hi) = range lo (lo + Z.of_nat k).
Proof.
  intros Hk. unfold range. rewrite firstn_map, firstn_seq_le by exact Hk.
  replace (Z.to_nat (lo + Z.of_nat k - lo)) with k by lia. reflexivity.
Qed.

(** C3: in every run of the coordinator undisturbed by other tasks, the
    sleep before attempt n (n = 1, 2, ...) lasts
    min(base_delay * 2^(n-1), 60); with the default base 5 and five failing
    attempts the sleeps are 5, 10, 20, 40, 60, and 5 * 2^(n-1) stays below
    the cap for n < 5 and exceeds it at n = 5. *)
Theorem backoff_delays :
  (forall (w w' : World) (o : outcome unit),
      quiet_script (script w) ->
      _attempt_reconnection w = Some (o, w') ->
      exists k,
        (k <= Z.to_nat (_max_reconnect_attempts (client w)))%nat
        /\ sleeps (trace w') =
           (sleeps (trace w)
            ++ map (fun n => inject_Z
                               (Z.min (_reconnect_delay (client w)
                                       * 2 ^ (n - 1)) 60))
                   (range 1 (1 + Z.of_nat k)))%list)
  /\ option_map (fun r => sleeps (trace (snd r)))
       (_attempt_reconnection (world (init "dashboard" 8000) (all_fail 5)))
     = Some (map inject_Z [5; 10; 20; 40; 60])
  /\ (forall n, 1 <= n < 5 -> 5 * 2 ^ (n - 1) < 60)
  /\ 60 < 5 * 2 ^ (5 - 1).
Proof.
  split; [|split; [vm_compute; reflexivity|split]].
  - intros w w' o Hq. unfold _attempt_reconnection, bind at 1. simpl.
    destruct (_is_connected (client w)) eqn:H2; simpl.
    { intros E; inversion E; subst. exists 0%nat. simpl.
      rewrite app_nil_r. split; [lia|reflexivity]. }
    destruct (_is_connecting (client w)) eqn:H1; simpl.
    { intros E; inversion E; subst. exists 0%nat. simpl.
      rewrite app_nil_r. split; [lia|reflexivity]. }
    unfold bind at 1. simpl. unfold bind at 1.
    match goal with
    | |- context [for_ ?l reconnection_attempt ?w0] =>
      destruct (for_ l reconnection_attempt w0) as [[[r|e] w1]|] eqn:L;
        [| |discriminate];
        (apply attempts_quiet in L; [|exact H1|exact H2|exact Hq]);
        destruct L as (k & Hk & S1); simpl in S1, Hk;
        unfold range in Hk; rewrite length_map, length_seq in Hk;
        rewrite firstn_range in S1 by exact Hk
    end.
    + destruct r; simpl; intros E; inversion E; subst; simpl; sleeps_norm;
        exists k; (split; [lia|exact S1]).
    + intros E; inversion E; subst. exists k. split; [lia|exact S1].
  - intros n Hn.
    assert (C : n = 1 \/ n = 2 \/ n = 3 \/ n = 4) by lia.
    destruct C as [-> | [-> | [-> | ->]]]; reflexivity.
  - reflexivity.
Qed.

Lemma backoff_delays_witness :
  exists w' k,
    _attempt_reconnection
      (world (init "dashboard" 8000)
             [quiet 1 Done; quiet 2 (Raises ClientConnectorError);
              quiet 12 Done; quiet 13 Done]) = Some (Return tt, w')
    /\ (k <= 5)%nat
    /\ sleeps (trace w') =
       map (fun n => inject_Z (Z.min (5 * 2 ^ (n - 1)) 60))
           (range 1 (1 + Z.of_nat k)).
Proof.
  eexists.
  eassert (E : _attempt_reconnection
                 (world (init "dashboard" 8000)
                        [quiet 1 Done; quiet 2 (Raises ClientConnectorError);
                         quiet 12 Done; quiet 13 Done]) = Some (Return tt, _))
    by (vm_compute; reflexivity).
  assert (Hq : quiet_script
                 (script (world (init "dashboard" 8000)
                                [quiet 1 Done;
                                 quiet 2 (Raises ClientConnectorError);
                                 quiet 12 Done; quiet 13 Done])))
    by (repeat constructor).
  destruct (proj1 backoff_delays _ _ _ Hq E) as (k & Hk & S).
  exists k. split; [exact E|]. split; [exact Hk|exact S].
Defined.

(** ** Disconnect *)

Lemma closes_app (a b : list effect) :
  closes (a ++ b) = (closes a ++ closes b)%list.
Proof. apply filter_app. Qed.

Ltac closes_norm :=
  repeat rewrite closes_app; simpl; repeat rewrite app_nil_r.

Lemma cancel_listener_spec (w : World) (a : answer) (s : list reply) :
  script w = (when (task_live (client w)) (quiet 0 a) ++ s)%list ->
  wait_end a = true ->
  exists w',
    cancel_listener w = Some (Return tt, w')
    /\ script w' = s
    /\ closes (trace w') =
       (closes (trace w) ++ when (task_live (client w)) TaskCancel)%list
    /\ client w' =
       (if task_live (client w) then set_task None (client w) else client w).
Proof.
  unfold cancel_listener, task_live, bind at 1, get. simpl.
  destruct (_task (client w)) as [[[|]]|]; simpl; intros Hs Ha;
    try (eexists; repeat split; closes_norm; auto; fail).
  unfold bind, emit, try_except, await, await_, bind, suspend. simpl.
  rewrite Hs. simpl.
  destruct a as [|[]|]; simpl in *; try discriminate;
    eexists; repeat split; simpl; closes_norm; reflexivity.
Qed.

Ltac close_block :=
  unfold bind, try_except, await, await_, bind, suspend, warn_on_error; simpl;
  match goal with Hs : script _ = _ |- _ => rewrite Hs end; simpl;
  match goal with
  | a : answer |- _ =>
    destruct a as [|e|]; simpl in *; try discriminate;
    [|match goal with H : is_Exception e = true |- _ => rewrite H end; simpl];
    eexists; repeat split; simpl; closes_norm; reflexivity
  end.

Lemma drop_websocket_spec (w : World) (a : answer) (s : list reply) :
  script w = (when (ws_open (client w)) (quiet 0 a) ++ s)%list ->
  close_end a = true ->
  exists w',
    drop_websocket w = Some (Return tt, w')
    /\ script w' = s
    /\ closes (trace w') =
       (closes (trace w) ++ when (ws_open (client w)) WsClose)%list
    /\ client w' =
       (if ws_open (client w) then set_websocket None (client w)
        else client w).
Proof.
  unfold drop_websocket, ws_open, bind at 1, get. simpl.
  destruct (_websocket (client w)) as [[[|]]|]; simpl; intros Hs Ha;
    try (eexists; repeat split; closes_norm; auto; fail).
  close_block.
Qed.

Lemma drop_session_spec (w : World) (a : answer) (s : list reply) :
  script w = (when (session_open (client w)) (quiet 0 a) ++ s)%list ->
  close_end a = true ->
  exists w',
    drop_session w = Some (Return tt, w')
    /\ script w' = s
    /\ closes (trace w') =
       (closes (trace w) ++ when (session_open (client w)) SessionClose)%list
    /\ client w' =
       (if session_open (client w) then
          set_session None
            (if returns a then close_connector (client w) else client w)
        else client w).
Proof.
  unfold drop_session, session_open, bind at 1, get. simpl.
  destruct (_session (client w)) as [[[|]]|]; simpl; intros Hs Ha;
    try (eexists; repeat split; closes_norm; auto; fail).
  unfold modify. close_block.
Qed.

Lemma drop_connector_spec (w : World) (a : answer) (s : list reply) :
  script w = (when (connector_open (client w)) (quiet 0 a) ++ s)%list ->
  close_end a = true ->
  exists w',
    drop_connector w = Some (Return tt, w')
    /\ script w' = s
    /\ closes (trace w') =
       (closes (trace w)
        ++ when (connector_open (client w)) ConnectorClose)%list
    /\ client w' =
       (if connector_open (client w) then set_connector None (client w)
        else client w).
Proof.
  unfold drop_connector, connector_open, bind at 1, get. simpl.
  destruct (_connector (client w)) as [[[|]]|]; simpl; intros Hs Ha;
    try (eexists; repeat split; closes_norm; auto; fail).
  close_block.
Qed.

Lemma set_is_connected_same (b : bool) (c : IPCClient) :
  _is_connected c = b -> set_is_connected b c = c.
Proof. destruct c; simpl; intros ->; reflexivity. Qed.

Lemma released_facts (b : bool) (c : IPCClient) :
  owed (released_if b c) = [] /\ _is_connected (released_if b c) = false
  /\ (owed c = [] -> released_if b c = set_is_connected false c).
Proof.
  unfold released_if, owed, task_live, ws_open, session_open, connector_open,
    close_connector.
  destruct c as [h p hb ed ing mx rd ses ws tk cn mt]. simpl.
  destruct b, tk as [[[|]]|], ws as [[[|]]|], ses as [[[|]]|], cn as [[[|]]|];
    simpl; repeat split; try reflexivity; discriminate.
Qed.

Lemma disconnect_run (c : IPCClient) (f : faults) (s : list reply) :
  injected f = true ->
  exists w',
    disconnect (world c (closing_script c f ++ s)) = Some (Return tt, w')
    /\ script w' = s
    /\ closes (trace w') = closing_calls f c
    /\ client w' = released_if (returns (on_session_close f)) c.
Proof.
  unfold injected. intros H.
  apply andb_prop in H. destruct H as [H H4].
  apply andb_prop in H. destruct H as [H H3].
  apply andb_prop in H. destruct H as [H1 H2].
  unfold disconnect, closing_script.
  unfold bind at 1, emit. simpl. unfold bind at 1, modify. simpl.
  unfold bind at 1.
  match goal with
  | |- context [cancel_listener ?w0] =>
    destruct (cancel_listener_spec w0 (on_task_wait f)
                (when (ws_open c) (quiet 0 (on_ws_close f))
                 ++ when (session_open c) (quiet 0 (on_session_close f))
                 ++ when (connector_left f c)
                      (quiet 0 (on_connector_close f))
                 ++ s)%list)
      as (w1 & E1 & S1 & T1 & C1);
      [simpl; unfold task_live; simpl; repeat rewrite <- app_assoc; reflexivity
      |exact H1|]
  end.
  rewrite E1. unfold bind at 1.
  assert (W1 : ws_open (client w1) = ws_open c).
  { rewrite C1. simpl. unfold task_live. simpl.
    destruct (_task c) as [[[|]]|]; reflexivity. }
  destruct (drop_websocket_spec w1 (on_ws_close f)
              (when (session_open c) (quiet 0 (on_session_close f))
               ++ when (connector_left f c) (quiet 0 (on_connector_close f))
               ++ s)%list)
    as (w2 & E2 & S2 & T2 & C2); [rewrite S1, W1; reflexivity|exact H2|].
  rewrite E2. unfold bind at 1.
  assert (W2 : session_open (client w2) = session_open c).
  { rewrite C2, C1. simpl. unfold task_live, ws_open, session_open. simpl.
    destruct (_task c) as [[[|]]|]; simpl;
      destruct (_websocket c) as [[[|]]|]; reflexivity. }
  destruct (drop_session_spec w2 (on_session_close f)
              (when (connector_left f c) (quiet 0 (on_connector_close f))
               ++ s)%list)
    as (w3 & E3 & S3 & T3 & C3); [rewrite S2, W2; reflexivity|exact H3|].
  rewrite E3. unfold bind at 1.
  assert (W3 : connector_open (client w3) = connector_left f c).
  { rewrite C3, C2, C1. simpl.
    unfold connector_left, task_live, ws_open, session_open, connector_open,
      close_connector.
    destruct (returns (on_session_close f)).
    all: destruct c as [h p hb ed ing mx rd ses ws tk cn mt]; simpl.
    all: destruct tk as [[[|]]|], ws as [[[|]]|], ses as [[[|]]|],
           cn as [[[|]]|]; reflexivity. }
  destruct (drop_connector_spec w3 (on_connector_close f) s)
    as (w4 & E4 & S4 & T4 & C4); [rewrite S3, W3; reflexivity|exact H4|].
  rewrite E4. simpl.
  eexists. repeat split; simpl.
  - exact S4.
  - closes_norm. rewrite T4, T3, T2, T1, W3, W2, W1. simpl.
    unfold closing_calls. repeat rewrite <- app_assoc. reflexivity.
  - rewrite C4, C3, C2, C1. reflexivity.
Qed.

(** C9: whatever way the wait on the cancelled listener ends (return,
    CancelledError, TimeoutError) and whether each close call returns or
    raises an error, [disconnect] returns after a closing call for every
    resource the client held open - task cancel, websocket close, session
    close, and connector close unless the close of the session has returned
    and so closed the connector already - each under its own guard; it
    leaves no resource open and the status flag unset, the handles dropped
    except that of a connector the session's close has closed. Called
    again, it makes no closing call, awaits nothing and leaves the client as
    it is. *)
Theorem disconnect_closes_all (c : IPCClient) (f : faults) :
  injected f = true ->
  exists w',
    disconnect (world c (closing_script c f)) = Some (Return tt, w')
    /\ closes (trace w') = closing_calls f c
    /\ client w' = released_if (returns (on_session_close f)) c
    /\ owed (client w') = []
    /\ _is_connected (client w') = false
    /\ forall s, exists w'',
         disconnect (world (client w') s) = Some (Return tt, w'')
         /\ script w'' = s
         /\ closes (trace w'') = []
         /\ client w'' = client w'.
Proof.
  intros H.
  destruct (disconnect_run c f [] H) as (w' & E & S & T & C).
  rewrite app_nil_r in E.
  set (b := returns (on_session_close f)) in *.
  destruct (released_facts b c) as (R1 & R2 & _).
  exists w'. rewrite C. repeat split; auto.
  intros s.
  destruct (disconnect_run (released_if b c) f s H)
    as (w'' & E' & S' & T' & C').
  destruct (released_facts b (released_if b c)) as (_ & _ & R3).
  assert (N : task_live (released_if b c) = false
              /\ ws_open (released_if b c) = false
              /\ session_open (released_if b c) = false
              /\ connector_open (released_if b c) = false).
  { unfold owed in R1.
    destruct (task_live (released_if b c)); [discriminate|].
    destruct (ws_open (released_if b c)); [discriminate|].
    destruct (session_open (released_if b c)); [discriminate|].
    destruct (connector_open (released_if b c)); [discriminate|].
    repeat split. }
  destruct N as (N1 & N2 & N3 & N4).
  unfold closing_script, closing_calls, connector_left in E', T'.
  rewrite N1, N2, N3, N4 in E', T'. simpl in E', T'.
  exists w''. repeat split; auto.
  fold b in C'. rewrite C', (R3 R1). apply set_is_connected_same. exact R2.
Qed.

Lemma disconnect_closes_all_witness :
  exists w',
    disconnect
      (world (install 7 (ensure_session (init "dashboard" 8000)))
             [quiet 0 (Raises TimeoutError);
              quiet 0 (Raises ConnectionResetError);
              quiet 0 Done])
    = Some (Return tt, w')
    /\ closes (trace w') = [TaskCancel; WsClose; SessionClose]
    /\ _connector (client w') = Some closed_connector
    /\ owed (client w') = [].
Proof.
  destruct (disconnect_closes_all
              (install 7 (ensure_session (init "dashboard" 8000)))
              {| on_task_wait := Raises TimeoutError;
                 on_ws_close := Raises ConnectionResetError;
                 on_session_close := Done;
                 on_connector_close := Raises RuntimeError |}
              eq_refl) as (w' & E & T & C & O & _).
  exists w'. split; [exact E|]. split; [exact T|].
  split; [rewrite C; reflexivity|exact O].
Defined.

(** ** Message listener *)

Lemma dispatched_app (a b : list effect) :
  dispatched (a ++ b) = dispatched a + dispatched b.
Proof.
  unfold dispatched. rewrite filter_app, length_app. lia.
Qed.

Lemma rescheduled_app (a b : list effect) :
  rescheduled (a ++ b) = rescheduled a + rescheduled b.
Proof.
  unfold rescheduled. rewrite filter_app, length_app. lia.
Qed.

Lemma count_app (p : reply -> bool) (a b : list reply) :
  count p (a ++ b) = count p a + count p b.
Proof.
  unfold count. rewrite filter_app, length_app. lia.
Qed.

Lemma last_stamp_app (a b : list reply) (d : option timestamp) :
  last_stamp (a ++ b) d = last_stamp b (last_stamp a d).
Proof. apply fold_left_app. Qed.

Lemma interfere_app (own : bool) (a b : list action) (c : IPCClient) :
  interfere own (a ++ b) c = interfere own b (interfere own a c).
Proof. apply fold_left_app. Qed.

Lemma interference_app (a b : list reply) :
  interference (a ++ b) = (interference a ++ interference b)%list.
Proof. unfold interference. rewrite map_app. apply concat_app. Qed.

(** The flags and handles evolve under interference independently of the
    metrics, and the listener's counters are not touched by it. *)
Lemma standing_connected (c1 c2 : IPCClient) :
  standing c1 = standing c2 -> _is_connected c1 = _is_connected c2.
Proof. unfold standing. intros H. injection H. auto. Qed.

Lemma apply_action_standing (a : action) (c1 c2 : IPCClient) :
  standing c1 = standing c2 ->
  standing (apply_action false a c1) = standing (apply_action false a c2).
Proof.
  destruct c1 as [h1 p1 hb1 ed1 ing1 mx1 rd1 ses1 ws1 tk1 cn1 mt1],
           c2 as [h2 p2 hb2 ed2 ing2 mx2 rd2 ses2 ws2 tk2 cn2 mt2].
  unfold standing. simpl. intros H. injection H as -> -> -> -> -> ->.
  destruct ses2 as [[[|]]|], ws2 as [[[|]]|], tk2 as [[[|]]|],
           cn2 as [[[|]]|], ed2, ing2;
    destruct a as [| | | |[|] t|]; reflexivity.
Qed.

Lemma interfere_standing (l : list action) :
  forall c1 c2, standing c1 = standing c2 ->
    standing (interfere false l c1) = standing (interfere false l c2).
Proof.
  unfold interfere. induction l as [|a l IH]; simpl; intros c1 c2 H; auto.
  apply IH, apply_action_standing, H.
Qed.

Lemma apply_action_counters (own : bool) (a : action) (c : IPCClient) :
  message_count (_metrics (apply_action own a c)) = message_count (_metrics c)
  /\ last_heartbeat (_metrics (apply_action own a c))
     = last_heartbeat (_metrics c).
Proof.
  by_cases_on c a; simpl; auto; destruct own; simpl; auto.
Qed.

Lemma interfere_counters (own : bool) (l : list action) :
  forall c,
    message_count (_metrics (interfere own l c)) = message_count (_metrics c)
    /\ last_heartbeat (_metrics (interfere own l c))
       = last_heartbeat (_metrics c).
Proof.
  unfold interfere. induction l as [|a l IH]; simpl; intros c; auto.
  destruct (IH (apply_action own a c)) as [I1 I2].
  destruct (apply_action_counters own a c) as [A1 A2].
  rewrite I1, I2, A1, A2. auto.
Qed.

Ltac trace_count :=
  unfold dispatched, rescheduled, count;
  repeat rewrite filter_app; repeat rewrite length_app; simpl; try lia.

Lemma listen_body_inv (w w1 : World) (o : outcome ctl) :
  listen_body w = Some (o, w1) ->
  exists k used,
    o = Return k
    /\ script w = (used ++ script w1)%list
    /\ (used = [] -> k = Break)
    /\ standing (client w1)
       = standing (interfere false (interference used) (client w))
    /\ message_count (_metrics (client w1))
       = message_count (_metrics (client w)) + count is_frame used
    /\ last_heartbeat (_metrics (client w1))
       = last_stamp used (last_heartbeat (_metrics (client w)))
    /\ dispatched (trace w1) = dispatched (trace w) + count decodes used
    /\ rescheduled (trace w1) = rescheduled (trace w).
Proof.
  unfold listen_body, try_except, bind at 1, get. simpl.
  destruct (_websocket (client w)) as [ws|] eqn:W; simpl.
  2:{ intros E; inversion E; subst. exists Break, []. simpl.
      repeat split; auto; trace_count. }
  unfold bind at 1, await_frame, bind at 1, suspend.
  destruct (script w) as [|r s] eqn:S; simpl; [discriminate|].
  destruct (interfere_counters false (during r) (client w)) as [K1 K2].
  assert (I : interference [r] = during r)
    by (unfold interference; simpl; apply app_nil_r).
  destruct (result r) as [|e|m] eqn:R; simpl; [discriminate| |].
  - (* the wait raised *)
    destruct e; unfold bind, emit, get, ret; simpl;
      try destruct (truthy (is_connected (interfere false (during r) (client w))));
      simpl; intros E; inversion E; subst; simpl;
      eexists; exists [r]; rewrite I;
      (repeat split; try discriminate; auto;
       unfold last_stamp; trace_count; unfold is_frame, decodes; simpl;
       rewrite ?R; simpl; auto; try lia).
  - (* a frame arrived *)
    unfold bind, emit, modify, time_time, get. simpl.
    destruct (msg_type m) eqn:T; simpl;
      try destruct (msg_json m) eqn:J; simpl;
      try destruct (_websocket (interfere false (during r) (client w)));
      simpl; intros E; inversion E; subst; simpl;
      eexists; exists [r]; rewrite I;
      (repeat split; try discriminate; auto;
       unfold last_stamp; trace_count; unfold is_frame, decodes; simpl;
       rewrite ?R, ?T, ?J; simpl; rewrite ?K1; auto; try lia).
Qed.

Lemma listen_loop_inv (n : nat) :
  forall (w w1 : World) (o : outcome unit),
    while_ n _is_connected listen_body w = Some (o, w1) ->
    o = Return tt
    /\ exists used,
        script w = (used ++ script w1)%list
        /\ standing (client w1)
           = standing (interfere false (interference used) (client w))
        /\ message_count (_metrics (client w1))
           = message_count (_metrics (client w)) + count is_frame used
        /\ last_heartbeat (_metrics (client w1))
           = last_stamp used (last_heartbeat (_metrics (client w)))
        /\ dispatched (trace w1) = dispatched (trace w) + count decodes used
        /\ rescheduled (trace w1) = rescheduled (trace w).
Proof.
  assert (Z0 : forall w : World,
             Some (Return tt, w) = Some (Return tt, w) ->
             exists used,
               script w = (used ++ script w)%list
               /\ standing (client w)
                  = standing (interfere false (interference used) (client w))
               /\ message_count (_metrics (client w))
                  = message_count (_metrics (client w)) + count is_frame used
               /\ last_heartbeat (_metrics (client w))
                  = last_stamp used (last_heartbeat (_metrics (client w)))
               /\ dispatched (trace w) = dispatched (trace w) + count decodes used
               /\ rescheduled (trace w) = rescheduled (trace w)).
  { intros w _. exists []. unfold count. simpl. repeat split; auto; lia. }
  induction n as [|n IH]; simpl; intros w w1 o;
    destruct (_is_connected (client w)) eqn:C; try discriminate;
    try (intros E; inversion E; subst; split; [reflexivity|];
         apply Z0; reflexivity).
  unfold bind.
  destruct (listen_body w) as [[[k|e] w0]|] eqn:B; try discriminate;
    apply listen_body_inv in B;
    destruct B as (k' & u1 & Ek & S1 & _ & F1 & M1 & H1 & D1 & R1);
    inversion Ek; subst k'.
  destruct k.
  - intros E. destruct (IH _ _ _ E) as (-> & u2 & S2 & F2 & M2 & H2 & D2 & R2).
    split; [reflexivity|]. exists (u1 ++ u2)%list.
    rewrite interference_app, interfere_app, count_app, count_app,
      last_stamp_app, <- app_assoc, <- S2.
    repeat split; try congruence; try lia.
    rewrite F2. apply interfere_standing. exact F1.
  - intros E. inversion E; subst. split; [reflexivity|].
    exists u1. repeat split; auto.
Qed.

Lemma listen_run (w w' : World) (o : outcome unit) :
  _listen w = Some (o, w') ->
  o = Return tt
  /\ _is_connected (client w') = false
  /\ exists used,
      script w = (used ++ script w')%list
      /\ message_count (_metrics (client w'))
         = message_count (_metrics (client w)) + count is_frame used
      /\ last_heartbeat (_metrics (client w'))
         = last_stamp used (last_heartbeat (_metrics (client w)))
      /\ dispatched (trace w') = dispatched (trace w) + count decodes used
      /\ rescheduled (trace w')
         = rescheduled (trace w)
           + (if _is_connected
                   (interfere false (interference used) (client w))
              then 1 else 0).
Proof.
  unfold _listen. unfold bind at 1. unfold emit at 1. cbv beta iota.
  unfold bind at 1. unfold while at 1.
  match goal with
  | |- context [while_ ?n _is_connected listen_body ?w0] =>
    destruct (while_ n _is_connected listen_body w0) as [[[u|e] w1]|] eqn:L;
      try discriminate;
      apply listen_loop_inv in L;
      destruct L as (Eo & used & S1 & F1 & M1 & H1 & D1 & R1);
      try discriminate Eo
  end.
  simpl in *. apply standing_connected in F1.
  unfold bind, get, modify, emit. simpl.
  rewrite dispatched_app in D1. rewrite rescheduled_app in R1.
  destruct (_is_connected (client w1)) eqn:C; simpl;
    intros E; inversion E; subst; simpl;
    (split; [reflexivity|]; split; [auto|]; exists used; rewrite <- F1;
     repeat split; auto; trace_count;
     unfold dispatched, rescheduled, count in *; simpl in *; lia).
Qed.

Lemma decodes_le_frames (s : list reply) :
  count decodes s <= count is_frame s.
Proof.
  unfold count. induction s as [|r s IH]; simpl; [lia|].
  unfold decodes at 1, is_frame at 1.
  destruct (result r) as [| |m]; simpl; try lia.
  destruct (msg_type m); simpl; try lia.
  destruct (msg_json m); simpl; lia.
Qed.

(** C2 (amended): in every run of the listener, the message counter grows
    by the number M of frames received - text frames that fail to decode,
    error and close frames included - while the K frames dispatched are the
    text frames that decode, K <= M; the last-heartbeat stamp is the clock
    at the last frame received. *)
Theorem listener_counts_frames (c : IPCClient) (s : list reply)
        (o : outcome unit) (w' : World) :
  _listen (world c s) = Some (o, w') ->
  exists used,
    s = (used ++ script w')%list
    /\ message_count (_metrics (client w'))
       = message_count (_metrics c) + count is_frame used
    /\ last_heartbeat (_metrics (client w'))
       = last_stamp used (last_heartbeat (_metrics c))
    /\ dispatched (trace w') = count decodes used
    /\ count decodes used <= count is_frame used.
Proof.
  intros E. apply listen_run in E.
  destruct E as (_ & _ & used & S & M & H & D & _). simpl in *.
  exists used. repeat split; auto using decodes_le_frames.
Qed.

Lemma listener_counts_frames_witness :
  exists w' used,
    _listen (world connected_client undecodable_then_close)
    = Some (Return tt, w')
    /\ undecodable_then_close = (used ++ script w')%list
    /\ message_count (_metrics (client w')) = 0 + count is_frame used.
Proof.
  eexists.
  eassert (E : _listen (world connected_client undecodable_then_close)
               = Some (Return tt, _)) by (vm_compute; reflexivity).
  destruct (listener_counts_frames _ _ _ _ E) as (used & S & M & _).
  exists used. split; [exact E|]. split; [exact S|exact M].
Defined.

(** Two frames are received, none is dispatched, and the counter is 2. *)
Lemma counter_counts_undecodable_frames : ~ counter_counts_dispatches.
Proof.
  intros H.
  eassert (E : _listen (world connected_client undecodable_then_close)
               = Some (Return tt, _)) by (vm_compute; reflexivity).
  destruct (H _ _ _ _ E) as [Hc _].
  vm_compute in Hc. discriminate Hc.
Qed.

(** The listener leaves its loop at a cancellation. *)
Lemma listen_body_used (w w1 : World) (o : outcome ctl) :
  listen_body w = Some (o, w1) ->
  exists used,
    script w = (used ++ script w1)%list
    /\ (List.length used <= 1)%nat
    /\ (o = Return Continue ->
        forall r, In r used -> result r <> Raises CancelledError).
Proof.
  unfold listen_body, try_except, bind at 1, get. simpl.
  destruct (_websocket (client w)) as [ws|] eqn:W; simpl.
  2:{ intros E; inversion E; subst. exists []. simpl.
      split; [reflexivity|]. split; [lia|]. intros _ r []. }
  unfold bind at 1, await_frame, bind at 1, suspend.
  destruct (script w) as [|r s] eqn:S; simpl; [discriminate|].
  destruct (result r) as [|e|m] eqn:R; simpl; [discriminate| |].
  - destruct e; unfold bind, emit, get, ret; simpl;
      try destruct (truthy (is_connected (interfere false (during r) (client w))));
      simpl; intros E; inversion E; subst; simpl;
      exists [r]; (split; [reflexivity|]; split; [simpl; lia|]);
      intros Hk r0 [<-|[]]; first [discriminate Hk | rewrite R; discriminate].
  - unfold bind, emit, modify, time_time, get. simpl.
    destruct (msg_type m) eqn:T; simpl;
      try destruct (msg_json m) eqn:J; simpl;
      try destruct (_websocket (interfere false (during r) (client w)));
      simpl; intros E; inversion E; subst; simpl;
      exists [r]; (split; [reflexivity|]; split; [simpl; lia|]);
      intros Hk r0 [<-|[]]; rewrite R; discriminate.
Qed.

Lemma short_ends (u : list reply) :
  (List.length u <= 1)%nat -> ends_at_cancellation u.
Proof.
  intros L u1 r u2 -> _. rewrite length_app in L. simpl in L.
  destruct u2; [reflexivity|simpl in L; lia].
Qed.

Lemma ends_at_cancellation_app (u1 u2 : list reply) :
  (List.length u1 <= 1)%nat ->
  (forall r, In r u1 -> result r <> Raises CancelledError) ->
  ends_at_cancellation u2 -> ends_at_cancellation (u1 ++ u2).
Proof.
  intros L N E a r b H C.
  destruct u1 as [|x [|y u1]]; simpl in *; [eapply E; eauto| |lia].
  destruct a as [|x' a]; simpl in H; injection H as Hx H.
  - exfalso. apply (N x); [left; reflexivity|]. rewrite Hx. exact C.
  - eapply E; eauto.
Qed.

Lemma listen_loop_used (n : nat) :
  forall (w w1 : World) (o : outcome unit),
    while_ n _is_connected listen_body w = Some (o, w1) ->
    exists used,
      script w = (used ++ script w1)%list /\ ends_at_cancellation used.
Proof.
  induction n as [|n IH]; simpl; intros w w1 o;
    destruct (_is_connected (client w)) eqn:C; try discriminate;
    try (intros E; inversion E; subst; exists []; split; [reflexivity|];
         apply short_ends; simpl; lia).
  unfold bind.
  destruct (listen_body w) as [[[k|e] w0]|] eqn:B; try discriminate;
    apply listen_body_used in B; destruct B as (u1 & S1 & L1 & N1).
  - destruct k.
    + intros E. destruct (IH _ _ _ E) as (u2 & S2 & E2).
      exists (u1 ++ u2)%list.
      split; [rewrite <- app_assoc, <- S2; exact S1|].
      apply ends_at_cancellation_app; auto.
    + intros E; inversion E; subst. exists u1.
      split; [exact S1|apply short_ends; exact L1].
  - intros E; inversion E; subst. exists u1.
    split; [exact S1|apply short_ends; exact L1].
Qed.

Lemma listen_used (w w' : World) (o : outcome unit) :
  _listen w = Some (o, w') ->
  exists used,
    script w = (used ++ script w')%list /\ ends_at_cancellation used.
Proof.
  unfold _listen. unfold bind at 1. unfold emit at 1. cbv beta iota.
  unfold bind at 1. unfold while at 1.
  match goal with
  | |- context [while_ ?n _is_connected listen_body ?w0] =>
    destruct (while_ n _is_connected listen_body w0) as [[[u|e] w1]|] eqn:L;
      try discriminate;
      apply listen_loop_used in L; destruct L as (used & S1 & E1)
  end.
  - simpl in *. unfold bind, get, modify, emit. simpl.
    destruct (_is_connected (client w1)); simpl;
      intros E; inversion E; subst; simpl; exists used; auto.
  - simpl in *. intros E; inversion E; subst. exists used; auto.
Qed.

(** What the listener does when it returns. *)
Lemma listen_exit (c : IPCClient) (s : list reply) (o : outcome unit)
      (w' : World) :
  _listen (world c s) = Some (o, w') ->
  o = Return tt
  /\ _is_connected (client w') = false
  /\ exists used,
      s = (used ++ script w')%list
      /\ ends_at_cancellation used
      /\ rescheduled (trace w')
         = if _is_connected (interfere false (interference used) c)
           then 1 else 0.
Proof.
  intros E. destruct (listen_used _ _ _ E) as (u & Su & Eu).
  apply listen_run in E.
  destruct E as (Eo & F & used & S & _ & _ & _ & R). simpl in *.
  assert (u = used) by (apply (app_inv_tail (script w')); congruence).
  subst u. repeat split; auto. exists used. repeat split; auto.
Qed.

(** ** Send path: reconnect and retry *)

Lemma transmissions_app (a b : list effect) :
  transmissions (a ++ b) = (transmissions a + transmissions b)%nat.
Proof. unfold transmissions. rewrite filter_app, length_app. reflexivity. Qed.

Lemma silent_ret {A} (a : A) : silent (ret a).
Proof. intros w o w' E. inversion E; reflexivity. Qed.

Lemma silent_raise {A} (e : exn) : silent (@raise A e).
Proof. intros w o w' E. inversion E; reflexivity. Qed.

Lemma silent_get : silent get.
Proof. intros w o w' E. inversion E; reflexivity. Qed.

Lemma silent_time : silent time_time.
Proof. intros w o w' E. inversion E; reflexivity. Qed.

Lemma silent_modify (f : IPCClient -> IPCClient) : silent (modify f).
Proof. intros w o w' E. inversion E; reflexivity. Qed.

Lemma silent_emit (e : effect) : is_transmission e = false -> silent (emit e).
Proof.
  intros H w o w' E. inversion E; subst; simpl.
  rewrite transmissions_app. unfold transmissions at 2. simpl. rewrite H.
  simpl. lia.
Qed.

Lemma silent_bind {A B} (m : Coro A) (f : A -> Coro B) :
  silent m -> (forall a, silent (f a)) -> silent (bind m f).
Proof.
  intros Hm Hf w o w'. unfold bind.
  destruct (m w) as [[[a|e] w1]|] eqn:M; try discriminate.
  - intros E. rewrite (Hf a _ _ _ E). apply (Hm _ _ _ M).
  - intros E; inversion E; subst. apply (Hm _ _ _ M).
Qed.

Lemma silent_await (own : bool) (e : effect) :
  is_transmission e = false -> silent (await_ own e).
Proof.
  intros H w o w' E. apply await_inv in E.
  destruct E as (r & s & _ & -> & _). simpl.
  rewrite transmissions_app. unfold transmissions at 2. simpl. rewrite H.
  simpl. lia.
Qed.

Lemma silent_try_except {A} (body : Coro A) (h : exn -> option (Coro A)) :
  silent body -> (forall e k, h e = Some k -> silent k) ->
  silent (try_except body h).
Proof.
  intros Hb Hh w o w'. unfold try_except.
  destruct (body w) as [[[a|e] w1]|] eqn:M; try discriminate.
  - intros E; inversion E; subst. apply (Hb _ _ _ M).
  - destruct (h e) as [k|] eqn:K.
    + intros E. rewrite (Hh _ _ K _ _ _ E). apply (Hb _ _ _ M).
    + intros E; inversion E; subst. apply (Hb _ _ _ M).
Qed.

Lemma silent_try_finally {A} (body : Coro A) (fin : Coro unit) :
  silent body -> silent fin -> silent (try_finally body fin).
Proof.
  intros Hb Hf w o w'. unfold try_finally.
  destruct (body w) as [[o1 w1]|] eqn:M; try discriminate.
  destruct (fin w1) as [[[u|e] w2]|] eqn:F; try discriminate;
    intros E; inversion E; subst;
    rewrite (Hf _ _ _ F); apply (Hb _ _ _ M).
Qed.

Lemma silent_while (cond : IPCClient -> bool) (body : Coro ctl) :
  silent body -> silent (while cond body).
Proof.
  intros Hb.
  assert (L : forall n, silent (while_ n cond body)).
  { induction n as [|n IH]; intros w o w'; simpl;
      destruct (cond (client w)); try discriminate;
      try (intros E; inversion E; reflexivity).
    apply silent_bind; [exact Hb|].
    intros [|]; [exact IH|apply silent_ret]. }
  intros w o w'. unfold while. apply L.
Qed.

Lemma silent_for {A R} (l : list A) (body : A -> Coro (option R)) :
  (forall a, silent (body a)) -> silent (for_ l body).
Proof.
  intros Hb. induction l as [|a l IH]; simpl; [apply silent_ret|].
  apply silent_bind; [apply Hb|].
  intros [x|]; [apply silent_ret|exact IH].
Qed.

Ltac silent_step :=
  match goal with
  | |- silent (bind _ _) => apply silent_bind; [|intro]
  | |- silent (ret _) => apply silent_ret
  | |- silent (raise _) => apply silent_raise
  | |- silent get => apply silent_get
  | |- silent time_time => apply silent_time
  | |- silent (modify _) => apply silent_modify
  | |- silent (emit _) => apply silent_emit; reflexivity
  | |- silent (await_ _ _) => apply silent_await; reflexivity
  | |- silent (await _) => apply silent_await; reflexivity
  | |- silent (try_finally _ _) => apply silent_try_finally
  | |- silent (while _ _) => apply silent_while
  | |- silent (for_ _ _) => apply silent_for; intro
  | |- silent (if ?b then _ else _) => destruct b
  | |- silent (match ?x with _ => _ end) => destruct x
  end.

Lemma silent_connect : silent connect.
Proof.
  unfold connect. repeat silent_step.
  apply silent_try_except.
  - unfold connect_try, _create_session, ws_connect. repeat silent_step.
  - intros e k. unfold connect_handlers.
    destruct e; simpl; intros K; inversion K; subst; repeat silent_step.
Qed.

Lemma silent_reconnection_attempt (a : Z) : silent (reconnection_attempt a).
Proof.
  unfold reconnection_attempt. apply silent_try_except.
  - repeat silent_step. apply silent_connect.
  - intros e k. destruct (is_Exception e); intros K; inversion K; subst.
    repeat silent_step.
Qed.

Lemma silent_attempt_reconnection : silent _attempt_reconnection.
Proof.
  unfold _attempt_reconnection. repeat silent_step.
  apply silent_reconnection_attempt.
Qed.

Lemma silent_sends {A} (m : Coro A) : silent m -> sends_at_most 0 m.
Proof. intros H w o w' E. rewrite (H _ _ _ E). lia. Qed.

Lemma sends_weaken {A} (n n' : nat) (m : Coro A) :
  (n <= n')%nat -> sends_at_most n m -> sends_at_most n' m.
Proof. intros Hn H w o w' E. specialize (H _ _ _ E). lia. Qed.

Lemma sends_bind {A B} (a b : nat) (m : Coro A) (f : A -> Coro B) :
  sends_at_most a m -> (forall x, sends_at_most b (f x)) ->
  sends_at_most (a + b) (bind m f).
Proof.
  intros Hm Hf w o w'. unfold bind.
  destruct (m w) as [[[x|e] w1]|] eqn:M; try discriminate.
  - intros E. specialize (Hf x _ _ _ E). specialize (Hm _ _ _ M). lia.
  - intros E; inversion E; subst. specialize (Hm _ _ _ M). lia.
Qed.

Lemma sends_try_except {A} (a b : nat) (body : Coro A)
      (h : exn -> option (Coro A)) :
  sends_at_most a body -> (forall e k, h e = Some k -> sends_at_most b k) ->
  sends_at_most (a + b) (try_except body h).
Proof.
  intros Hb Hh w o w'. unfold try_except.
  destruct (body w) as [[[x|e] w1]|] eqn:M; try discriminate.
  - intros E; inversion E; subst. specialize (Hb _ _ _ M). lia.
  - destruct (h e) as [k|] eqn:K.
    + intros E. specialize (Hh _ _ K _ _ _ E). specialize (Hb _ _ _ M). lia.
    + intros E; inversion E; subst. specialize (Hb _ _ _ M). lia.
Qed.

Lemma sends_for {A R} (n : nat) (l : list A) (body : A -> Coro (option R)) :
  (forall a, sends_at_most n (body a)) ->
  sends_at_most (List.length l * n) (for_ l body).
Proof.
  intros Hb. induction l as [|a l IH]; simpl.
  - apply silent_sends, silent_ret.
  - apply sends_bind; [apply Hb|].
    intros [x|]; [|exact IH].
    eapply sends_weaken; [|apply silent_sends, silent_ret]. lia.
Qed.

Lemma sends_ws_send_json (data : value) : sends_at_most 1 (ws_send_json data).
Proof.
  intros w o w'. unfold ws_send_json, bind, get. simpl.
  destruct (_websocket (client w)).
  - intros E. apply await_inv in E. destruct E as (r & s & _ & -> & _).
    simpl. rewrite transmissions_app. unfold transmissions at 2. simpl. lia.
  - intros E; inversion E; subst. lia.
Qed.

Lemma sends_retry_once (data : value) (retry : Z) :
  sends_at_most 1 (retry_once data retry).
Proof.
  unfold retry_once.
  change 1%nat with ((0 + (0 + (0 + (1 + 0)))) + 0)%nat.
  apply sends_try_except.
  - apply sends_bind; [apply silent_sends, silent_attempt_reconnection|].
    intros _. apply sends_bind; [apply silent_sends, silent_get|].
    intros c. destruct (truthy (is_connected c)).
    + apply sends_bind; [apply silent_sends; repeat silent_step|].
      intros _. apply sends_bind; [apply sends_ws_send_json|].
      intros _. apply silent_sends. repeat silent_step.
    + eapply sends_weaken; [|apply silent_sends, silent_ret]. lia.
  - intros e k. destruct (is_Exception e); intros K; inversion K; subst.
    apply silent_sends. repeat silent_step.
Qed.

Lemma absorbs_retry_once (data : value) (retry : Z) :
  absorbs_errors (retry_once data retry).
Proof.
  intros w o w'. unfold retry_once, try_except.
  match goal with
  | |- match ?b w with _ => _ end = _ -> _ =>
    destruct (b w) as [[[x|e] w1]|]; try discriminate
  end.
  - intros E; inversion E; subst. left. eauto.
  - destruct (is_Exception e) eqn:X; intros E; inversion E; subst.
    + left. eauto.
    + right. eauto.
Qed.

Lemma absorbs_for {A R} (l : list A) (body : A -> Coro (option R)) :
  (forall a, absorbs_errors (body a)) -> absorbs_errors (for_ l body).
Proof.
  intros Hb. induction l as [|a l IH]; simpl; intros w o w'.
  - intros E; inversion E; subst. left. eauto.
  - unfold bind. destruct (body a w) as [[[[x|]|e] w1]|] eqn:B;
      try discriminate.
    + intros E; inversion E; subst. left. eauto.
    + apply IH.
    + intros E; inversion E; subst.
      destruct (Hb _ _ _ _ B) as [[y Hy]|(e0 & He & Hx)]; [discriminate|].
      inversion He; subst. right. eauto.
Qed.

Lemma sends_handle_reconnect (data : value) :
  sends_at_most 2 (_handle_reconnect_and_retry data 2).
Proof.
  unfold _handle_reconnect_and_retry.
  change 2%nat with (List.length (range 0 2) * 1 + 0)%nat.
  apply sends_bind; [apply sends_for, sends_retry_once|].
  intros [b|]; apply silent_sends; repeat silent_step.
Qed.

Lemma absorbs_handle_reconnect (data : value) :
  absorbs_errors (_handle_reconnect_and_retry data 2).
Proof.
  intros w o w'. unfold _handle_reconnect_and_retry, bind at 1.
  destruct (for_ (range 0 2) (retry_once data) w) as [[[x|e] w1]|] eqn:F;
    try discriminate.
  - destruct x; intros E; inversion E; subst; left; eauto.
  - intros E; inversion E; subst.
    destruct (absorbs_for _ _ (absorbs_retry_once data) _ _ _ F)
      as [[y Hy]|(e0 & He & Hx)]; [discriminate|].
    inversion He; subst. right. eauto.
Qed.

Lemma connected_has_websocket (c : IPCClient) :
  truthy (is_connected c) = true -> exists ws, _websocket c = Some ws.
Proof.
  unfold is_connected. destruct (_is_connected c); simpl; [|discriminate].
  destruct (_websocket c); simpl; [eauto|discriminate].
Qed.

Lemma send_after_reset (data : value) (c : IPCClient) (r : reply)
      (s : list reply) :
  is_dict data = true -> truthy (is_connected c) = true ->
  result r = Raises ConnectionResetError ->
  send data (world c (r :: s))
  = _handle_reconnect_and_retry data 2 (after_reset data c r s).
Proof.
  intros Hd Hc Hr. unfold send. rewrite Hd. simpl.
  unfold bind at 1, get. simpl. rewrite Hc. simpl.
  destruct (connected_has_websocket c Hc) as [ws Hw].
  unfold try_except, bind at 1, ws_send_json, bind at 1, get. simpl.
  rewrite Hw. unfold await, await_, bind, suspend. simpl. rewrite Hr. simpl.
  reflexivity.
Qed.

(** C7 (amended): after a reset, when the coordinator leaves the client
    connected, [send] sleeps 0.5 s and retransmits once; if that
    retransmission goes through, [send] returns [True] with exactly one
    retransmission made. A cycle fails when the coordinator leaves the
    client disconnected - nothing is then retransmitted - or when the
    retransmission raises an error. After a failed cycle the cycle is run
    once more, from the state the first one left; a cycle that succeeds ends
    [send] with its answer, and after two failed cycles [send] logs the
    failure and returns [False]. In every run the retry loop makes at most 2
    retransmissions, and [send] returns a boolean (or is cancelled). *)
Theorem send_retries_after_reset :
  (forall data c r s w1 r1 r2 s2,
      is_dict data = true -> truthy (is_connected c) = true ->
      result r = Raises ConnectionResetError ->
      _attempt_reconnection (after_reset data c r s) = Some (Return tt, w1) ->
      truthy (is_connected (client w1)) = true ->
      script w1 = r1 :: r2 :: s2 ->
      during r1 = [] -> result r1 = Done -> result r2 = Done ->
      exists w',
        send data (world c (r :: s)) = Some (Return true, w')
        /\ trace w' = (trace w1
                       ++ [Sleep (1 # 2); SendJson data;
                           Log DEBUG "Sent message after reconnection"])%list
        /\ transmissions (trace w') = 2%nat)
  /\ (forall data k w wa,
         _attempt_reconnection w = Some (Return tt, wa) ->
         (truthy (is_connected (client wa)) = false ->
          retry_once data k w = Some (Return None, wa))
         /\ (forall r1 r2 s2 e,
                truthy (is_connected (client wa)) = true ->
                script wa = r1 :: r2 :: s2 ->
                during r1 = [] -> result r1 = Done ->
                result r2 = Raises e -> is_Exception e = true ->
                exists w',
                  retry_once data k w = Some (Return None, w')
                  /\ script w' = s2
                  /\ trace w' = (trace wa
                                 ++ [Sleep (1 # 2); SendJson data;
                                     Log ERROR "Retry failed"])%list))
  /\ (forall data c r s,
         is_dict data = true -> truthy (is_connected c) = true ->
         result r = Raises ConnectionResetError ->
         (forall b w1,
             retry_once data 0 (after_reset data c r s)
             = Some (Return (Some b), w1) ->
             send data (world c (r :: s)) = Some (Return b, w1))
         /\ (forall w1 b w2,
                retry_once data 0 (after_reset data c r s)
                = Some (Return None, w1) ->
                retry_once data 1 w1 = Some (Return (Some b), w2) ->
                send data (world c (r :: s)) = Some (Return b, w2))
         /\ (forall w1 w2,
                retry_once data 0 (after_reset data c r s)
                = Some (Return None, w1) ->
                retry_once data 1 w1 = Some (Return None, w2) ->
                send data (world c (r :: s))
                = Some (Return false,
                        logged w2 ERROR
                          "Failed to send message after reconnection attempts")))
  /\ (forall data c r s o w',
         is_dict data = true -> truthy (is_connected c) = true ->
         result r = Raises ConnectionResetError ->
         send data (world c (r :: s)) = Some (o, w') ->
         (transmissions (trace w') <= 1 + 2)%nat
         /\ (o = Return true \/ o = Return false
             \/ exists e, o = Raise e /\ is_Exception e = false)).
Proof.
  split; [|split; [|split]].
  - intros data c r s w1 r1 r2 s2 Hd Hc Hr Ha Hc1 Hs Hq1 Hr1 Hr2.
    rewrite (send_after_reset _ _ _ _ Hd Hc Hr).
    assert (T1 := silent_attempt_reconnection _ _ _ Ha).
    destruct (connected_has_websocket _ Hc1) as [ws Hw].
    unfold _handle_reconnect_and_retry.
    change (range 0 2) with [0; 1]. simpl.
    unfold bind at 1. unfold bind at 1.
    unfold retry_once at 1. unfold try_except. unfold bind at 1.
    rewrite Ha. unfold bind at 1, get. simpl. rewrite Hc1.
    unfold bind at 1, await, await_, bind at 1, suspend. rewrite Hs. simpl.
    rewrite Hr1, Hq1. simpl.
    unfold bind at 1, ws_send_json, bind at 1, get. simpl. rewrite Hw.
    unfold await, await_, bind, suspend. simpl. rewrite Hr2. simpl.
    eexists. split; [reflexivity|]. simpl. split.
    + repeat rewrite <- app_assoc. reflexivity.
    + repeat rewrite transmissions_app. rewrite T1. reflexivity.
  - intros data k w wa Ha. split.
    + intros Hn. unfold retry_once, try_except. unfold bind at 1.
      rewrite Ha. unfold bind at 1, get. simpl. rewrite Hn. reflexivity.
    + intros r1 r2 s2 e Hc1 Hs Hq1 Hr1 Hr2 He.
      destruct (connected_has_websocket _ Hc1) as [ws Hw].
      unfold retry_once, try_except. unfold bind at 1.
      rewrite Ha. unfold bind at 1, get. simpl. rewrite Hc1.
      unfold bind at 1, await, await_, bind at 1, suspend. rewrite Hs. simpl.
      rewrite Hr1, Hq1. simpl.
      unfold bind at 1, ws_send_json, bind at 1, get. simpl. rewrite Hw.
      unfold await, await_, bind, suspend. simpl. rewrite Hr2. simpl.
      rewrite He. unfold emit. simpl.
      eexists. split; [reflexivity|]. simpl. split; [reflexivity|].
      repeat rewrite <- app_assoc. reflexivity.
  - intros data c r s Hd Hc Hr.
    rewrite (send_after_reset _ _ _ _ Hd Hc Hr).
    unfold _handle_reconnect_and_retry.
    change (range 0 2) with [0; 1]. simpl.
    repeat split.
    + intros b w1 H1. unfold bind. rewrite H1. reflexivity.
    + intros w1 b w2 H1 H2. unfold bind. rewrite H1, H2. reflexivity.
    + intros w1 w2 H1 H2. unfold bind. rewrite H1, H2. reflexivity.
  - intros data c r s o w' Hd Hc Hr.
    rewrite (send_after_reset _ _ _ _ Hd Hc Hr). intros E. split.
    + apply sends_handle_reconnect in E. simpl in E. lia.
    + destruct (absorbs_handle_reconnect _ _ _ _ E) as [[[|] ->]|H]; auto.
Qed.

Lemma send_retries_after_reset_witness :
  (exists w',
      send ping
           (world connected_client
                  (reset_noticed
                   :: [quiet 25 Done; quiet 26 Done; quiet 27 Done;
                       quiet 28 Done]))
      = Some (Return true, w')
      /\ transmissions (trace w') = 2%nat)
  /\ (exists w',
         send ping
              (world connected_client
                     (reset_noticed
                      :: [quiet 25 Done; quiet 26 Done; quiet 27 Done;
                          quiet 28 (Raises ConnectionResetError);
                          quiet 29 Done; quiet 30 (Raises ClientError)]))
         = Some (Return false, w')
         /\ transmissions (trace w') = 3%nat).
Proof.
  assert (Hc : truthy (is_connected connected_client) = true)
    by (vm_compute; reflexivity).
  split.
  - eassert (Ha : _attempt_reconnection
                    (after_reset ping connected_client reset_noticed
                                 [quiet 25 Done; quiet 26 Done; quiet 27 Done;
                                  quiet 28 Done])
                  = Some (Return tt, _)) by (vm_compute; reflexivity).
    match type of Ha with
    | _ = Some (_, ?w1) =>
      assert (Hc1 : truthy (is_connected (client w1)) = true)
        by (vm_compute; reflexivity);
      assert (Hs : script w1 = quiet 27 Done :: quiet 28 Done :: [])
        by (vm_compute; reflexivity)
    end.
    destruct (proj1 send_retries_after_reset ping connected_client
                    reset_noticed _ _ _ _ _
                    eq_refl Hc eq_refl Ha Hc1 Hs eq_refl eq_refl eq_refl)
      as (w' & E & _ & T).
    exists w'. split; [exact E|exact T].
  - eassert (H1 : retry_once ping 0
                    (after_reset ping connected_client reset_noticed
                       [quiet 25 Done; quiet 26 Done; quiet 27 Done;
                        quiet 28 (Raises ConnectionResetError);
                        quiet 29 Done; quiet 30 (Raises ClientError)])
                  = Some (Return None, _)) by (vm_compute; reflexivity).
    match type of H1 with
    | _ = Some (_, ?w1) =>
      eassert (H2 : retry_once ping 1 w1 = Some (Return None, _))
        by (vm_compute; reflexivity)
    end.
    destruct (proj1 (proj2 (proj2 send_retries_after_reset))
                    ping connected_client reset_noticed
                    [quiet 25 Done; quiet 26 Done; quiet 27 Done;
                     quiet 28 (Raises ConnectionResetError);
                     quiet 29 Done; quiet 30 (Raises ClientError)]
                    eq_refl Hc eq_refl) as (_ & _ & F).
    eexists. split; [exact (F _ _ H1 H2)|]. vm_compute. reflexivity.
Defined.

(** The reconnection succeeds, the retransmission is reset again, the
    second retry fails too: three transmissions and [False]. *)
Lemma retransmission_can_fail : ~ retransmits_once_after_reconnect.
Proof.
  intros H.
  pose (s := [quiet 25 Done; quiet 26 Done; quiet 27 Done;
              quiet 28 (Raises ConnectionResetError);
              quiet 29 Done; quiet 30 (Raises ClientError)]).
  eassert (Ha : _attempt_reconnection
                  (after_reset ping connected_client reset_noticed s)
                = Some (Return tt, _)) by (vm_compute; reflexivity).
  match type of Ha with
  | _ = Some (_, ?w1) =>
    assert (Hc1 : truthy (is_connected (client w1)) = true)
      by (vm_compute; reflexivity)
  end.
  assert (Hc : truthy (is_connected connected_client) = true)
    by (vm_compute; reflexivity).
  eassert (E : send ping (world connected_client (reset_noticed :: s))
               = Some (Return false, _)) by (vm_compute; reflexivity).
  destruct (H ping connected_client reset_noticed s _ _ _
                eq_refl Hc eq_refl Ha Hc1 E) as [Ho _].
  discriminate Ho.
Qed.

(** ** The reconnection guard under concurrent invocations *)

Lemma failed_cycle_is_repeated : ~ one_cycle_for_all.
Proof.
  intros H.
  eassert (E : run two_failed_cycles (pool (init "dashboard" 8000) 2)
               = Some _) by (vm_compute; reflexivity).
  assert (R := H 2%nat (init "dashboard" 8000) two_failed_cycles _
                 (le_n 2) eq_refl eq_refl E).
  assert (F : recon (init "dashboard" 8000) + 1 = 1) by reflexivity.
  rewrite F in R. clear F E.
  vm_compute in R.
  assert (R' := R ltac:(repeat constructor; eexists; reflexivity)).
  discriminate R'.
Qed.

Lemma apply_action_recon (own : bool) (a : action) (c : IPCClient) :
  recon (apply_action own a c) = recon c.
Proof.
  unfold recon. by_cases_on c a; simpl; auto; destruct own; simpl; auto.
Qed.

Lemma interfere_recon (own : bool) (l : list action) :
  forall c, recon (interfere own l c) = recon c.
Proof.
  unfold interfere. induction l as [|a l IH]; simpl; intros c; auto.
  rewrite IH. apply apply_action_recon.
Qed.

Lemma steady_ret {A} (a : A) : steady (ret a).
Proof. intros w o w' E. inversion E; reflexivity. Qed.

Lemma steady_raise {A} (e : exn) : steady (@raise A e).
Proof. intros w o w' E. inversion E; reflexivity. Qed.

Lemma steady_get : steady get.
Proof. intros w o w' E. inversion E; reflexivity. Qed.

Lemma steady_time : steady time_time.
Proof. intros w o w' E. inversion E; reflexivity. Qed.

Lemma steady_emit (e : effect) : steady (emit e).
Proof. intros w o w' E. inversion E; reflexivity. Qed.

Lemma steady_modify (f : IPCClient -> IPCClient) :
  (forall c, recon (f c) = recon c) -> steady (modify f).
Proof. intros H w o w' E. inversion E; subst. simpl. apply H. Qed.

Lemma steady_bind {A B} (m : Coro A) (f : A -> Coro B) :
  steady m -> (forall a, steady (f a)) -> steady (bind m f).
Proof.
  intros Hm Hf w o w'. unfold bind.
  destruct (m w) as [[[a|e] w1]|] eqn:M; try discriminate.
  - intros E. rewrite (Hf a _ _ _ E). apply (Hm _ _ _ M).
  - intros E; inversion E; subst. apply (Hm _ _ _ M).
Qed.

Lemma steady_await (own : bool) (e : effect) : steady (await_ own e).
Proof.
  intros w o w' E. apply await_inv in E.
  destruct E as (r & s & _ & -> & _). simpl. apply interfere_recon.
Qed.

Lemma steady_try_except {A} (body : Coro A) (h : exn -> option (Coro A)) :
  steady body -> (forall e k, h e = Some k -> steady k) ->
  steady (try_except body h).
Proof.
  intros Hb Hh w o w'. unfold try_except.
  destruct (body w) as [[[a|e] w1]|] eqn:M; try discriminate.
  - intros E; inversion E; subst. apply (Hb _ _ _ M).
  - destruct (h e) as [k|] eqn:K.
    + intros E. rewrite (Hh _ _ K _ _ _ E). apply (Hb _ _ _ M).
    + intros E; inversion E; subst. apply (Hb _ _ _ M).
Qed.

Lemma steady_try_finally {A} (body : Coro A) (fin : Coro unit) :
  steady body -> steady fin -> steady (try_finally body fin).
Proof.
  intros Hb Hf w o w'. unfold try_finally.
  destruct (body w) as [[o1 w1]|] eqn:M; try discriminate.
  destruct (fin w1) as [[[u|e] w2]|] eqn:F; try discriminate;
    intros E; inversion E; subst;
    rewrite (Hf _ _ _ F); apply (Hb _ _ _ M).
Qed.

Lemma steady_while (cond : IPCClient -> bool) (body : Coro ctl) :
  steady body -> steady (while cond body).
Proof.
  intros Hb.
  assert (L : forall n, steady (while_ n cond body)).
  { induction n as [|n IH]; intros w o w'; simpl;
      destruct (cond (client w)); try discriminate;
      try (intros E; inversion E; reflexivity).
    apply steady_bind; [exact Hb|].
    intros [|]; [exact IH|apply steady_ret]. }
  intros w o w'. unfold while. apply L.
Qed.

Ltac steady_step :=
  match goal with
  | |- steady (bind _ _) => apply steady_bind; [|intro]
  | |- steady (ret _) => apply steady_ret
  | |- steady (raise _) => apply steady_raise
  | |- steady get => apply steady_get
  | |- steady time_time => apply steady_time
  | |- steady (modify _) => apply steady_modify; intros []; reflexivity
  | |- steady (emit _) => apply steady_emit
  | |- steady (await_ _ _) => apply steady_await
  | |- steady (await _) => apply steady_await
  | |- steady (try_finally _ _) => apply steady_try_finally
  | |- steady (while _ _) => apply steady_while
  | |- steady (if ?b then _ else _) => destruct b
  | |- steady (match ?x with _ => _ end) => destruct x
  end.

Lemma steady_connect : steady connect.
Proof.
  unfold connect. repeat steady_step.
  apply steady_try_except.
  - unfold connect_try, _create_session, ws_connect. repeat steady_step.
  - intros e k. unfold connect_handlers.
    destruct e; simpl; intros K; inversion K; subst; repeat steady_step.
Qed.

Lemma steady_reconnection_attempt (a : Z) : steady (reconnection_attempt a).
Proof.
  unfold reconnection_attempt. apply steady_try_except.
  - repeat steady_step. apply steady_connect.
  - intros e k. destruct (is_Exception e); intros K; inversion K; subst.
    repeat steady_step.
Qed.

Lemma total_upd (f : pc -> Z) (y : pc) :
  forall l i x, nth_error l i = Some x ->
    total f (upd i y l) = total f l - f x + f y.
Proof.
  induction l as [|z l IH]; intros [|i] x; simpl; try discriminate.
  - intros E; inversion E; subst. lia.
  - intros E. rewrite (IH _ _ E). lia.
Qed.

Lemma total_repeat_start (f : pc -> Z) (n : nat) :
  f Start = 0 -> total f (repeat Start n) = 0.
Proof. intros H. induction n; simpl; lia. Qed.

Lemma in_cycle_member :
  forall l i a rest, nth_error l i = Some (InCycle a rest) ->
    1 <= total in_cycle l.
Proof.
  unfold total.
  assert (N : forall l, 0 <= fold_right (fun x acc => in_cycle x + acc) 0 l).
  { induction l as [|x l IH]; simpl; [lia|].
    destruct x; cbn [in_cycle]; lia. }
  induction l as [|x l IH]; intros [|i] a rest; simpl; try discriminate.
  - intros E; inversion E; subst. cbn [in_cycle]. specialize (N l). lia.
  - intros E. specialize (IH _ _ _ E). destruct x; cbn [in_cycle]; lia.
Qed.

Lemma nth_error_upd (y : pc) :
  forall l i x, nth_error l i = Some x -> nth_error (upd i y l) i = Some y.
Proof.
  induction l as [|z l IH]; intros [|i] x; simpl; try discriminate; eauto.
Qed.

Lemma enter_inv (rc0 : Z) (i : nat) (p : Pool) (x : pc) :
  nth_error (tasks p) i = Some x -> in_cycle x = 0 -> has_cycled x = 0 ->
  locked p = false ->
  guard_inv rc0 p -> guard_inv rc0 (enter i p).
Proof.
  intros Hn Hx Hy Hl (I1 & I2 & I3). rewrite Hl in I1.
  unfold enter, guard_inv, running, cycles in *.
  destruct (_is_connected (shared p) || _is_connecting (shared p)) eqn:F;
    simpl.
  - rewrite !(total_upd _ _ _ _ _ Hn), Hx, Hy. simpl.
    repeat split; try lia; discriminate.
  - apply orb_false_elim in F. destruct F as [F1 F2].
    destruct (range 1 (_max_reconnect_attempts (shared p) + 1)); simpl;
      rewrite !(total_upd _ _ _ _ _ Hn), Hx, Hy; simpl;
      unfold recon in *; simpl;
      repeat split; auto; try lia; discriminate.
Qed.

Lemma step_inv (rc0 : Z) (i : nat) (answers : list answer) (p p' : Pool) :
  step i answers p = Some p' -> guard_inv rc0 p -> guard_inv rc0 p'.
Proof.
  unfold step. destruct (nth_error (tasks p) i) as [[| |a rest|b]|] eqn:Hn;
    try discriminate.
  - (* a newcomer *)
    destruct (negb (locked p)) eqn:Hl; simpl.
    + destruct (waiters p); intros E; inversion E; subst.
      * intros I. eapply enter_inv; eauto.
        destruct (locked p); [discriminate|reflexivity].
      * intros (I1 & I2 & I3). unfold guard_inv, running, cycles in *. simpl.
        rewrite !(total_upd _ _ _ _ _ Hn). simpl.
        repeat split; intros; try lia; apply I2; assumption.
    + intros E; inversion E; subst.
      intros (I1 & I2 & I3). unfold guard_inv, running, cycles in *. simpl.
      rewrite !(total_upd _ _ _ _ _ Hn). simpl.
      repeat split; intros; try lia; apply I2; assumption.
  - (* a waiter *)
    destruct (waiters p) as [|j q]; [discriminate|].
    destruct (negb (locked p)) eqn:Hl; simpl; [|discriminate].
    destruct (Nat.eqb i j); [|discriminate].
    intros E; inversion E; subst. intros I.
    eapply enter_inv; eauto.
    simpl. destruct (locked p); [discriminate|reflexivity].
  - (* the holder wakes up *)
    intros E (I1 & I2 & I3).
    assert (Hk : locked p = true).
    { pose proof (in_cycle_member _ _ _ _ Hn) as M. unfold running in I1.
      destruct (locked p); [reflexivity|lia]. }
    destruct (I2 Hk) as [F1 F2].
    destruct (reconnection_attempt a
                (world (shared p) (map (quiet 0) (Done :: answers))))
      as [[o w']|] eqn:R; [|discriminate].
    assert (Q : quiet_script (map (quiet 0) (Done :: answers))).
    { unfold quiet_script. apply Forall_map.
      apply Forall_forall. intros; reflexivity. }
    destruct (reconnection_attempt_quiet
                a (world (shared p) (map (quiet 0) (Done :: answers)))
                w' o F2 F1 Q R) as (_ & _ & _ & G).
    pose proof (steady_reconnection_attempt a _ _ _ R) as K. simpl in K.
    assert (L : guard_inv rc0 (leave i (client w') p)).
    { unfold guard_inv, leave, running, cycles in *. simpl.
      rewrite !(total_upd _ _ _ _ _ Hn). simpl. rewrite Hk in I1.
      repeat split; try lia; discriminate. }
    destruct o as [[u|]|e]; try (inversion E; subst; exact L).
    destruct rest as [|b rest']; inversion E; subst; [exact L|].
    destruct (G eq_refl) as [G1 G2].
    unfold guard_inv, running, cycles in *. simpl.
    rewrite !(total_upd _ _ _ _ _ Hn). simpl. rewrite Hk in I1.
    repeat split; auto; lia.
Qed.

Lemma run_inv (rc0 : Z) (sched : list (nat * list answer)) :
  forall p p', run sched p = Some p' -> guard_inv rc0 p -> guard_inv rc0 p'.
Proof.
  induction sched as [|[i a] sched IH]; simpl; intros p p'.
  - intros E; inversion E; subst; auto.
  - destruct (step i a p) as [p1|] eqn:S; [|discriminate].
    intros E I. apply (IH _ _ E). eapply step_inv; eauto.
Qed.

Lemma pool_inv (c : IPCClient) (n : nat) : guard_inv (recon c) (pool c n).
Proof.
  unfold guard_inv, pool, running, cycles. simpl.
  rewrite !total_repeat_start by reflexivity.
  repeat split; try lia; discriminate.
Qed.

(** Once the client is connected, a step starts no cycle and leaves the
    client as it is. *)
Lemma step_connected (rc0 : Z) (i : nat) (answers : list answer)
      (p p' : Pool) :
  guard_inv rc0 p -> _is_connected (shared p) = true ->
  step i answers p = Some p' ->
  shared p' = shared p /\ cycles p' = cycles p.
Proof.
  intros (I1 & I2 & I3) Hc.
  assert (Hl : locked p = false).
  { destruct (locked p); [|reflexivity].
    destruct (I2 eq_refl) as [F _]. congruence. }
  unfold step. destruct (nth_error (tasks p) i) as [[| |a rest|b]|] eqn:Hn;
    try discriminate.
  - rewrite Hl. simpl.
    destruct (waiters p); intros E; inversion E; subst; unfold enter, cycles;
      simpl; try rewrite Hc; simpl;
      rewrite !(total_upd _ _ _ _ _ Hn); simpl; split; auto; lia.
  - destruct (waiters p) as [|j q]; [discriminate|]. rewrite Hl. simpl.
    destruct (Nat.eqb i j); [|discriminate].
    intros E; inversion E; subst. unfold enter, cycles. simpl. rewrite Hc.
    simpl. rewrite !(total_upd _ _ _ _ _ Hn). simpl. split; auto; lia.
  - pose proof (in_cycle_member _ _ _ _ Hn) as M. unfold running in I1.
    rewrite Hl in I1. lia.
Qed.

Lemma run_connected (rc0 : Z) (sched : list (nat * list answer)) :
  forall p p', guard_inv rc0 p -> _is_connected (shared p) = true ->
    run sched p = Some p' ->
    shared p' = shared p /\ cycles p' = cycles p.
Proof.
  induction sched as [|[i a] sched IH]; simpl; intros p p' I Hc.
  - intros E; inversion E; subst; auto.
  - destruct (step i a p) as [p1|] eqn:S; [|discriminate].
    intros E. destruct (step_connected _ _ _ _ _ I Hc S) as [S1 S2].
    assert (I' := step_inv _ _ _ _ _ S I).
    destruct (IH p1 p' I') as [T1 T2]; [congruence|exact E|].
    split; congruence.
Qed.

(** C5 (amended): concurrent invocations of the coordinator are serialised
    by the guard. At any time at most one of them is inside a cycle, and
    the cycle counter equals the number of invocations that found the
    client neither connected nor connecting when they obtained the guard.
    An invocation that arrives while the guard is held does not return: it
    queues for the guard. Once a cycle has left the client connected, every
    further invocation is a no-op, so one cycle runs in that case. *)
Theorem serialised_cycles (n : nat) (c : IPCClient)
        (sched : list (nat * list answer)) (p : Pool) :
  run sched (pool c n) = Some p ->
  0 <= running p <= 1
  /\ (running p = 1 <-> locked p = true)
  /\ recon (shared p) = recon c + cycles p
  /\ (forall i answers,
         locked p = true -> nth_error (tasks p) i = Some Start ->
         exists p', step i answers p = Some p'
                    /\ nth_error (tasks p') i = Some Waiting
                    /\ shared p' = shared p)
  /\ (forall sched' p',
         _is_connected (shared p) = true ->
         run sched' p = Some p' ->
         shared p' = shared p /\ cycles p' = cycles p).
Proof.
  intros E. pose proof (run_inv _ _ _ _ E (pool_inv c n)) as I.
  destruct I as (I1 & I2 & I3).
  split; [destruct (locked p); lia|].
  split; [destruct (locked p); split; intros; try lia; auto; discriminate|].
  split; [exact I3|]. split.
  - intros i answers Hl Hn. unfold step. rewrite Hn, Hl. simpl.
    eexists. split; [reflexivity|]. simpl. split; [|reflexivity].
    eapply nth_error_upd; eauto.
  - intros sched' p' Hc E'.
    apply (run_connected (recon c) sched' p p' (conj I1 (conj I2 I3)) Hc E').
Qed.

Lemma serialised_cycles_witness :
  exists p p',
    run one_cycle_suffices (pool (init "dashboard" 8000) 3) = Some p
    /\ recon (shared p) = 0 + cycles p
    /\ run [(1%nat, []); (2%nat, [])] p = Some p'
    /\ cycles p' = cycles p.
Proof.
  eexists.
  eassert (E : run one_cycle_suffices (pool (init "dashboard" 8000) 3)
               = Some _) by (vm_compute; reflexivity).
  eexists.
  match type of E with
  | _ = Some ?p0 =>
    eassert (E' : run [(1%nat, []); (2%nat, [])] p0 = Some _)
      by (vm_compute; reflexivity);
    assert (Hc : _is_connected (shared p0) = true)
      by (vm_compute; reflexivity)
  end.
  destruct (serialised_cycles _ _ _ _ E) as (_ & _ & R & _ & N).
  split; [exact E|]. split; [exact R|]. split; [exact E'|].
  apply (N _ _ Hc E').
Defined.

(** ** Fuel of the loops *)

(** A loop whose body is consuming never runs out of fuel before it runs
    out of replies: any fuel above the length of the script gives the same
    run. Both loops of the client are of this kind. *)
Lemma while_fuel (cond : IPCClient -> bool) (body : Coro ctl) :
  consuming body ->
  forall n m w,
    (List.length (script w) < n)%nat -> (List.length (script w) < m)%nat ->
    while_ n cond body w = while_ m cond body w.
Proof.
  intros Hb. induction n as [|n IH]; intros [|m] w Hn Hm; try lia.
  simpl. destruct (cond (client w)); [|reflexivity].
  unfold bind. destruct (body w) as [[[[|]|e] w1]|] eqn:B; try reflexivity.
  apply Hb in B. apply IH; lia.
Qed.

Lemma wait_turn_consuming : consuming (await (Sleep (1 # 10)) ;; ret Continue).
Proof.
  intros w w1. unfold bind.
  destruct (await (Sleep (1 # 10)) w) as [[[u|e] w0]|] eqn:A;
    try discriminate.
  intros E; inversion E; subst.
  apply await_inv in A. destruct A as (r & s & Hs & -> & _).
  rewrite Hs. simpl. lia.
Qed.

Lemma listen_body_consuming : consuming listen_body.
Proof.
  intros w w1 B. apply listen_body_inv in B.
  destruct B as (k & used & Ek & S & Hu & _). inversion Ek; subst k.
  destruct used as [|r used]; [discriminate (Hu eq_refl)|].
  rewrite S. simpl. rewrite length_app. lia.
Qed.

(** * Further properties *)

(** ** Counting effects, keeping fields *)

Section Counting.
Variable p : effect -> bool.

Lemma occurrences_app (a b : list effect) :
  occurrences p (a ++ b) = (occurrences p a + occurrences p b)%nat.
Proof. unfold occurrences. rewrite filter_app, length_app. reflexivity. Qed.

Lemma occurrences_one (e : effect) :
  occurrences p [e] = if p e then 1%nat else 0%nat.
Proof. unfold occurrences. simpl. destruct (p e); reflexivity. Qed.

Lemma emits_weaken {A} (n n' : nat) (m : Coro A) :
  (n <= n')%nat -> emits_at_most p n m -> emits_at_most p n' m.
Proof. intros Hn H w o w' E. specialize (H _ _ _ E). lia. Qed.

Lemma emits_ret {A} (a : A) : emits_at_most p 0 (ret a).
Proof. intros w o w' E. inversion E; subst. lia. Qed.

Lemma emits_raise {A} (e : exn) : emits_at_most p 0 (@raise A e).
Proof. intros w o w' E. inversion E; subst. lia. Qed.

Lemma emits_get : emits_at_most p 0 get.
Proof. intros w o w' E. inversion E; subst. lia. Qed.

Lemma emits_time : emits_at_most p 0 time_time.
Proof. intros w o w' E. inversion E; subst. lia. Qed.

Lemma emits_modify (f : IPCClient -> IPCClient) :
  emits_at_most p 0 (modify f).
Proof. intros w o w' E. inversion E; subst. simpl. lia. Qed.

Lemma emits_emit (e : effect) :
  emits_at_most p (if p e then 1 else 0) (emit e).
Proof.
  intros w o w' E. inversion E; subst. simpl.
  rewrite occurrences_app, occurrences_one. lia.
Qed.

Lemma emits_await (own : bool) (e : effect) :
  emits_at_most p (if p e then 1 else 0) (await_ own e).
Proof.
  intros w o w' E. apply await_inv in E.
  destruct E as (r & s & _ & -> & _). simpl.
  rewrite occurrences_app, occurrences_one. lia.
Qed.

Lemma emits_bind {A B} (a b : nat) (m : Coro A) (f : A -> Coro B) :
  emits_at_most p a m -> (forall x, emits_at_most p b (f x)) ->
  emits_at_most p (a + b) (bind m f).
Proof.
  intros Hm Hf w o w'. unfold bind.
  destruct (m w) as [[[x|e] w1]|] eqn:M; try discriminate.
  - intros E. specialize (Hf x _ _ _ E). specialize (Hm _ _ _ M). lia.
  - intros E; inversion E; subst. specialize (Hm _ _ _ M). lia.
Qed.

Lemma emits_try_except {A} (a b : nat) (body : Coro A)
      (h : exn -> option (Coro A)) :
  emits_at_most p a body ->
  (forall e k, h e = Some k -> emits_at_most p b k) ->
  emits_at_most p (a + b) (try_except body h).
Proof.
  intros Hb Hh w o w'. unfold try_except.
  destruct (body w) as [[[x|e] w1]|] eqn:M; try discriminate.
  - intros E; inversion E; subst. specialize (Hb _ _ _ M). lia.
  - destruct (h e) as [k|] eqn:K.
    + intros E. specialize (Hh _ _ K _ _ _ E). specialize (Hb _ _ _ M).
      lia.
    + intros E; inversion E; subst. specialize (Hb _ _ _ M). lia.
Qed.

Lemma emits_try_finally {A} (a b : nat) (body : Coro A) (fin : Coro unit) :
  emits_at_most p a body -> emits_at_most p b fin ->
  emits_at_most p (a + b) (try_finally body fin).
Proof.
  intros Hb Hf w o w'. unfold try_finally.
  destruct (body w) as [[o1 w1]|] eqn:M; try discriminate.
  destruct (fin w1) as [[[u|e] w2]|] eqn:F; try discriminate;
    intros E; inversion E; subst;
    specialize (Hf _ _ _ F); specialize (Hb _ _ _ M); lia.
Qed.

Lemma emits_while (cond : IPCClient -> bool) (body : Coro ctl) :
  emits_at_most p 0 body -> emits_at_most p 0 (while cond body).
Proof.
  intros Hb.
  assert (L : forall n, emits_at_most p 0 (while_ n cond body)).
  { induction n as [|n IH]; intros w o w'; simpl;
      destruct (cond (client w)); try discriminate;
      try (intros E; inversion E; subst; lia).
    change 0%nat with (0 + 0)%nat. apply emits_bind; [exact Hb|].
    intros [|]; [exact IH|apply emits_ret]. }
  intros w o w'. unfold while. apply L.
Qed.

Lemma emits_for {A R} (n : nat) (l : list A) (body : A -> Coro (option R)) :
  (forall a, emits_at_most p n (body a)) ->
  emits_at_most p (List.length l * n) (for_ l body).
Proof.
  intros Hb. induction l as [|a l IH]; simpl.
  - apply emits_ret.
  - apply emits_bind; [apply Hb|].
    intros [x|]; [|exact IH].
    eapply emits_weaken; [|apply emits_ret]. lia.
Qed.
End Counting.

Section Keeping.
Context {B : Type}.
Variable f : IPCClient -> B.
Hypothesis others_keep : forall own a c, f (apply_action own a c) = f c.

Lemma keeps_interfere (own : bool) (l : list action) :
  forall c, f (interfere own l c) = f c.
Proof.
  unfold interfere. induction l as [|a l IH]; simpl; intros c; auto.
  rewrite IH. apply others_keep.
Qed.

Lemma keeps_ret {A} (a : A) : keeps f (ret a).
Proof. intros w o w' E. inversion E; reflexivity. Qed.

Lemma keeps_raise {A} (e : exn) : keeps f (@raise A e).
Proof. intros w o w' E. inversion E; reflexivity. Qed.

Lemma keeps_get : keeps f get.
Proof. intros w o w' E. inversion E; reflexivity. Qed.

Lemma keeps_time : keeps f time_time.
Proof. intros w o w' E. inversion E; reflexivity. Qed.

Lemma keeps_emit (e : effect) : keeps f (emit e).
Proof. intros w o w' E. inversion E; reflexivity. Qed.

Lemma keeps_modify (g : IPCClient -> IPCClient) :
  (forall c, f (g c) = f c) -> keeps f (modify g).
Proof. intros H w o w' E. inversion E; subst. simpl. apply H. Qed.

Lemma keeps_await (own : bool) (e : effect) : keeps f (await_ own e).
Proof.
  intros w o w' E. apply await_inv in E.
  destruct E as (r & s & _ & -> & _). simpl. apply keeps_interfere.
Qed.

Lemma keeps_await_frame (e : effect) : keeps f (await_frame e).
Proof.
  intros w o w'. unfold await_frame, bind, suspend.
  destruct (script w) as [|r s]; [discriminate|].
  destruct (result r); simpl; intros E; inversion E; subst; simpl;
    apply keeps_interfere.
Qed.

Lemma keeps_bind {A C} (m : Coro A) (k : A -> Coro C) :
  keeps f m -> (forall a, keeps f (k a)) -> keeps f (bind m k).
Proof.
  intros Hm Hk w o w'. unfold bind.
  destruct (m w) as [[[a|e] w1]|] eqn:M; try discriminate.
  - intros E. rewrite (Hk a _ _ _ E). apply (Hm _ _ _ M).
  - intros E; inversion E; subst. apply (Hm _ _ _ M).
Qed.

Lemma keeps_try_except {A} (body : Coro A) (h : exn -> option (Coro A)) :
  keeps f body -> (forall e k, h e = Some k -> keeps f k) ->
  keeps f (try_except body h).
Proof.
  intros Hb Hh w o w'. unfold try_except.
  destruct (body w) as [[[a|e] w1]|] eqn:M; try discriminate.
  - intros E; inversion E; subst. apply (Hb _ _ _ M).
  - destruct (h e) as [k|] eqn:K.
    + intros E. rewrite (Hh _ _ K _ _ _ E). apply (Hb _ _ _ M).
    + intros E; inversion E; subst. apply (Hb _ _ _ M).
Qed.

Lemma keeps_try_finally {A} (body : Coro A) (fin : Coro unit) :
  keeps f body -> keeps f fin -> keeps f (try_finally body fin).
Proof.
  intros Hb Hf w o w'. unfold try_finally.
  destruct (body w) as [[o1 w1]|] eqn:M; try discriminate.
  destruct (fin w1) as [[[u|e] w2]|] eqn:F; try discriminate;
    intros E; inversion E; subst;
    rewrite (Hf _ _ _ F); apply (Hb _ _ _ M).
Qed.

Lemma keeps_while (cond : IPCClient -> bool) (body : Coro ctl) :
  keeps f body -> keeps f (while cond body).
Proof.
  intros Hb.
  assert (L : forall n, keeps f (while_ n cond body)).
  { induction n as [|n IH]; intros w o w'; simpl;
      destruct (cond (client w)); try discriminate;
      try (intros E; inversion E; reflexivity).
    apply keeps_bind; [exact Hb|].
    intros [|]; [exact IH|apply keeps_ret]. }
  intros w o w'. unfold while. apply L.
Qed.

Lemma keeps_for {A R} (l : list A) (body : A -> Coro (option R)) :
  (forall a, keeps f (body a)) -> keeps f (for_ l body).
Proof.
  intros Hb. induction l as [|a l IH]; simpl; [apply keeps_ret|].
  apply keeps_bind; [apply Hb|].
  intros [x|]; [apply keeps_ret|exact IH].
Qed.
End Keeping.

Section KeepingAll.
Context {B : Type}.
Variable f : IPCClient -> B.
Hypothesis others_keep : forall own a c, f (apply_action own a c) = f c.
Hypothesis updates_keep :
  forall c,
    (forall b, f (set_is_connected b c) = f c)
    /\ (forall b, f (set_is_connecting b c) = f c)
    /\ (forall s, f (set_session s c) = f c)
    /\ (forall s, f (set_websocket s c) = f c)
    /\ (forall t, f (set_task t c) = f c)
    /\ (forall k, f (set_connector k c) = f c)
    /\ (forall m, f (set_metrics m c) = f c).

Lemma close_connector_keep (c : IPCClient) : f (close_connector c) = f c.
Proof.
  unfold close_connector.
  destruct (_connector c); [apply updates_keep|reflexivity].
Qed.

Ltac keep_modify :=
  apply keeps_modify; intro;
  first [ apply updates_keep | apply close_connector_keep ].

Ltac kstep :=
  match goal with
  | |- keeps _ (bind _ _) => apply keeps_bind; [|intro]
  | |- keeps _ (ret _) => apply keeps_ret
  | |- keeps _ (raise _) => apply keeps_raise
  | |- keeps _ get => apply keeps_get
  | |- keeps _ time_time => apply keeps_time
  | |- keeps _ (emit _) => apply keeps_emit
  | |- keeps _ (modify _) => keep_modify
  | |- keeps _ (await_ _ _) => apply keeps_await; exact others_keep
  | |- keeps _ (await _) => apply keeps_await; exact others_keep
  | |- keeps _ (await_frame _) =>
    apply keeps_await_frame; exact others_keep
  | |- keeps _ (try_finally _ _) => apply keeps_try_finally
  | |- keeps _ (while _ _) => apply keeps_while
  | |- keeps _ (for_ _ _) => apply keeps_for; intro
  | |- keeps _ (if ?b then _ else _) => destruct b
  | |- keeps _ (match ?x with _ => _ end) => destruct x
  end.

Ltac khandler :=
  let e := fresh "e" in
  let k := fresh "k" in
  let K := fresh "K" in
  intros e k K;
  repeat match type of K with
         | (match ?x with _ => _ end) = Some _ => destruct x
         | (if ?b then _ else _) = Some _ => destruct b
         end;
  inversion K; subst; repeat kstep.

Lemma keeps_connect : keeps f connect.
Proof.
  unfold connect. repeat kstep.
  apply keeps_try_except.
  - unfold connect_try, _create_session, ws_connect. repeat kstep.
  - unfold connect_handlers. khandler.
Qed.

Lemma keeps_reconnection_attempt (a : Z) : keeps f (reconnection_attempt a).
Proof.
  unfold reconnection_attempt. apply keeps_try_except.
  - repeat kstep. apply keeps_connect.
  - khandler.
Qed.

Lemma keeps_attempt_reconnection : keeps f _attempt_reconnection.
Proof.
  unfold _attempt_reconnection. repeat kstep.
  apply keeps_reconnection_attempt.
Qed.

Lemma keeps_ws_send_json (data : value) : keeps f (ws_send_json data).
Proof. unfold ws_send_json. repeat kstep. Qed.

Lemma keeps_retry_once (data : value) (retry : Z) :
  keeps f (retry_once data retry).
Proof.
  unfold retry_once. apply keeps_try_except.
  - apply keeps_bind; [apply keeps_attempt_reconnection|intro].
    repeat kstep; apply keeps_ws_send_json.
  - khandler.
Qed.

Lemma keeps_handle_reconnect (data : value) (n : Z) :
  keeps f (_handle_reconnect_and_retry data n).
Proof.
  unfold _handle_reconnect_and_retry.
  apply keeps_bind; [apply keeps_for; intro; apply keeps_retry_once|].
  intros [b|]; repeat kstep.
Qed.

Lemma keeps_send (data : value) : keeps f (send data).
Proof.
  unfold send. repeat kstep.
  apply keeps_try_except.
  - apply keeps_bind; [apply keeps_ws_send_json|intro]. repeat kstep.
  - intros e k K.
    destruct e; simpl in K; inversion K; subst; repeat kstep;
      apply keeps_handle_reconnect.
Qed.

Lemma keeps_disconnect : keeps f disconnect.
Proof.
  unfold disconnect, cancel_listener, drop_websocket, drop_session,
    drop_connector.
  repeat first [ kstep
               | apply keeps_try_except;
                 [|unfold warn_on_error; khandler] ].
Qed.

Lemma keeps_listen_body : keeps f listen_body.
Proof.
  unfold listen_body. apply keeps_try_except.
  - repeat first [ kstep | apply keeps_try_except; [|khandler] ].
  - khandler.
Qed.

Lemma keeps_listen : keeps f _listen.
Proof.
  unfold _listen. repeat kstep. apply keeps_listen_body.
Qed.
End KeepingAll.

Section Bounds.
Variable p : effect -> bool.

Lemma emits_zero {A} (n : nat) (m : Coro A) :
  emits_at_most p 0 m -> emits_at_most p n m.
Proof. apply emits_weaken. lia. Qed.

Lemma emits_bind_r {A B} (n : nat) (m : Coro A) (f : A -> Coro B) :
  emits_at_most p 0 m -> (forall x, emits_at_most p n (f x)) ->
  emits_at_most p n (bind m f).
Proof. intros Hm Hf. apply (emits_bind p 0 n); assumption. Qed.

Lemma emits_bind_l {A B} (n : nat) (m : Coro A) (f : A -> Coro B) :
  emits_at_most p n m -> (forall x, emits_at_most p 0 (f x)) ->
  emits_at_most p n (bind m f).
Proof.
  intros Hm Hf. eapply emits_weaken; [|apply (emits_bind p n 0); eassumption].
  lia.
Qed.

Lemma emits_emit0 (e : effect) : p e = false -> emits_at_most p 0 (emit e).
Proof. intros H. pose proof (emits_emit p e) as E. rewrite H in E. exact E. Qed.

Lemma emits_await0 (own : bool) (e : effect) :
  p e = false -> emits_at_most p 0 (await_ own e).
Proof.
  intros H. pose proof (emits_await p own e) as E. rewrite H in E. exact E.
Qed.

Lemma emits_await1 (own : bool) (e : effect) :
  emits_at_most p 1 (await_ own e).
Proof.
  eapply emits_weaken; [|apply emits_await]. destruct (p e); lia.
Qed.

Lemma emits_emit1 (e : effect) : emits_at_most p 1 (emit e).
Proof.
  eapply emits_weaken; [|apply emits_emit]. destruct (p e); lia.
Qed.

Lemma emits_await_frame0 (e : effect) :
  p e = false -> emits_at_most p 0 (await_frame e).
Proof.
  intros H w o w'. unfold await_frame, bind, suspend.
  destruct (script w) as [|r s]; [discriminate|].
  destruct (result r); simpl; intros E; inversion E; subst; simpl;
    rewrite occurrences_app, occurrences_one, H; lia.
Qed.

Lemma emits_try_except_n {A} (n : nat) (body : Coro A)
      (h : exn -> option (Coro A)) :
  emits_at_most p n body ->
  (forall e k, h e = Some k -> emits_at_most p 0 k) ->
  emits_at_most p n (try_except body h).
Proof.
  intros Hb Hh. eapply emits_weaken;
    [|apply (emits_try_except p n 0); eassumption]. lia.
Qed.

Lemma emits_try_finally_n {A} (n : nat) (body : Coro A) (fin : Coro unit) :
  emits_at_most p n body -> emits_at_most p 0 fin ->
  emits_at_most p n (try_finally body fin).
Proof.
  intros Hb Hf. eapply emits_weaken;
    [|apply (emits_try_finally p n 0); eassumption]. lia.
Qed.

Lemma emits_for0 {A R} (l : list A) (body : A -> Coro (option R)) :
  (forall a, emits_at_most p 0 (body a)) -> emits_at_most p 0 (for_ l body).
Proof.
  intros Hb. eapply emits_weaken; [|apply (emits_for p 0); exact Hb]. lia.
Qed.
End Bounds.

(** Proving that a piece of code performs none of the effects [p]. *)
Ltac zstep :=
  match goal with
  | |- emits_at_most _ 0 (bind _ _) => apply emits_bind_r; [|intro]
  | |- emits_at_most _ 0 (ret _) => apply emits_ret
  | |- emits_at_most _ 0 (raise _) => apply emits_raise
  | |- emits_at_most _ 0 get => apply emits_get
  | |- emits_at_most _ 0 time_time => apply emits_time
  | |- emits_at_most _ 0 (modify _) => apply emits_modify
  | |- emits_at_most _ 0 (emit _) => apply emits_emit0; reflexivity
  | |- emits_at_most _ 0 (await_ _ _) => apply emits_await0; reflexivity
  | |- emits_at_most _ 0 (await _) => apply emits_await0; reflexivity
  | |- emits_at_most _ 0 (await_frame _) =>
    apply emits_await_frame0; reflexivity
  | |- emits_at_most _ 0 (try_finally _ _) => apply emits_try_finally_n
  | |- emits_at_most _ 0 (while _ _) => apply emits_while
  | |- emits_at_most _ 0 (for_ _ _) => apply emits_for0; intro
  | |- emits_at_most _ 0 (if ?b then _ else _) => destruct b
  | |- emits_at_most _ 0 (match ?x with _ => _ end) => destruct x
  end.

Ltac zhandler :=
  let e := fresh "e" in
  let k := fresh "k" in
  let K := fresh "K" in
  intros e k K;
  repeat match type of K with
         | (match ?x with _ => _ end) = Some _ => destruct x
         | (if ?b then _ else _) = Some _ => destruct b
         end;
  inversion K; subst; repeat zstep.

(** Proving a bound [n]: the effects sit on one side of each sequence. *)
Ltac nstep :=
  match goal with
  | |- emits_at_most _ _ (bind _ _) =>
    first [ apply emits_bind_r; [solve [repeat zstep]|intro]
          | apply emits_bind_l; [|intro; solve [repeat zstep]] ]
  | |- emits_at_most _ _ (if ?b then _ else _) => destruct b
  | |- emits_at_most _ _ (match ?x with _ => _ end) => destruct x
  | |- emits_at_most _ _ (try_finally _ _) =>
    apply emits_try_finally_n; [|solve [repeat zstep]]
  | |- emits_at_most _ _ _ => solve [apply emits_zero; repeat zstep]
  end.

Lemma connect_handshakes : emits_at_most is_handshake 1 connect.
Proof.
  unfold connect. repeat nstep.
  apply emits_try_except_n.
  - unfold connect_try, _create_session, ws_connect.
    repeat first [ nstep | apply emits_await1 ].
  - unfold connect_handlers. zhandler.
Qed.

Lemma reconnection_attempt_handshakes (a : Z) :
  emits_at_most is_handshake 1 (reconnection_attempt a).
Proof.
  unfold reconnection_attempt. apply emits_try_except_n.
  - apply emits_bind_r; [repeat zstep|intro].
    apply emits_bind_r; [repeat zstep|intro].
    apply emits_bind_r; [repeat zstep|intro].
    apply emits_bind_l; [apply connect_handshakes|intro; repeat zstep].
  - zhandler.
Qed.

Lemma length_range (lo hi : Z) : List.length (range lo hi) = Z.to_nat (hi - lo).
Proof. unfold range. rewrite length_map, length_seq. reflexivity. Qed.

(** One call of the coordinator: its handshakes and its outcome. *)
Lemma coordinator_run (w w' : World) (o : outcome unit) :
  _attempt_reconnection w = Some (o, w') ->
  (occurrences is_handshake (trace w')
   <= occurrences is_handshake (trace w)
      + Z.to_nat (_max_reconnect_attempts (client w)))%nat
  /\ (o = Return tt \/ exists e, o = Raise e /\ is_Exception e = false).
Proof.
  unfold _attempt_reconnection, bind at 1, get. simpl.
  destruct (_is_connected (client w) || _is_connecting (client w)).
  { intros E; inversion E; subst. split; [lia|auto]. }
  unfold bind at 1, modify. simpl. unfold bind at 1.
  match goal with
  | |- context [for_ ?l reconnection_attempt ?w0] =>
    destruct (for_ l reconnection_attempt w0) as [[[r|e] w1]|] eqn:L;
      [| |discriminate];
      pose proof (emits_for is_handshake 1 l reconnection_attempt
                            reconnection_attempt_handshakes _ _ _ L) as H;
      rewrite length_range in H; simpl in H;
      replace (_max_reconnect_attempts (client w) + 1 - 1)
        with (_max_reconnect_attempts (client w)) in H by lia
  end.
  - destruct r; intros E; inversion E; subst; simpl;
      try rewrite occurrences_app, occurrences_one; simpl;
      (split; [lia|auto]).
  - intros E; inversion E; subst. split; [lia|].
    right. exists e. split; [reflexivity|].
    assert (A : absorbs_errors
                  (for_ (range 1 (_max_reconnect_attempts (client w) + 1))
                        reconnection_attempt)).
    { apply absorbs_for. intros a w2 o2 w3. unfold reconnection_attempt,
        try_except.
      match goal with
      | |- match ?b w2 with _ => _ end = _ -> _ =>
        destruct (b w2) as [[[x|e2] w4]|]; try discriminate
      end.
      - intros E2; inversion E2; subst. left. eauto.
      - destruct (is_Exception e2) eqn:X; intros E2; inversion E2; subst.
        + left. eauto.
        + right. eauto. }
    destruct (A _ _ _ L) as [[y Hy]|(e0 & He & Hx)]; [discriminate|].
    inversion He; subst. exact Hx.
Qed.

(** ** The exit of the listener *)

Lemma connect_reschedules_nothing : emits_at_most is_reschedule 0 connect.
Proof.
  unfold connect. repeat zstep.
  apply emits_try_except_n.
  - unfold connect_try, _create_session, ws_connect. repeat zstep.
  - unfold connect_handlers. zhandler.
Qed.

Lemma coordinator_reschedules_nothing :
  emits_at_most is_reschedule 0 _attempt_reconnection.
Proof.
  unfold _attempt_reconnection. repeat zstep.
  unfold reconnection_attempt. apply emits_try_except_n; [|zhandler].
  repeat zstep.
  unfold connect. repeat zstep.
  apply emits_try_except_n.
  - unfold connect_try, _create_session, ws_connect. repeat zstep.
  - unfold connect_handlers. zhandler.
Qed.

Lemma send_reschedules_nothing (data : value) :
  emits_at_most is_reschedule 0 (send data).
Proof.
  unfold send. repeat zstep.
  apply emits_try_except_n.
  - unfold ws_send_json. repeat zstep.
  - intros e k K.
    assert (H : emits_at_most is_reschedule 0
                  (_handle_reconnect_and_retry data 2)).
    { unfold _handle_reconnect_and_retry. repeat zstep.
      unfold retry_once. apply emits_try_except_n; [|zhandler].
      apply emits_bind_r; [apply coordinator_reschedules_nothing|intro].
      unfold ws_send_json. repeat zstep. }
    destruct e; simpl in K; inversion K; subst; repeat zstep; exact H.
Qed.

Lemma disconnect_reschedules_nothing :
  emits_at_most is_reschedule 0 disconnect.
Proof.
  unfold disconnect, cancel_listener, drop_websocket, drop_session,
    drop_connector.
  repeat first [ zstep
               | apply emits_try_except_n;
                 [|unfold warn_on_error; zhandler] ].
Qed.

(** C10 (amended): a cancellation ends the listener at once - it is the
    last thing the listener awaits. The listener always returns with the
    status flag unset, and it schedules a reconnection exactly when the
    flag, as the other tasks left it, is still set when the loop ends -
    whatever ended the loop, cancellation included. A cancellation that
    arrives after [disconnect] cleared the flag therefore schedules
    nothing. The exit of the listener is the only place where a
    reconnection task is created: [connect], the coordinator, [send] and
    [disconnect] create none. *)
Theorem listener_reschedules :
  (forall (c : IPCClient) (s : list reply) (o : outcome unit) (w' : World),
      _listen (world c s) = Some (o, w') ->
      o = Return tt
      /\ _is_connected (client w') = false
      /\ exists used,
          s = (used ++ script w')%list
          /\ (forall u1 r u2, used = (u1 ++ r :: u2)%list ->
                result r = Raises CancelledError -> u2 = [])
          /\ rescheduled (trace w')
             = if _is_connected (interfere false (interference used) c)
               then 1 else 0)
  /\ (forall (c : IPCClient) (s rest : list reply) (acts : list action)
             (t : timestamp) (o : outcome unit) (w' : World),
         _listen (world c (s ++ {| during := acts ++ [disconnected];
                                   clock := t;
                                   result := Raises CancelledError |}
                             :: rest))
         = Some (o, w') ->
         script w' = rest ->
         rescheduled (trace w') = 0)
  /\ (emits_at_most is_reschedule 0 connect
      /\ emits_at_most is_reschedule 0 _attempt_reconnection
      /\ (forall data, emits_at_most is_reschedule 0 (send data))
      /\ emits_at_most is_reschedule 0 disconnect).
Proof.
  split; [exact listen_exit|]. split.
  - intros c s rest acts t o w' E Hs.
    destruct (listen_exit _ _ _ _ E) as (_ & _ & used & S & _ & R).
    rewrite Hs in S.
    change (?x :: rest) with ([x] ++ rest)%list in S.
    rewrite app_assoc in S. apply app_inv_tail in S. subst used. rewrite R.
    rewrite interference_app, interfere_app.
    unfold interference at 1. simpl. rewrite app_nil_r, interfere_app.
    unfold interfere at 1. simpl. unfold released.
    destruct (released_facts true
                (interfere false acts (interfere false (interference s) c)))
      as (_ & -> & _).
    reflexivity.
  - split; [exact connect_reschedules_nothing|].
    split; [exact coordinator_reschedules_nothing|].
    split; [exact send_reschedules_nothing
           |exact disconnect_reschedules_nothing].
Qed.

Lemma listener_reschedules_witness :
  exists w',
    _listen (world connected_client
                   ([quiet 11 (Raises TimeoutError)]
                    ++ {| during := [] ++ [disconnected]; clock := 12;
                          result := Raises CancelledError |}
                    :: [quiet 13 (Raises CancelledError)]))
    = Some (Return tt, w')
    /\ script w' = [quiet 13 (Raises CancelledError)]
    /\ rescheduled (trace w') = 0.
Proof.
  eexists.
  eassert (E : _listen (world connected_client
                              ([quiet 11 (Raises TimeoutError)]
                               ++ {| during := [] ++ [disconnected];
                                     clock := 12;
                                     result := Raises CancelledError |}
                               :: [quiet 13 (Raises CancelledError)]))
               = Some (Return tt, _)) by (vm_compute; reflexivity).
  split; [exact E|]. split; [reflexivity|].
  apply (proj1 (proj2 listener_reschedules) _ _ _ _ _ _ _ E). reflexivity.
Defined.

(** Cancelled while the flag is still set, the listener schedules a
    reconnection. *)
Lemma cancelled_listener_reschedules : ~ cancellation_never_reschedules.
Proof.
  intros H.
  eassert (E : _listen (world connected_client
                              [quiet 11 (Raises CancelledError)])
               = Some (Return tt, _)) by (vm_compute; reflexivity).
  assert (R := H _ _ _ _ E). vm_compute in R.
  assert (R' := R ltac:(do 2 right; left; reflexivity)).
  discriminate R'.
Qed.

(** ** The options are never changed *)

Lemma apply_action_config (own : bool) (a : action) (c : IPCClient) :
  config (apply_action own a c) = config c.
Proof.
  unfold config. by_cases_on c a; simpl; auto; destruct own; simpl; auto.
Qed.

Lemma updates_config (c : IPCClient) :
  (forall b, config (set_is_connected b c) = config c)
  /\ (forall b, config (set_is_connecting b c) = config c)
  /\ (forall s, config (set_session s c) = config c)
  /\ (forall s, config (set_websocket s c) = config c)
  /\ (forall t, config (set_task t c) = config c)
  /\ (forall k, config (set_connector k c) = config c)
  /\ (forall m, config (set_metrics m c) = config c).
Proof. destruct c. repeat split. Qed.

Lemma config_max (c c' : IPCClient) :
  config c = config c' ->
  _max_reconnect_attempts c = _max_reconnect_attempts c'.
Proof. unfold config. intros H. inversion H. reflexivity. Qed.

(** X1: no operation of the client ever changes the options it was built
    with - host, port, heartbeat, attempt budget, base delay - whatever the
    awaited calls answer and whatever the other tasks do meanwhile. *)
Theorem configuration_is_kept :
  keeps config connect
  /\ keeps config _attempt_reconnection
  /\ (forall data, keeps config (send data))
  /\ keeps config disconnect
  /\ keeps config _listen.
Proof.
  repeat split.
  - apply keeps_connect; [apply apply_action_config|apply updates_config].
  - apply keeps_attempt_reconnection;
      [apply apply_action_config|apply updates_config].
  - intros data.
    apply keeps_send; [apply apply_action_config|apply updates_config].
  - apply keeps_disconnect; [apply apply_action_config|apply updates_config].
  - apply keeps_listen; [apply apply_action_config|apply updates_config].
Qed.

(** ** Budgets of the coordinator and of [send] *)

Ltac count_all :=
  simpl in *; unfold transmissions, occurrences in *;
  repeat rewrite filter_app in *; repeat rewrite length_app in *;
  simpl in *; lia.

(** X2: one call of the reconnection coordinator makes at most
    [max_reconnect_attempts] handshakes, lets no error out (it returns, or
    is cancelled), and adds one to the cycle counter exactly when it found
    the client neither connected nor connecting. *)
Theorem reconnection_budget (w w' : World) (o : outcome unit) :
  _attempt_reconnection w = Some (o, w') ->
  (occurrences is_handshake (trace w')
   <= occurrences is_handshake (trace w)
      + Z.to_nat (_max_reconnect_attempts (client w)))%nat
  /\ (o = Return tt \/ exists e, o = Raise e /\ is_Exception e = false)
  /\ recon (client w')
     = recon (client w)
       + (if _is_connected (client w) || _is_connecting (client w)
          then 0 else 1).
Proof.
  intros E. destruct (coordinator_run _ _ _ E) as [H1 H2].
  split; [exact H1|]. split; [exact H2|].
  revert E. unfold _attempt_reconnection, bind at 1, get. simpl.
  destruct (_is_connected (client w) || _is_connecting (client w)).
  { intros E; inversion E; subst. lia. }
  unfold bind at 1, modify. simpl. unfold bind at 1.
  match goal with
  | |- context [for_ ?l reconnection_attempt ?w0] =>
    destruct (for_ l reconnection_attempt w0) as [[[r|e] w1]|] eqn:L;
      [| |discriminate];
      pose proof (keeps_for recon l reconnection_attempt
                            steady_reconnection_attempt _ _ _ L) as K;
      unfold recon in K; simpl in K
  end.
  - destruct r; intros E; inversion E; subst; unfold recon; simpl;
      rewrite K; reflexivity.
  - intros E; inversion E; subst. unfold recon. rewrite K. reflexivity.
Qed.

Lemma reconnection_budget_witness :
  exists w',
    _attempt_reconnection (world (init "dashboard" 8000) (all_fail 5))
    = Some (Return tt, w')
    /\ (occurrences is_handshake (trace w') <= 0 + 5)%nat
    /\ recon (client w') = 0 + 1.
Proof.
  eexists.
  eassert (E : _attempt_reconnection
                 (world (init "dashboard" 8000) (all_fail 5))
               = Some (Return tt, _)) by (vm_compute; reflexivity).
  destruct (reconnection_budget _ _ _ E) as (H1 & _ & H3).
  split; [exact E|]. split; [exact H1|exact H3].
Defined.

Lemma retry_rest_no_handshake (data : value) :
  emits_at_most is_handshake 0
    (c <- get ;;
     if truthy (is_connected c) then
       await (Sleep (1 # 2)) ;;
       ws_send_json data ;;
       emit (Log DEBUG "Sent message after reconnection") ;;
       ret (Some true)
     else ret None).
Proof. unfold ws_send_json. repeat zstep. Qed.

Lemma retry_once_handshakes (data : value) (retry : Z) (w w' : World)
      (o : outcome (option bool)) :
  retry_once data retry w = Some (o, w') ->
  (occurrences is_handshake (trace w')
   <= occurrences is_handshake (trace w)
      + Z.to_nat (_max_reconnect_attempts (client w)))%nat
  /\ _max_reconnect_attempts (client w')
     = _max_reconnect_attempts (client w).
Proof.
  intros E. split.
  - revert E. unfold retry_once, try_except. unfold bind at 1.
    destruct (_attempt_reconnection w) as [[[u|e] w1]|] eqn:A;
      [| |discriminate]; destruct (coordinator_run _ _ _ A) as [H _].
    + match goal with
      | |- match ?m w1 with _ => _ end = _ -> _ =>
        destruct (m w1) as [[[x|e] w2]|] eqn:R; [| |discriminate];
          pose proof (retry_rest_no_handshake data _ _ _ R) as H2
      end.
      * intros E; inversion E; subst. lia.
      * destruct (is_Exception e); intros E; inversion E; subst; count_all.
    + destruct (is_Exception e); intros E; inversion E; subst; count_all.
  - apply config_max.
    apply (keeps_retry_once config apply_action_config updates_config
                            data retry _ _ _ E).
Qed.

Lemma handle_reconnect_handshakes (data : value) (w w' : World)
      (o : outcome bool) :
  _handle_reconnect_and_retry data 2 w = Some (o, w') ->
  (occurrences is_handshake (trace w')
   <= occurrences is_handshake (trace w)
      + 2 * Z.to_nat (_max_reconnect_attempts (client w)))%nat.
Proof.
  unfold _handle_reconnect_and_retry.
  change (range 0 2) with [0; 1]. simpl. unfold bind at 1. unfold bind at 1.
  destruct (retry_once data 0 w) as [[[[b|]|e] w1]|] eqn:R1;
    try discriminate;
    destruct (retry_once_handshakes _ _ _ _ _ R1) as [H1 M1].
  - intros E; inversion E; subst. lia.
  - unfold bind at 1.
    destruct (retry_once data 1 w1) as [[[[b|]|e] w2]|] eqn:R2;
      try discriminate;
      destruct (retry_once_handshakes _ _ _ _ _ R2) as [H2 M2];
      rewrite M1 in H2;
      intros E; inversion E; subst; count_all.
  - intros E; inversion E; subst. lia.
Qed.

(** X3: whatever happens, one call of [send] lets no error out (it returns
    a boolean, or is cancelled), calls [send_json] at most 3 times - the
    first transmission and 2 retransmissions - and makes at most
    2 * [max_reconnect_attempts] handshakes. *)
Theorem send_budget (data : value) (w w' : World) (o : outcome bool) :
  send data w = Some (o, w') ->
  ((exists b, o = Return b) \/ exists e, o = Raise e /\ is_Exception e = false)
  /\ (transmissions (trace w') <= transmissions (trace w) + 3)%nat
  /\ (occurrences is_handshake (trace w')
      <= occurrences is_handshake (trace w)
         + 2 * Z.to_nat (_max_reconnect_attempts (client w)))%nat.
Proof.
  unfold send. destruct (is_dict data); simpl.
  2:{ intros E; inversion E; subst.
      split; [left; eauto|]. split; count_all. }
  unfold bind at 1, get. simpl.
  destruct (truthy (is_connected (client w))); simpl.
  2:{ intros E; inversion E; subst.
      split; [left; eauto|]. split; count_all. }
  unfold try_except. unfold bind at 1.
  destruct (ws_send_json data w) as [[[u|e] w1]|] eqn:S; [| |discriminate].
  - (* the transmission went through *)
    pose proof (sends_ws_send_json data _ _ _ S) as T.
    assert (H : emits_at_most is_handshake 0 (ws_send_json data))
      by (unfold ws_send_json; repeat zstep).
    specialize (H _ _ _ S).
    intros E; inversion E; subst.
    split; [left; eauto|]. split; count_all.
  - (* it raised *)
    pose proof (sends_ws_send_json data _ _ _ S) as T.
    assert (H : emits_at_most is_handshake 0 (ws_send_json data))
      by (unfold ws_send_json; repeat zstep).
    specialize (H _ _ _ S).
    assert (M : _max_reconnect_attempts (client w1)
                = _max_reconnect_attempts (client w)).
    { apply config_max.
      apply (keeps_ws_send_json config apply_action_config data _ _ _ S). }
    destruct e; simpl;
      try (intros E; inversion E; subst;
           split; [first [ left; eexists; reflexivity
                         | right; eexists; split; reflexivity ]|];
           split; count_all).
    unfold bind at 1, emit. intros E.
    pose proof (absorbs_handle_reconnect _ _ _ _ E) as A.
    pose proof (sends_handle_reconnect _ _ _ _ E) as B.
    pose proof (handle_reconnect_handshakes _ _ _ _ E) as C.
    simpl in C. rewrite M in C.
    split; [exact A|]. split; count_all.
Qed.

Lemma send_budget_witness :
  exists w',
    send ping
         (world connected_client
                (reset_noticed
                 :: [quiet 25 Done; quiet 26 Done; quiet 27 Done;
                     quiet 28 Done]))
    = Some (Return true, w')
    /\ (transmissions (trace w') <= 0 + 3)%nat.
Proof.
  eexists.
  eassert (E : send ping
                    (world connected_client
                           (reset_noticed
                            :: [quiet 25 Done; quiet 26 Done; quiet 27 Done;
                                quiet 28 Done]))
               = Some (Return true, _)) by (vm_compute; reflexivity).
  destruct (send_budget _ _ _ _ E) as (_ & T & _).
  split; [exact E|exact T].
Defined.

(** ** Attempts of [connect] *)

Ltac open_connect :=
  unfold try_finally, try_except, connect_try, ws_connect, bind, get,
    _create_session, bind, get, await_, bind, suspend, needs_session,
    connector_for, session_over, raise.

Lemma interfere_own_attempts (l : list action) :
  forall c, _is_connecting c = true -> _is_connected c = false ->
    connect_attempts (_metrics (interfere true l c))
    = connect_attempts (_metrics c).
Proof.
  unfold interfere. induction l as [|a l IH]; simpl; intros c H1 H2; auto.
  destruct (apply_action_own_attempt a c H1 H2) as [F1 F2].
  rewrite (IH _ F1 F2). clear IH F1 F2.
  revert H1 H2. by_cases_on c a; simpl; intros; try discriminate; reflexivity.
Qed.

(** X4: a call to [connect] that finds no attempt in flight counts one
    attempt in [connect_attempts] exactly when the client is not already
    connected - whether the handshake then succeeds, fails or is cancelled,
    and whatever the other tasks do meanwhile. *)
Theorem connect_counts_attempts (w w' : World) (o : outcome unit) :
  _is_connecting (client w) = false ->
  connect w = Some (o, w') ->
  connect_attempts (_metrics (client w'))
  = connect_attempts (_metrics (client w))
    + (if _is_connected (client w) then 0 else 1).
Proof.
  intros H1. unfold connect, bind at 1, get. simpl. rewrite H1.
  destruct (_is_connected (client w)) eqn:H2.
  { intros E; inversion E; subst; simpl. lia. }
  unfold bind at 1, modify. simpl. unfold bind at 1. simpl.
  open_connect. simpl.
  destruct (_session (client w)) as [[[|]]|] eqn:Es; simpl;
    try (destruct (_connector (client w)) as [[[|]]|]; simpl);
    try rewrite Es; simpl;
    lazymatch goal with
    | |- context [match script w with _ => _ end] =>
      destruct (script w) as [|r s]; simpl; [discriminate|];
      match goal with
      | |- context [interfere true (during r) ?c] =>
        pose proof (interfere_own_attempts (during r) c eq_refl H2) as I;
          simpl in I
      end;
      destruct (result r) as [|f|m]; simpl; [| |discriminate];
      [|destruct f; simpl;
        try (destruct (Z.eqb status 401); simpl;
             [|destruct (Z.eqb status 403); simpl])];
      intros E; inversion E; subst; simpl; rewrite I; reflexivity
    | |- _ => intros E; inversion E; subst; simpl; reflexivity
    end.
Qed.

Lemma connect_counts_attempts_witness :
  exists w',
    connect (world (init "dashboard" 8000)
                   [quiet 3 (Raises ClientConnectorError)])
    = Some (Raise (ConnectionError
                     "Connection failed - unable to reach dashboard:8000"
                     (Some ClientConnectorError)), w')
    /\ connect_attempts (_metrics (client w')) = 0 + 1.
Proof.
  eexists.
  eassert (E : connect (world (init "dashboard" 8000)
                              [quiet 3 (Raises ClientConnectorError)])
               = Some (Raise _, _)) by (vm_compute; reflexivity).
  split; [exact E|].
  assert (H0 : _is_connecting
                 (client (world (init "dashboard" 8000)
                                [quiet 3 (Raises ClientConnectorError)]))
               = false) by reflexivity.
  exact (connect_counts_attempts _ _ _ H0 E).
Defined.

(** A successful attempt, step by step. *)
Lemma connect_success_run (w : World) (t : timestamp) (s : list reply) :
  _is_connecting (client w) = false -> _is_connected (client w) = false ->
  can_handshake (client w) = true ->
  script w = quiet t Done :: s ->
  exists w',
    connect w = Some (Return tt, w')
    /\ script w' = s
    /\ link_up (client w')
    /\ _is_connecting (client w') = false
    /\ last_connect_time (_metrics (client w')) = Some t
    /\ _task (client w') = Some new_task
    /\ occurrences is_handshake (trace w')
       = S (occurrences is_handshake (trace w))
    /\ occurrences is_create_session (trace w')
       = (occurrences is_create_session (trace w)
          + if needs_session (client w) then 1 else 0)%nat
    /\ connect_attempts (_metrics (client w'))
       = connect_attempts (_metrics (client w)) + 1
    /\ message_count (_metrics (client w'))
       = message_count (_metrics (client w))
    /\ (needs_session (client w) = true ->
        _session (client w') = Some open_session)
    /\ closes (trace w') = closes (trace w)
    /\ recon (client w') = recon (client w)
    /\ config (client w') = config (client w).
Proof.
  intros H1 H2 Hc Hs. unfold connect, bind at 1, get. simpl. rewrite H1, H2.
  unfold bind at 1, modify. simpl. unfold bind at 1. simpl.
  revert Hc. unfold can_handshake. open_connect. unfold link_up. simpl.
  destruct (_session (client w)) as [[[|]]|] eqn:Es; simpl;
    try (destruct (_connector (client w)) as [[[|]]|]; simpl);
    intros Hc; try discriminate Hc;
    try rewrite Es; simpl;
    rewrite Hs; simpl;
    eexists; (split; [reflexivity|]); simpl;
    repeat split; eauto;
    try discriminate;
    unfold occurrences, closes; repeat rewrite filter_app;
    repeat rewrite length_app; simpl;
    repeat rewrite app_nil_r; try reflexivity; lia.
Qed.

(** X5: on a client that is neither connected nor connecting, and whose
    session can carry a handshake (it holds an open session, or the session
    to be created is built over no closed connector), a handshake that
    succeeds leaves the connectivity predicate true: the socket is
    installed, the listener task created, the connect time stamped and the
    Connecting flag cleared, after exactly one handshake; a session is
    created only if the client had none, or a closed one. *)
Theorem connect_establishes_link (c : IPCClient) (t : timestamp)
        (s : list reply) :
  _is_connecting c = false -> _is_connected c = false ->
  can_handshake c = true ->
  exists w',
    connect (world c (quiet t Done :: s)) = Some (Return tt, w')
    /\ script w' = s
    /\ truthy (is_connected (client w')) = true
    /\ _is_connecting (client w') = false
    /\ last_connect_time (_metrics (client w')) = Some t
    /\ _task (client w') = Some new_task
    /\ occurrences is_handshake (trace w') = 1%nat
    /\ occurrences is_create_session (trace w')
       = (if needs_session c then 1 else 0)%nat.
Proof.
  intros H1 H2 H3.
  destruct (connect_success_run (world c (quiet t Done :: s)) t s H1 H2 H3
                                 eq_refl)
    as (w' & E & S & L & F & T & K & N & M & _).
  exists w'. repeat split; auto.
  unfold is_connected. destruct L as (L1 & (ws & L2 & L3) & (ss & L4 & L5)).
  rewrite L1, L2, L3, L4, L5. reflexivity.
Qed.

Lemma connect_establishes_link_witness :
  exists w',
    connect (world (init "dashboard" 8000) (quiet 3 Done :: [])) =
    Some (Return tt, w')
    /\ truthy (is_connected (client w')) = true.
Proof.
  destruct (connect_establishes_link (init "dashboard" 8000) 3 []
                                     eq_refl eq_refl eq_refl)
    as (w' & E & _ & L & _).
  exists w'. split; [exact E|exact L].
Defined.

(** An attempt that finds an open session creates neither session nor
    connector. *)
Lemma connect_reuses_session (w w' : World) (o : outcome unit) :
  _is_connecting (client w) = false ->
  session_open (client w) = true ->
  connect w = Some (o, w') ->
  occurrences is_session_creation (trace w')
  = occurrences is_session_creation (trace w).
Proof.
  intros H1 Hs.
  unfold connect, bind at 1, get. simpl. rewrite H1.
  destruct (_is_connected (client w)) eqn:H2.
  { intros E; inversion E; subst; simpl.
    unfold occurrences. rewrite filter_app, length_app. simpl. lia. }
  unfold bind at 1, modify. simpl. unfold bind at 1. simpl.
  open_connect. simpl.
  unfold session_open in Hs.
  destruct (_session (client w)) as [[[|]]|] eqn:Es; simpl in Hs;
    try discriminate; simpl.
  rewrite Es. simpl.
  destruct (script w) as [|r s]; simpl; [discriminate|].
  destruct (result r) as [|f|m]; simpl; [| |discriminate];
    [|destruct f; simpl;
      try (destruct (Z.eqb status 401); simpl;
           [|destruct (Z.eqb status 403); simpl])];
    intros E; inversion E; subst; simpl;
    unfold occurrences; repeat rewrite filter_app;
    repeat rewrite length_app; simpl; lia.
Qed.

(** A failed attempt, step by step. *)
Lemma connect_failure_run (w : World) (t : timestamp) (f : exn)
      (s : list reply) :
  _is_connecting (client w) = false -> _is_connected (client w) = false ->
  can_handshake (client w) = true ->
  script w = quiet t (Raises f) :: s ->
  exists e w',
    connect w = Some (Raise e, w')
    /\ script w' = s
    /\ is_Exception e = is_Exception f
    /\ _is_connecting (client w') = false
    /\ _is_connected (client w') = false
    /\ session_open (client w') = true
    /\ (needs_session (client w) = true -> connector_open (client w') = true)
    /\ _websocket (client w') = _websocket (client w)
    /\ _task (client w') = _task (client w)
    /\ closes (trace w') = closes (trace w)
    /\ occurrences is_handshake (trace w')
       = S (occurrences is_handshake (trace w))
    /\ _metrics (client w') = incr_connect_attempts (_metrics (client w))
    /\ config (client w') = config (client w).
Proof.
  intros H1 H2 Hc Hs.
  unfold connect, bind at 1, get. simpl. rewrite H1, H2.
  unfold bind at 1, modify. simpl. unfold bind at 1. simpl.
  revert Hc. unfold can_handshake. open_connect.
  unfold session_open, connector_open. simpl.
  destruct (_session (client w)) as [[[|]]|] eqn:Es; simpl;
    try (destruct (_connector (client w)) as [[[|]]|] eqn:Ek; simpl);
    intros Hc; try discriminate Hc;
    try rewrite Es; simpl;
    rewrite Hs; simpl;
    destruct f; simpl;
    try (destruct (Z.eqb status 401); simpl;
         [|destruct (Z.eqb status 403); simpl]);
    do 2 eexists; (split; [reflexivity|]); simpl;
    try rewrite Es; try rewrite Ek; simpl;
    repeat split; auto; intros; try congruence;
    unfold occurrences, closes; repeat rewrite filter_app;
    repeat rewrite length_app; simpl;
    repeat rewrite app_nil_r; try reflexivity; lia.
Qed.

(** X6: a failed attempt cleans nothing up. On a client whose session can
    carry a handshake (it holds an open session, or the session to be
    created is built over no closed connector), when the handshake raises
    - an error or a cancellation - [connect] raises with that session left
    open on the client (and an open connector, if it had to create the
    session), no closing call made, socket and task untouched; and the next
    attempt, whatever its reply, creates neither session nor connector: it
    reuses the ones left behind. *)
Theorem failed_attempt_keeps_session (c : IPCClient) (t : timestamp)
        (f : exn) (s : list reply) :
  _is_connecting c = false -> _is_connected c = false ->
  can_handshake c = true ->
  exists e w',
    connect (world c (quiet t (Raises f) :: s)) = Some (Raise e, w')
    /\ session_open (client w') = true
    /\ can_handshake (client w') = true
    /\ (needs_session c = true -> connector_open (client w') = true)
    /\ _websocket (client w') = _websocket c
    /\ _task (client w') = _task c
    /\ closes (trace w') = []
    /\ forall (s' : list reply) (o : outcome unit) (w'' : World),
        connect (world (client w') s') = Some (o, w'') ->
        occurrences is_session_creation (trace w'') = 0%nat.
Proof.
  intros H1 H2 H3.
  destruct (connect_failure_run (world c (quiet t (Raises f) :: s)) t f s
                                 H1 H2 H3 eq_refl)
    as (e & w' & E & _ & _ & F1 & _ & So & K & Ws & T & Cl & _).
  exists e, w'. repeat split; auto.
  - unfold can_handshake, needs_session. unfold session_open in So.
    destruct (_session (client w')) as [[[|]]|]; try discriminate So.
    reflexivity.
  - intros s' o w'' E'.
    apply (connect_reuses_session (world (client w') s')) in E'; auto.
Qed.

Lemma failed_attempt_keeps_session_witness :
  exists e w',
    connect (world (init "dashboard" 8000)
                   (quiet 3 (Raises ClientConnectorError) :: [])) =
    Some (Raise e, w')
    /\ session_open (client w') = true.
Proof.
  destruct (failed_attempt_keeps_session (init "dashboard" 8000) 3
              ClientConnectorError [] eq_refl eq_refl eq_refl)
    as (e & w' & E & S & _).
  exists e, w'. split; [exact E|exact S].
Defined.

Lemma disconnect_creates_nothing :
  emits_at_most is_create_session 0 disconnect.
Proof.
  unfold disconnect, cancel_listener, drop_websocket, drop_session,
    drop_connector.
  repeat first [ zstep
               | apply emits_try_except_n;
                 [|unfold warn_on_error; zhandler] ].
Qed.

Lemma released_fields (b : bool) (c : IPCClient) :
  needs_session (released_if b c) = true
  /\ _is_connecting (released_if b c) = _is_connecting c
  /\ _metrics (released_if b c) = _metrics c.
Proof.
  unfold released_if, needs_session, task_live, ws_open, session_open,
    connector_open, close_connector.
  destruct c as [h p hb ed ing mx rd ses ws tk cn mt]. simpl.
  destruct b, tk as [[[|]]|], ws as [[[|]]|], ses as [[[|]]|],
           cn as [[[|]]|];
    simpl; repeat split; reflexivity.
Qed.

(** Nothing the other tasks do revives a spent client. *)
Lemma apply_action_spent (own : bool) (a : action) (c : IPCClient) :
  spent c -> spent (apply_action own a c).
Proof.
  unfold spent, can_handshake. intros (H1 & H2 & H3). revert H1 H2 H3.
  by_cases_on c a; simpl; intros; try discriminate; repeat split;
    reflexivity.
Qed.

Lemma interfere_spent (own : bool) (l : list action) :
  forall c, spent c -> spent (interfere own l c).
Proof.
  unfold interfere. induction l as [|a l IH]; simpl; intros c H; auto.
  apply IH, apply_action_spent, H.
Qed.

(** On a spent client [connect] fails before it makes a handshake. *)
Lemma connect_on_spent (w : World) :
  spent (client w) ->
  exists w',
    connect w = Some (Raise RuntimeError, w')
    /\ script w' = script w
    /\ occurrences is_handshake (trace w')
       = occurrences is_handshake (trace w)
    /\ closes (trace w') = closes (trace w)
    /\ sleeps (trace w') = sleeps (trace w)
    /\ occurrences is_create_session (trace w')
       = S (occurrences is_create_session (trace w))
    /\ spent (client w').
Proof.
  unfold spent, can_handshake. intros (H1 & H2 & H3). revert H3.
  unfold connect, bind at 1, get. simpl. rewrite H1, H2.
  unfold bind at 1, modify. simpl. unfold bind at 1. simpl.
  open_connect. simpl.
  destruct (_session (client w)) as [[[|]]|] eqn:Es; simpl;
    try (destruct (_connector (client w)) as [[[|]]|] eqn:Ek; simpl);
    intros H3; try discriminate H3;
    try rewrite Es; simpl;
    eexists; (split; [reflexivity|]); simpl;
    try rewrite Es; try rewrite Ek; simpl;
    repeat split; auto;
    sleeps_norm;
    unfold occurrences, closes; repeat rewrite filter_app;
    repeat rewrite length_app; simpl;
    repeat rewrite app_nil_r; try reflexivity; lia.
Qed.

Lemma released_spent (c : IPCClient) :
  _is_connecting c = false -> session_open c = true -> _connector c <> None ->
  _session (released_if true c) = None
  /\ _connector (released_if true c) = Some closed_connector
  /\ spent (released_if true c).
Proof.
  unfold spent, can_handshake, released_if, needs_session, connector_for,
    task_live, ws_open, session_open, connector_open, close_connector.
  destruct c as [h p hb ed ing mx rd ses ws tk cn mt]. simpl.
  intros -> Hs Hk. revert Hs Hk.
  destruct tk as [[[|]]|], ws as [[[|]]|], ses as [[[|]]|], cn as [[[|]]|];
    simpl; intros; try discriminate; try congruence; repeat split;
    reflexivity.
Qed.

(** X7: a client that held an open session cannot be connected again after
    [disconnect]. The close of the session, when it returns, has closed the
    connector the session was built over; line 327 finds it closed and
    leaves it on the client. The [connect] that follows builds its session
    over that connector, so the session is closed from the start and the
    handshake raises RuntimeError before anything is awaited. The client is
    then spent: whatever the other tasks do, every later [connect] fails
    in the same way, without a handshake. *)
Theorem no_reconnect_after_disconnect (c : IPCClient) (f : faults)
        (s : list reply) :
  injected f = true -> _is_connecting c = false ->
  session_open c = true -> _connector c <> None ->
  on_session_close f = Done ->
  exists w',
    (disconnect ;; connect) (world c (closing_script c f ++ s))
    = Some (Raise RuntimeError, w')
    /\ script w' = s
    /\ closes (trace w') = closing_calls f c
    /\ occurrences is_handshake (trace w') = 0%nat
    /\ _connector (client w') = Some closed_connector
    /\ spent (client w')
    /\ forall c', spent c' ->
         (forall own l, spent (interfere own l c'))
         /\ forall s', exists w'',
             connect (world c' s') = Some (Raise RuntimeError, w'')
             /\ script w'' = s'
             /\ occurrences is_handshake (trace w'') = 0%nat
             /\ spent (client w'').
Proof.
  intros Hf Hc Hs Hk Hd.
  destruct (disconnect_run c f s Hf) as (w1 & E1 & S1 & C1 & K1).
  rewrite Hd in K1. simpl in K1.
  destruct (released_spent c Hc Hs Hk) as (R1 & R2 & R3).
  assert (Z1 : emits_at_most is_handshake 0 disconnect).
  { unfold disconnect, cancel_listener, drop_websocket, drop_session,
      drop_connector.
    repeat first [ zstep
                 | apply emits_try_except_n;
                   [|unfold warn_on_error; zhandler] ]. }
  specialize (Z1 _ _ _ E1). simpl in Z1.
  destruct (connect_on_spent w1) as (w' & E & S & H & Cl & _ & _ & Sp).
  { rewrite K1. exact R3. }
  exists w'. unfold bind. rewrite E1.
  split; [exact E|]. split; [congruence|]. split; [congruence|].
  split; [lia|].
  assert (K : _connector (client w') = Some closed_connector).
  { destruct Sp as (_ & _ & Sp). revert Sp.
    unfold can_handshake, connector_for, closed_connector.
    destruct (_connector (client w')) as [[[|]]|];
      destruct (needs_session (client w')); simpl; intros; try discriminate;
      reflexivity. }
  split; [exact K|]. split; [exact Sp|].
  intros c' Hc'. split; [intros own l; apply interfere_spent, Hc'|].
  intros s'. destruct (connect_on_spent (world c' s') Hc')
    as (w'' & E' & S' & H' & _ & _ & _ & Sp').
  exists w''. repeat split; auto; apply Sp'.
Qed.

Lemma no_reconnect_after_disconnect_witness :
  exists w',
    (disconnect ;; connect)
      (world connected_client
             [quiet 0 (Raises CancelledError); quiet 0 Done; quiet 0 Done;
              quiet 7 Done])
    = Some (Raise RuntimeError, w')
    /\ script w' = [quiet 7 Done]
    /\ closes (trace w') = [TaskCancel; WsClose; SessionClose].
Proof.
  destruct (no_reconnect_after_disconnect connected_client
              {| on_task_wait := Raises CancelledError;
                 on_ws_close := Done;
                 on_session_close := Done;
                 on_connector_close := Done |} [quiet 7 Done]
              eq_refl eq_refl eq_refl ltac:(discriminate) eq_refl)
    as (w' & E & S & C & _).
  exists w'. split; [exact E|]. split; [exact S|exact C].
Defined.

(** ** Invariants of the client along a run *)

Section Confined.
Variable P : IPCClient -> Prop.
Variable Q : list reply -> Prop.
Variable p : effect -> bool.
Hypothesis reply_keeps :
  forall own r s c, Q (r :: s) -> P c ->
                    Q s /\ P (interfere own (during r) c).

Lemma confined_ret {A} (a : A) : confined P Q p (ret a).
Proof. intros w o w' Hp Hq E. inversion E; subst. auto. Qed.

Lemma confined_raise {A} (e : exn) : confined P Q p (@raise A e).
Proof. intros w o w' Hp Hq E. inversion E; subst. auto. Qed.

Lemma confined_time : confined P Q p time_time.
Proof. intros w o w' Hp Hq E. inversion E; subst. auto. Qed.

Lemma confined_get : confined P Q p get.
Proof. intros w o w' Hp Hq E. inversion E; subst. auto. Qed.

Lemma confined_emit (e : effect) : p e = false -> confined P Q p (emit e).
Proof.
  intros He w o w' Hp Hq E. inversion E; subst. simpl.
  rewrite occurrences_app, occurrences_one, He. repeat split; auto.
Qed.

Lemma confined_modify (g : IPCClient -> IPCClient) :
  (forall c, P c -> P (g c)) -> confined P Q p (modify g).
Proof. intros H w o w' Hp Hq E. inversion E; subst. simpl. auto. Qed.

Lemma confined_await (own : bool) (e : effect) :
  p e = false -> confined P Q p (await_ own e).
Proof.
  intros He w o w' Hp Hq. unfold await_, bind, suspend.
  destruct (script w) as [|r s] eqn:S; [discriminate|].
  destruct (reply_keeps own r s (client w) Hq Hp) as [Hq' Hp'].
  destruct (result r); simpl; intros E; inversion E; subst; simpl;
    rewrite occurrences_app, occurrences_one, He; repeat split; auto.
Qed.

Lemma confined_await_frame (e : effect) :
  p e = false -> confined P Q p (await_frame e).
Proof.
  intros He w o w' Hp Hq. unfold await_frame, bind, suspend.
  destruct (script w) as [|r s] eqn:S; [discriminate|].
  destruct (reply_keeps false r s (client w) Hq Hp) as [Hq' Hp'].
  destruct (result r); simpl; intros E; inversion E; subst; simpl;
    rewrite occurrences_app, occurrences_one, He; repeat split; auto.
Qed.

Lemma confined_bind {A C} (m : Coro A) (k : A -> Coro C) :
  confined P Q p m -> (forall a, confined P Q p (k a)) ->
  confined P Q p (bind m k).
Proof.
  intros Hm Hk w o w' Hp Hq. unfold bind.
  destruct (m w) as [[[a|e] w1]|] eqn:M; try discriminate.
  - destruct (Hm _ _ _ Hp Hq M) as (P1 & Q1 & T1).
    intros E. destruct (Hk a _ _ _ P1 Q1 E) as (P2 & Q2 & T2).
    repeat split; auto. congruence.
  - intros E; inversion E; subst. apply (Hm _ _ _ Hp Hq M).
Qed.

(** After [get] the continuation may use what the invariant says of the
    client it was handed. *)
Lemma confined_get_bind {C} (k : IPCClient -> Coro C) :
  (forall c, P c -> confined P Q p (k c)) -> confined P Q p (bind get k).
Proof.
  intros Hk w o w' Hp Hq. unfold bind, get. apply Hk; assumption.
Qed.

Lemma confined_try_except {A} (body : Coro A) (h : exn -> option (Coro A)) :
  confined P Q p body ->
  (forall e k, h e = Some k -> confined P Q p k) ->
  confined P Q p (try_except body h).
Proof.
  intros Hb Hh w o w' Hp Hq. unfold try_except.
  destruct (body w) as [[[a|e] w1]|] eqn:M; try discriminate.
  - intros E; inversion E; subst. apply (Hb _ _ _ Hp Hq M).
  - destruct (Hb _ _ _ Hp Hq M) as (P1 & Q1 & T1).
    destruct (h e) as [k|] eqn:K.
    + intros E. destruct (Hh _ _ K _ _ _ P1 Q1 E) as (P2 & Q2 & T2).
      repeat split; auto. congruence.
    + intros E; inversion E; subst. auto.
Qed.

Lemma confined_try_finally {A} (body : Coro A) (fin : Coro unit) :
  confined P Q p body -> confined P Q p fin ->
  confined P Q p (try_finally body fin).
Proof.
  intros Hb Hf w o w' Hp Hq. unfold try_finally.
  destruct (body w) as [[o1 w1]|] eqn:M; try discriminate.
  destruct (Hb _ _ _ Hp Hq M) as (P1 & Q1 & T1).
  destruct (fin w1) as [[[u|e] w2]|] eqn:F; try discriminate;
    destruct (Hf _ _ _ P1 Q1 F) as (P2 & Q2 & T2);
    intros E; inversion E; subst; repeat split; auto; congruence.
Qed.

Lemma confined_while (cond : IPCClient -> bool) (body : Coro ctl) :
  confined P Q p body -> confined P Q p (while cond body).
Proof.
  intros Hb.
  assert (L : forall n, confined P Q p (while_ n cond body)).
  { induction n as [|n IH]; intros w o w' Hp Hq; simpl;
      destruct (cond (client w)); try discriminate;
      try (intros E; inversion E; subst; auto; fail).
    revert Hp Hq. apply confined_bind; [exact Hb|].
    intros [|]; [exact IH|apply confined_ret]. }
  intros w o w'. unfold while. apply L.
Qed.

Lemma confined_for {A R} (l : list A) (body : A -> Coro (option R)) :
  (forall a, confined P Q p (body a)) -> confined P Q p (for_ l body).
Proof.
  intros Hb. induction l as [|a l IH]; simpl.
  - apply confined_ret.
  - apply confined_bind; [apply Hb|].
    intros [x|]; [apply confined_ret|exact IH].
Qed.
End Confined.

(** One step of a proof of [confined]; [use] puts the invariant just read
    off the client to work. *)
Ltac cstep R use upd :=
  match goal with
  | |- confined _ _ _ (bind get _) =>
    apply confined_get_bind;
    let c := fresh "c" in let Hc := fresh "Hc" in intros c Hc; use Hc
  | |- confined _ _ _ (bind _ _) => apply (confined_bind _ _ _); [|intro]
  | |- confined _ _ _ (ret _) => apply confined_ret
  | |- confined _ _ _ (raise _) => apply confined_raise
  | |- confined _ _ _ get => apply confined_get
  | |- confined _ _ _ time_time => apply confined_time
  | |- confined _ _ _ (emit _) => apply confined_emit; reflexivity
  | |- confined _ _ _ (modify _) => apply confined_modify; upd
  | |- confined _ _ _ (await_ _ _) =>
    apply (confined_await _ _ _ R); reflexivity
  | |- confined _ _ _ (await _) =>
    apply (confined_await _ _ _ R); reflexivity
  | |- confined _ _ _ (await_frame _) =>
    apply (confined_await_frame _ _ _ R); reflexivity
  | |- confined _ _ _ (try_finally _ _) => apply confined_try_finally
  | |- confined _ _ _ (while _ _) => apply confined_while
  | |- confined _ _ _ (for_ _ _) => apply confined_for; intro
  | |- confined _ _ _ (if ?b then _ else _) => destruct b eqn:?
  | |- confined _ _ _ (match ?x with _ => _ end) => destruct x eqn:?
  end.

Ltac chandler R use upd :=
  let e := fresh "e" in
  let k := fresh "k" in
  let K := fresh "K" in
  intros e k K;
  repeat match type of K with
         | (match ?x with _ => _ end) = Some _ => destruct x
         | (if ?b then _ else _) = Some _ => destruct b
         end;
  inversion K; subst; repeat cstep R use upd.

(** ** A closed connector *)

Lemma apply_action_stale (k : TCPConnector) (own : bool) (a : action)
      (c : IPCClient) :
  stale_connector k c -> stale_connector k (apply_action own a c).
Proof.
  unfold stale_connector. intros [H1 H2].
  destruct c as [h p hb ed ing mx rd ses ws tk cn mt]. simpl in H1. subst cn.
  destruct k as [kc]. simpl in H2. subst kc.
  destruct ses as [[[|]]|], ws as [[[|]]|], tk as [[[|]]|], ed, ing, own;
    destruct a as [| | | |[|] t|]; split; reflexivity.
Qed.

Lemma close_connector_stale (k : TCPConnector) (c : IPCClient) :
  stale_connector k c -> stale_connector k (close_connector c).
Proof.
  unfold stale_connector, close_connector. intros [H1 H2]. rewrite H1. simpl.
  destruct k as [[|]]; simpl in *; [split; reflexivity|discriminate].
Qed.

Lemma interfere_stale (k : TCPConnector) (own : bool) (l : list action) :
  forall c, stale_connector k c -> stale_connector k (interfere own l c).
Proof.
  unfold interfere. induction l as [|a l IH]; simpl; intros c H; auto.
  apply IH. apply apply_action_stale. exact H.
Qed.

Section Stale.
Variable k : TCPConnector.

Lemma stale_reply :
  forall own r s c,
    any_script (r :: s) -> stale_connector k c ->
    any_script s /\ stale_connector k (interfere own (during r) c).
Proof.
  intros own r s c _ H. split; [exact I|]. apply interfere_stale. exact H.
Qed.

Ltac stale_use H :=
  let H1 := fresh "Hk" in
  let H2 := fresh "Hcl" in
  pose proof H as [H1 H2]; try rewrite H1; try rewrite H2; simpl.

Ltac stale_upd :=
  let c := fresh "c" in
  let H := fresh "H" in
  intros c H; first [ exact H | apply close_connector_stale; exact H ].

Ltac sstep := cstep stale_reply stale_use stale_upd.

Lemma stale_connect : confined (stale_connector k) any_script is_create_connector connect.
Proof.
  unfold connect. repeat sstep.
  apply confined_try_except.
  - unfold connect_try, _create_session, ws_connect. repeat sstep.
  - unfold connect_handlers. chandler stale_reply stale_use stale_upd.
Qed.

Ltac shandler := chandler stale_reply stale_use stale_upd.

Lemma stale_reconnection_attempt (a : Z) :
  confined (stale_connector k) any_script is_create_connector (reconnection_attempt a).
Proof.
  unfold reconnection_attempt. apply confined_try_except.
  - apply confined_get_bind; intros c Hc.
    apply (confined_bind _ _ _); [sstep|intro].
    apply (confined_bind _ _ _); [sstep|intro].
    apply (confined_bind _ _ _); [apply stale_connect|intro].
    repeat sstep.
  - shandler.
Qed.

Lemma stale_attempt_reconnection :
  confined (stale_connector k) any_script is_create_connector _attempt_reconnection.
Proof.
  unfold _attempt_reconnection.
  apply confined_get_bind; intros c Hc.
  destruct (_is_connected c || _is_connecting c); [sstep|].
  apply (confined_bind _ _ _); [sstep|intro].
  apply (confined_bind _ _ _);
    [apply confined_for; intro; apply stale_reconnection_attempt|].
  intros [u|]; sstep.
Qed.

Lemma stale_ws_send_json (data : value) :
  confined (stale_connector k) any_script is_create_connector (ws_send_json data).
Proof. unfold ws_send_json. repeat sstep. Qed.

Lemma stale_retry_once (data : value) (retry : Z) :
  confined (stale_connector k) any_script is_create_connector (retry_once data retry).
Proof.
  unfold retry_once. apply confined_try_except.
  - apply (confined_bind _ _ _); [apply stale_attempt_reconnection|intro].
    apply confined_get_bind; intros c Hc.
    destruct (truthy (is_connected c)); [|sstep].
    apply (confined_bind _ _ _); [sstep|intro].
    apply (confined_bind _ _ _); [apply stale_ws_send_json|intro].
    repeat sstep.
  - shandler.
Qed.

Lemma stale_handle_reconnect (data : value) (n : Z) :
  confined (stale_connector k) any_script is_create_connector (_handle_reconnect_and_retry data n).
Proof.
  unfold _handle_reconnect_and_retry.
  apply (confined_bind _ _ _);
    [apply confined_for; intro; apply stale_retry_once|].
  intros [b|]; repeat sstep.
Qed.

Lemma stale_send (data : value) :
  confined (stale_connector k) any_script is_create_connector (send data).
Proof.
  unfold send. destruct (negb (is_dict data)); [repeat sstep|].
  apply confined_get_bind; intros c Hc.
  destruct (negb (truthy (is_connected c))); [repeat sstep|].
  apply confined_try_except.
  - apply (confined_bind _ _ _); [apply stale_ws_send_json|intro].
    repeat sstep.
  - intros e h K.
    destruct e; simpl in K; inversion K; subst;
      try (apply (confined_bind _ _ _);
           [sstep|intro; first [apply stale_handle_reconnect|sstep]]).
Qed.

Lemma stale_disconnect : confined (stale_connector k) any_script is_create_connector disconnect.
Proof.
  unfold disconnect, cancel_listener, drop_websocket, drop_session,
    drop_connector.
  repeat first [ sstep
               | apply confined_try_except;
                 [|unfold warn_on_error; shandler] ].
Qed.

Lemma stale_listen_body : confined (stale_connector k) any_script is_create_connector listen_body.
Proof.
  unfold listen_body. apply confined_try_except.
  - repeat first [ sstep | apply confined_try_except; [|shandler] ].
  - shandler.
Qed.

Lemma stale_listen : confined (stale_connector k) any_script is_create_connector _listen.
Proof.
  unfold _listen. repeat sstep. apply stale_listen_body.
Qed.
End Stale.

(** X8: a connector that is closed but still held is never replaced and
    never dropped. Whatever the awaited calls answer and whatever the other
    tasks do meanwhile, [connect], the reconnection coordinator, [send],
    [disconnect] and the listener leave it on the client and create no
    connector: [_create_session] tests the connector for presence only, and
    [disconnect] lets go of open connectors only. *)
Theorem closed_connector_is_kept (k : TCPConnector) (w w' : World) :
  stale_connector k (client w) ->
  let kept :=
      stale_connector k (client w')
      /\ occurrences is_create_connector (trace w')
         = occurrences is_create_connector (trace w) in
  (forall o, connect w = Some (o, w') -> kept)
  /\ (forall o, _attempt_reconnection w = Some (o, w') -> kept)
  /\ (forall data o, send data w = Some (o, w') -> kept)
  /\ (forall o, disconnect w = Some (o, w') -> kept)
  /\ (forall o, _listen w = Some (o, w') -> kept).
Proof.
  intros H kept. unfold kept.
  repeat split.
  all: match goal with
       | E : connect _ = _ |- _ =>
         destruct (stale_connect k _ _ _ H I E) as (H1 & _ & H2)
       | E : _attempt_reconnection _ = _ |- _ =>
         destruct (stale_attempt_reconnection k _ _ _ H I E) as (H1 & _ & H2)
       | E : send _ _ = _ |- _ =>
         destruct (stale_send k _ _ _ _ H I E) as (H1 & _ & H2)
       | E : disconnect _ = _ |- _ =>
         destruct (stale_disconnect k _ _ _ H I E) as (H1 & _ & H2)
       | E : _listen _ = _ |- _ =>
         destruct (stale_listen k _ _ _ H I E) as (H1 & _ & H2)
       end.
  all: first [ exact H2 | apply H1 ].
Qed.

Lemma closed_connector_is_kept_witness :
  exists w',
    connect (world (released connected_client) [quiet 3 Done])
    = Some (Raise RuntimeError, w')
    /\ stale_connector closed_connector (client w')
    /\ occurrences is_create_connector (trace w') = 0%nat.
Proof.
  eexists.
  eassert (E : connect (world (released connected_client) [quiet 3 Done])
               = Some (Raise RuntimeError, _)) by (vm_compute; reflexivity).
  assert (S : stale_connector closed_connector
             (client (world (released connected_client) [quiet 3 Done])))
    by (split; reflexivity).
  match type of E with
  | _ = Some (_, ?w1) => pose proof (closed_connector_is_kept _ _ w1 S) as H
  end.
  simpl in H. destruct H as (H & _).
  split; [exact E|]. exact (H _ E).
Defined.

(** ** [send] on its own *)

Section Alone.
Variable c0 : IPCClient.
Hypothesis live : truthy (is_connected c0) = true.

Lemma alone_reply :
  forall own r s c,
    quiet_script (r :: s) -> is_client c0 c ->
    quiet_script s /\ is_client c0 (interfere own (during r) c).
Proof.
  intros own r s c H Hc. inversion H as [|r' s' Hr Hs]; subst.
  split; [exact Hs|]. rewrite Hr. exact Hc.
Qed.

Lemma live_flag : _is_connected c0 = true.
Proof.
  pose proof live as L. revert L. unfold is_connected.
  destruct (_is_connected c0); [reflexivity|discriminate].
Qed.

Lemma live_socket : exists ws, _websocket c0 = Some ws.
Proof.
  pose proof live as L. revert L.
  unfold is_connected. rewrite live_flag. simpl.
  destruct (_websocket c0) as [ws|]; [eauto|discriminate].
Qed.

Ltac alone_use H :=
  unfold is_client in H; subst;
  try rewrite live; try rewrite live_flag; simpl.

Ltac alone_upd := fail.

Ltac astep := cstep alone_reply alone_use alone_upd.

Lemma alone_attempt_reconnection :
  confined (is_client c0) quiet_script is_handshake _attempt_reconnection.
Proof. unfold _attempt_reconnection. repeat astep. Qed.

Lemma alone_ws_send_json (data : value) :
  confined (is_client c0) quiet_script is_handshake (ws_send_json data).
Proof.
  unfold ws_send_json. destruct live_socket as [ws Hws].
  apply confined_get_bind; intros c Hc. unfold is_client in Hc. subst.
  rewrite Hws. astep.
Qed.

Lemma alone_retry_once (data : value) (retry : Z) :
  confined (is_client c0) quiet_script is_handshake (retry_once data retry).
Proof.
  unfold retry_once. apply confined_try_except.
  - apply (confined_bind _ _ _); [apply alone_attempt_reconnection|intro].
    astep.
    apply (confined_bind _ _ _); [astep|intro].
    apply (confined_bind _ _ _); [apply alone_ws_send_json|intro].
    repeat astep.
  - chandler alone_reply alone_use alone_upd.
Qed.

Lemma alone_send (data : value) :
  confined (is_client c0) quiet_script is_handshake (send data).
Proof.
  unfold send. destruct (negb (is_dict data)); [repeat astep|].
  astep.
  apply confined_try_except.
  - apply (confined_bind _ _ _); [apply alone_ws_send_json|intro].
    repeat astep.
  - intros e h K.
    destruct e; simpl in K; inversion K; subst;
      try (apply (confined_bind _ _ _); [astep|intro; try astep]).
    unfold _handle_reconnect_and_retry.
    apply (confined_bind _ _ _);
      [apply confined_for; intro; apply alone_retry_once|].
    intros [b|]; repeat astep.
Qed.
End Alone.

(** X9: [send] on its own never re-establishes a link. On a client whose
    connectivity predicate holds, and as long as no other task touches the
    client during the awaits, [send] makes no handshake and leaves the
    client as it found it, however the transmissions end: after a
    [ConnectionResetError] the coordinator finds the Connected flag still
    set and returns at once, and the retries go out over the same socket. *)
Theorem send_alone_never_reconnects (data : value) (w w' : World)
        (o : outcome bool) :
  truthy (is_connected (client w)) = true ->
  quiet_script (script w) ->
  send data w = Some (o, w') ->
  client w' = client w
  /\ occurrences is_handshake (trace w') = occurrences is_handshake (trace w)
  /\ recon (client w') = recon (client w).
Proof.
  intros L Hq E.
  destruct (alone_send (client w) L data w o w' eq_refl Hq E) as (H1 & _ & H2).
  rewrite H1. auto.
Qed.

Lemma send_alone_never_reconnects_witness :
  exists w',
    send ping (world connected_client
                     [quiet 20 (Raises ConnectionResetError);
                      quiet 21 Done;
                      quiet 22 (Raises ConnectionResetError);
                      quiet 23 Done;
                      quiet 24 (Raises ConnectionResetError)])
    = Some (Return false, w')
    /\ client w' = connected_client
    /\ occurrences is_handshake (trace w') = 0%nat.
Proof.
  eexists.
  eassert (E : send ping
                    (world connected_client
                           [quiet 20 (Raises ConnectionResetError);
                            quiet 21 Done;
                            quiet 22 (Raises ConnectionResetError);
                            quiet 23 Done;
                            quiet 24 (Raises ConnectionResetError)])
               = Some (Return false, _)) by (vm_compute; reflexivity).
  assert (Q : quiet_script
                [quiet 20 (Raises ConnectionResetError);
                 quiet 21 Done;
                 quiet 22 (Raises ConnectionResetError);
                 quiet 23 Done;
                 quiet 24 (Raises ConnectionResetError)])
    by (repeat constructor).
  assert (L : truthy (is_connected connected_client) = true)
    by reflexivity.
  destruct (send_alone_never_reconnects _ (world connected_client _) _ _
                                        L Q E) as (H1 & H2 & _).
  split; [exact E|]. split; [exact H1|exact H2].
Defined.

(** ** The attempts of a cycle, one by one *)

Lemma open_can_handshake (c : IPCClient) :
  session_open c = true -> can_handshake c = true.
Proof.
  unfold session_open, can_handshake, needs_session.
  destruct (_session c) as [[[|]]|]; simpl; intros; try discriminate;
    reflexivity.
Qed.

Lemma failed_turn (a : Z) (w : World) (f : exn) (s : list reply) :
  idle (client w) -> can_handshake (client w) = true ->
  is_Exception f = true ->
  script w = quiet 0 Done :: quiet 0 (Raises f) :: s ->
  exists w',
    reconnection_attempt a w = Some (Return None, w')
    /\ script w' = s
    /\ idle (client w')
    /\ occurrences is_handshake (trace w')
       = S (occurrences is_handshake (trace w))
    /\ _metrics (client w') = incr_connect_attempts (_metrics (client w))
    /\ config (client w') = config (client w)
    /\ session_open (client w') = true.
Proof.
  intros [I1 I2] Hc Hf Hs.
  unfold reconnection_attempt, try_except.
  unfold bind at 1, get. unfold bind at 1, emit.
  unfold bind at 1, await, await_, bind at 1, suspend. simpl.
  rewrite Hs. simpl.
  match goal with
  | |- context [bind connect ?k ?w0] =>
    destruct (connect_failure_run w0 0 f s) as
        (e & w1 & E & S1 & X & C1 & C2 & So & _ & _ & _ & _ & N & M & G);
      [exact I2|exact I1|exact Hc|reflexivity|];
      unfold bind at 1; rewrite E
  end.
  rewrite X, Hf. unfold bind, emit. simpl.
  eexists. split; [reflexivity|]. simpl.
  split; [exact S1|]. split; [split; assumption|].
  split.
  { count_all. }
  auto.
Qed.

Lemma winning_turn (a : Z) (w : World) (t : timestamp) (s : list reply) :
  idle (client w) -> can_handshake (client w) = true ->
  script w = quiet 0 Done :: quiet t Done :: s ->
  exists w',
    reconnection_attempt a w = Some (Return (Some tt), w')
    /\ script w' = s
    /\ link_up (client w')
    /\ _is_connecting (client w') = false
    /\ last_connect_time (_metrics (client w')) = Some t
    /\ occurrences is_handshake (trace w')
       = S (occurrences is_handshake (trace w))
    /\ connect_attempts (_metrics (client w'))
       = connect_attempts (_metrics (client w)) + 1
    /\ recon (client w') = recon (client w)
    /\ config (client w') = config (client w).
Proof.
  intros [I1 I2] Hc Hs.
  unfold reconnection_attempt, try_except.
  unfold bind at 1, get. unfold bind at 1, emit.
  unfold bind at 1, await, await_, bind at 1, suspend. simpl.
  rewrite Hs. simpl.
  match goal with
  | |- context [bind connect ?k ?w0] =>
    destruct (connect_success_run w0 t s) as
        (w1 & E & S1 & L & C1 & T & _ & N & _ & A & _ & _ & _ & R & G);
      [exact I2|exact I1|exact Hc|reflexivity|];
      unfold bind at 1; rewrite E
  end.
  unfold bind, get, emit. simpl.
  destruct L as (L1 & L2 & L3). rewrite L1. simpl.
  eexists. split; [reflexivity|]. simpl.
  split; [exact S1|]. split; [repeat split; assumption|].
  split; [exact C1|]. split; [exact T|].
  split.
  { count_all. }
  auto.
Qed.

Lemma for_app {A R} (body : A -> Coro (option R)) (l1 l2 : list A) :
  forall w w1,
    for_ l1 body w = Some (Return None, w1) ->
    for_ (l1 ++ l2)%list body w = for_ l2 body w1.
Proof.
  induction l1 as [|a l1 IH]; simpl; intros w w1.
  - intros E; inversion E; subst. reflexivity.
  - unfold bind. destruct (body a w) as [[[[x|]|e] w0]|]; try discriminate.
    apply IH.
Qed.

Lemma failed_turns (fs : list exn) :
  forall (l : list Z) (w : World) (s : list reply),
    List.length l = List.length fs ->
    idle (client w) -> fs = [] \/ can_handshake (client w) = true ->
    forallb is_Exception fs = true ->
    script w = (failed_attempts fs ++ s)%list ->
    exists w',
      for_ l reconnection_attempt w = Some (Return None, w')
      /\ script w' = s
      /\ idle (client w')
      /\ occurrences is_handshake (trace w')
         = (occurrences is_handshake (trace w) + List.length fs)%nat
      /\ connect_attempts (_metrics (client w'))
         = connect_attempts (_metrics (client w)) + Z.of_nat (List.length fs)
      /\ recon (client w') = recon (client w)
      /\ config (client w') = config (client w)
      /\ (fs <> [] -> session_open (client w') = true)
      /\ (can_handshake (client w) = true ->
          can_handshake (client w') = true).
Proof.
  induction fs as [|f fs IH]; intros l w s Hl Hi Hc Hf Hs.
  - destruct l; [|discriminate]. simpl in *. subst.
    exists w. repeat split; try apply Hi; auto; try lia; try congruence.
  - destruct l as [|a l]; [discriminate|]. simpl in Hl, Hf, Hs.
    destruct Hc as [Hc|Hc]; [discriminate Hc|].
    apply andb_prop in Hf. destruct Hf as [Hf1 Hf2].
    destruct (failed_turn a w f (failed_attempts fs ++ s)%list Hi Hc Hf1 Hs)
      as (w1 & E1 & S1 & I1 & N1 & M1 & G1 & O1).
    destruct (IH l w1 s) as (w' & E & S & I' & N & M & R & G & O & K); auto.
    { right. apply open_can_handshake, O1. }
    exists w'. simpl. unfold bind. rewrite E1.
    split; [exact E|]. split; [exact S|]. split; [exact I'|].
    split; [lia|].
    split. { rewrite M, M1. simpl. lia. }
    split. { rewrite R. unfold recon. rewrite M1. reflexivity. }
    split; [congruence|].
    split.
    + intros _. destruct fs as [|f' fs'].
      * destruct l; [|discriminate]. simpl in E. inversion E; subst. exact O1.
      * apply O. discriminate.
    + intros _. apply K, open_can_handshake, O1.
Qed.

Lemma length_attempts (c : IPCClient) :
  List.length (range 1 (_max_reconnect_attempts c + 1))
  = Z.to_nat (_max_reconnect_attempts c).
Proof. rewrite length_range. f_equal. lia. Qed.

Lemma live_link (c : IPCClient) :
  link_up c -> truthy (is_connected c) = true.
Proof.
  intros (L1 & (ws & L2 & L3) & (ss & L4 & L5)). unfold is_connected.
  rewrite L1, L2, L3, L4, L5. reflexivity.
Qed.

(** X10: the cycle stops at the first handshake that succeeds. On a client
    whose session can carry a handshake, when the first k attempts fail with
    errors and k is below the budget, the coordinator returns with the
    connectivity predicate true after exactly k + 1 handshakes, leaving the
    rest of the budget unused; the attempt counter has grown by k + 1 and
    the cycle counter by one. *)
Theorem reconnection_stops_at_first_success (c : IPCClient) (fs : list exn)
        (t : timestamp) (s : list reply) :
  idle c -> can_handshake c = true -> forallb is_Exception fs = true ->
  (List.length fs < Z.to_nat (_max_reconnect_attempts c))%nat ->
  exists w',
    _attempt_reconnection
      (world c (failed_attempts fs ++ quiet 0 Done :: quiet t Done :: s))
    = Some (Return tt, w')
    /\ script w' = s
    /\ truthy (is_connected (client w')) = true
    /\ last_connect_time (_metrics (client w')) = Some t
    /\ occurrences is_handshake (trace w') = S (List.length fs)
    /\ connect_attempts (_metrics (client w'))
       = connect_attempts (_metrics c) + Z.of_nat (S (List.length fs))
    /\ recon (client w') = recon c + 1.
Proof.
  intros [I1 I2] Hc Hf Hk.
  unfold _attempt_reconnection, bind at 1, get. simpl. rewrite I1, I2. simpl.
  unfold bind at 1, modify. simpl. unfold bind at 1.
  pose proof (length_attempts c) as Hl.
  rewrite <- (firstn_skipn (List.length fs)
                           (range 1 (_max_reconnect_attempts c + 1))).
  destruct (skipn (List.length fs) (range 1 (_max_reconnect_attempts c + 1)))
    as [|a l2] eqn:Sk.
  { apply (f_equal (@List.length Z)) in Sk. rewrite length_skipn in Sk.
    simpl in Sk. lia. }
  match goal with
  | |- context [for_ _ reconnection_attempt ?w0] =>
    destruct (failed_turns fs
                (firstn (List.length fs)
                        (range 1 (_max_reconnect_attempts c + 1)))
                w0 (quiet 0 Done :: quiet t Done :: s))
      as (w1 & E1 & S1 & Id1 & N1 & M1 & R1 & G1 & _ & K1);
      [rewrite length_firstn; lia|split; assumption|right; exact Hc
      |exact Hf|reflexivity|];
      rewrite (for_app _ _ _ _ _ E1)
  end.
  destruct (winning_turn a w1 t s Id1 (K1 Hc) S1)
    as (w' & E & S' & L & C' & T & N & M & R & G).
  simpl. unfold bind at 1. rewrite E. simpl.
  exists w'. split; [reflexivity|]. split; [exact S'|].
  split; [apply live_link; exact L|]. split; [exact T|].
  split; [simpl in *; lia|].
  split; [simpl in *; lia|].
  rewrite R, R1. reflexivity.
Qed.

Lemma reconnection_stops_at_first_success_witness :
  exists w',
    _attempt_reconnection
      (world (init "dashboard" 8000)
             (failed_attempts [ClientConnectorError; TimeoutError]
              ++ quiet 0 Done :: quiet 9 Done :: []))
    = Some (Return tt, w')
    /\ truthy (is_connected (client w')) = true
    /\ occurrences is_handshake (trace w') = 3%nat.
Proof.
  destruct (reconnection_stops_at_first_success
              (init "dashboard" 8000) [ClientConnectorError; TimeoutError]
              9 [])
    as (w' & E & _ & L & _ & N & _).
  - split; reflexivity.
  - reflexivity.
  - reflexivity.
  - vm_compute. lia.
  - exists w'. split; [exact E|]. split; [exact L|exact N].
Defined.

(** X11: when every attempt of the budget fails with an error - the
    handshakes being made, over a session that can carry them - the
    coordinator gives up quietly: it returns normally after exactly
    [max_reconnect_attempts] handshakes, leaves the client neither connected
    nor connecting, has counted one cycle, and schedules nothing - no later
    cycle follows from it. A budget of zero makes no attempt at all, and
    still counts a cycle. *)
Theorem reconnection_gives_up (c : IPCClient) (fs : list exn)
        (s : list reply) :
  idle c -> fs = [] \/ can_handshake c = true ->
  forallb is_Exception fs = true ->
  List.length fs = Z.to_nat (_max_reconnect_attempts c) ->
  exists w',
    _attempt_reconnection (world c (failed_attempts fs ++ s))
    = Some (Return tt, w')
    /\ script w' = s
    /\ idle (client w')
    /\ truthy (is_connected (client w')) = false
    /\ occurrences is_handshake (trace w') = List.length fs
    /\ occurrences is_reschedule (trace w') = 0%nat
    /\ recon (client w') = recon c + 1
    /\ last (trace w') (Log INFO "") = Log ERROR "Failed to reconnect".
Proof.
  intros [I1 I2] Hc Hf Hk.
  assert (Z0 : exists w', _attempt_reconnection (world c (failed_attempts fs ++ s))
    = Some (Return tt, w')
    /\ script w' = s
    /\ idle (client w')
    /\ occurrences is_handshake (trace w') = List.length fs
    /\ recon (client w') = recon c + 1
    /\ last (trace w') (Log INFO "") = Log ERROR "Failed to reconnect").
  { unfold _attempt_reconnection, bind at 1, get. simpl.
    rewrite I1, I2. simpl.
    unfold bind at 1, modify. simpl. unfold bind at 1.
    match goal with
    | |- context [for_ ?l reconnection_attempt ?w0] =>
      destruct (failed_turns fs l w0 s)
        as (w1 & E1 & S1 & Id1 & N1 & M1 & R1 & G1 & _);
        [rewrite length_attempts; lia|split; assumption|exact Hc|exact Hf
        |reflexivity|];
        rewrite E1
    end.
    unfold emit. eexists. split; [reflexivity|]. simpl.
    split; [exact S1|]. split; [exact Id1|].
    split; [simpl in *; count_all|].
    split; [rewrite R1; reflexivity|].
    apply last_last. }
  destruct Z0 as (w' & E & S' & Id & N & R & La).
  exists w'. split; [exact E|]. split; [exact S'|]. split; [exact Id|].
  split.
  { unfold is_connected. destruct Id as [-> _]. reflexivity. }
  split; [exact N|].
  split.
  { pose proof (coordinator_reschedules_nothing _ _ _ E) as Z1.
    simpl in Z1. unfold occurrences in *. simpl in Z1. lia. }
  split; [exact R|exact La].
Qed.

Lemma reconnection_gives_up_witness :
  exists w',
    _attempt_reconnection
      (world (init "dashboard" 8000)
             (failed_attempts [ClientConnectorError; TimeoutError;
                               ClientError; WSServerHandshakeError 401;
                               ConnectionResetError] ++ []))
    = Some (Return tt, w')
    /\ truthy (is_connected (client w')) = false
    /\ occurrences is_handshake (trace w') = 5%nat.
Proof.
  destruct (reconnection_gives_up
              (init "dashboard" 8000)
              [ClientConnectorError; TimeoutError; ClientError;
               WSServerHandshakeError 401; ConnectionResetError] [])
    as (w' & E & _ & _ & L & N & _).
  - split; reflexivity.
  - right. reflexivity.
  - reflexivity.
  - reflexivity.
  - exists w'. split; [exact E|]. split; [exact L|exact N].
Defined.

(** ** Handler tasks of the listener *)

Lemma dispatches_app (a b : list effect) :
  dispatches (a ++ b) = (dispatches a ++ dispatches b)%list.
Proof. unfold dispatches. apply flat_map_app. Qed.

Lemma numbered_app (a b : list reply) :
  forall n,
    numbered n (a ++ b)
    = (numbered n a ++ numbered (n + count is_frame a) b)%list.
Proof.
  induction a as [|r a IH]; intros n; simpl.
  - unfold count. simpl. f_equal. lia.
  - unfold count. simpl. destruct (is_frame r); simpl.
    + rewrite IH, <- app_assoc. unfold count. do 3 f_equal. lia.
    + rewrite IH. reflexivity.
Qed.

Lemma numbered_above (s : list reply) :
  forall n x, In x (numbered n s) -> n < snd x.
Proof.
  induction s as [|r s IH]; intros n x; simpl; [tauto|].
  destruct (is_frame r).
  - intros H. apply in_app_or in H. destruct H as [H|H].
    + destruct (payload r); simpl in H; [|tauto].
      destruct H as [<-|[]]. simpl. lia.
    + apply IH in H. lia.
  - apply IH.
Qed.

Lemma numbered_nodup (s : list reply) :
  forall n, NoDup (map snd (numbered n s)).
Proof.
  induction s as [|r s IH]; intros n; simpl; [constructor|].
  destruct (is_frame r); [|apply IH].
  destruct (payload r); simpl; [|apply IH].
  constructor; [|apply IH].
  intros H. apply in_map_iff in H. destruct H as (x & Hx & H).
  apply numbered_above in H. lia.
Qed.

Lemma listen_body_dispatches (w w1 : World) (o : outcome ctl) :
  listen_body w = Some (o, w1) ->
  exists used,
    script w = (used ++ script w1)%list
    /\ message_count (_metrics (client w1))
       = message_count (_metrics (client w)) + count is_frame used
    /\ dispatches (trace w1)
       = (dispatches (trace w)
          ++ numbered (message_count (_metrics (client w))) used)%list.
Proof.
  unfold listen_body, try_except, bind at 1, get. simpl.
  destruct (_websocket (client w)) as [ws|] eqn:W; simpl.
  2:{ intros E; inversion E; subst. exists []. simpl.
      rewrite dispatches_app. simpl. rewrite !app_nil_r.
      unfold count. simpl. repeat split; auto; lia. }
  unfold bind at 1, await_frame, bind at 1, suspend.
  destruct (script w) as [|r s] eqn:S; simpl; [discriminate|].
  destruct (interfere_counters false (during r) (client w)) as [K1 K2].
  destruct (result r) as [|e|m] eqn:R; simpl; [discriminate| |].
  - destruct e; unfold bind, emit, get, ret; simpl;
      try destruct (truthy (is_connected (interfere false (during r) (client w))));
      simpl; intros E; inversion E; subst; simpl;
      exists [r];
      (repeat split; auto;
       repeat rewrite dispatches_app; simpl;
       unfold count, is_frame, payload; simpl;
       rewrite ?R; simpl; rewrite ?app_nil_r; auto; try lia).
  - unfold bind, emit, modify, time_time, get. simpl.
    destruct (msg_type m) eqn:T; simpl;
      try destruct (msg_json m) eqn:J; simpl;
      try destruct (_websocket (interfere false (during r) (client w)));
      simpl; intros E; inversion E; subst; simpl;
      exists [r];
      (repeat split; auto;
       repeat rewrite dispatches_app; simpl;
       unfold count, is_frame, payload; simpl;
       rewrite ?R, ?T, ?J; simpl; rewrite ?K1, ?app_nil_r; auto; try lia).
Qed.

Lemma listen_loop_dispatches (n : nat) :
  forall (w w1 : World) (o : outcome unit),
    while_ n _is_connected listen_body w = Some (o, w1) ->
    exists used,
      script w = (used ++ script w1)%list
      /\ message_count (_metrics (client w1))
         = message_count (_metrics (client w)) + count is_frame used
      /\ dispatches (trace w1)
         = (dispatches (trace w)
            ++ numbered (message_count (_metrics (client w))) used)%list.
Proof.
  induction n as [|n IH]; simpl; intros w w1 o;
    destruct (_is_connected (client w)) eqn:C; try discriminate;
    try (intros E; inversion E; subst; exists []; unfold count; simpl;
         rewrite app_nil_r; repeat split; auto; lia).
  unfold bind.
  destruct (listen_body w) as [[[k|e] w0]|] eqn:B; try discriminate;
    apply listen_body_dispatches in B;
    destruct B as (u1 & S1 & M1 & D1).
  - destruct k.
    + intros E. destruct (IH _ _ _ E) as (u2 & S2 & M2 & D2).
      exists (u1 ++ u2)%list.
      rewrite numbered_app, count_app, <- app_assoc, <- S2.
      repeat split; auto; try lia.
      rewrite D2, D1, M1, <- app_assoc. reflexivity.
    + intros E. inversion E; subst. exists u1. repeat split; auto.
  - intros E. inversion E; subst. exists u1. repeat split; auto.
Qed.

(** X12: the listener hands the payloads over in the order the frames
    arrive, and names each handler task after the number of its frame among
    all frames received ([process_msg_<n>], counting undecodable, error and
    close frames too): the names of the tasks of one run are never repeated
    and may skip numbers. *)
Theorem listener_dispatch_order (c : IPCClient) (s : list reply)
        (o : outcome unit) (w' : World) :
  _listen (world c s) = Some (o, w') ->
  exists used,
    s = (used ++ script w')%list
    /\ dispatches (trace w') = numbered (message_count (_metrics c)) used
    /\ NoDup (map snd (dispatches (trace w'))).
Proof.
  unfold _listen. unfold bind at 1. unfold emit at 1. cbv beta iota.
  unfold bind at 1. unfold while at 1.
  match goal with
  | |- context [while_ ?n _is_connected listen_body ?w0] =>
    destruct (while_ n _is_connected listen_body w0) as [[[u|e] w1]|] eqn:L;
      try discriminate;
      apply listen_loop_dispatches in L;
      destruct L as (used & S1 & M1 & D1)
  end.
  - simpl in *. unfold bind, get, modify, emit. simpl.
    destruct (_is_connected (client w1)) eqn:C; simpl;
      intros E; inversion E; subst; simpl;
      exists used;
      repeat rewrite dispatches_app; simpl; rewrite ?app_nil_r;
      (split; [first [exact S1|reflexivity]|]);
      (split; [exact D1|rewrite D1; apply numbered_nodup]).
  - intros E. inversion E; subst. simpl in *. exists used.
    split; [first [exact S1|reflexivity]|]. split; [exact D1|].
    rewrite D1. apply numbered_nodup.
Qed.

Lemma listener_dispatch_order_witness :
  exists w' used,
    _listen (world connected_client
               [quiet 11 (Frame {| msg_type := TEXT; msg_json := Some ping |});
                quiet 12 (Frame {| msg_type := TEXT; msg_json := None |});
                quiet 13 (Frame {| msg_type := TEXT;
                                   msg_json := Some (VStr "b") |});
                quiet 14 (Frame {| msg_type := CLOSE; msg_json := None |})])
    = Some (Return tt, w')
    /\ dispatches (trace w') = numbered 0 used
    /\ dispatches (trace w') = [(ping, 1); (VStr "b", 3)].
Proof.
  eexists.
  eassert (E : _listen
                 (world connected_client
                    [quiet 11 (Frame {| msg_type := TEXT;
                                        msg_json := Some ping |});
                     quiet 12 (Frame {| msg_type := TEXT; msg_json := None |});
                     quiet 13 (Frame {| msg_type := TEXT;
                                        msg_json := Some (VStr "b") |});
                     quiet 14 (Frame {| msg_type := CLOSE;
                                        msg_json := None |})])
               = Some (Return tt, _)) by (vm_compute; reflexivity).
  destruct (listener_dispatch_order _ _ _ _ E) as (used & _ & D & _).
  exists used. split; [exact E|]. split; [exact D|reflexivity].
Defined.

(** ** The listener on an idle link *)

Lemma timeout_turn (w : World) (s : list reply) :
  truthy (is_connected (client w)) = true ->
  script w = quiet 0 (Raises TimeoutError) :: s ->
  exists w1,
    listen_body w = Some (Return Continue, w1)
    /\ client w1 = client w
    /\ script w1 = s
    /\ occurrences is_receive (trace w1) = S (occurrences is_receive (trace w))
    /\ occurrences is_reschedule (trace w1)
       = occurrences is_reschedule (trace w).
Proof.
  intros L Hs.
  assert (W : exists ws, _websocket (client w) = Some ws).
  { revert L. unfold is_connected.
    destruct (negb (_is_connected (client w))); [discriminate|].
    destruct (_websocket (client w)) as [ws|]; [eauto|discriminate]. }
  destruct W as [ws W].
  unfold listen_body, try_except, bind at 1, get. simpl. rewrite W.
  unfold bind at 1, await_frame, bind at 1, suspend. rewrite Hs. simpl.
  unfold bind, emit, get. simpl. rewrite L. simpl.
  eexists. split; [reflexivity|]. simpl.
  repeat split; auto; count_all.
Qed.

Lemma timeout_turns (n : nat) :
  forall (k : nat) (w : World) (s : list reply),
    truthy (is_connected (client w)) = true ->
    script w = (timeouts n ++ s)%list ->
    exists w1,
      while_ (n + k) _is_connected listen_body w
      = while_ k _is_connected listen_body w1
      /\ client w1 = client w
      /\ script w1 = s
      /\ occurrences is_receive (trace w1)
         = (occurrences is_receive (trace w) + n)%nat
      /\ occurrences is_reschedule (trace w1)
         = occurrences is_reschedule (trace w).
Proof.
  induction n as [|n IH]; intros k w s L Hs.
  - exists w. simpl in *. repeat split; auto; lia.
  - simpl in Hs.
    destruct (timeout_turn w (timeouts n ++ s)%list L Hs)
      as (w0 & B & C0 & S0 & N0 & R0).
    destruct (IH k w0 s) as (w1 & E & C1 & S1 & N1 & R1);
      [rewrite C0; exact L|exact S0|].
    exists w1. simpl.
    assert (F : _is_connected (client w) = true).
    { revert L. unfold is_connected.
      destruct (_is_connected (client w)); [reflexivity|discriminate]. }
    rewrite F. unfold bind at 1. rewrite B.
    split; [exact E|]. split; [congruence|]. split; [exact S1|].
    split; [lia|congruence].
Qed.

(** X13: receive timeouts do not end the listener while the connectivity
    predicate holds. After any number n of receive calls that time out, the
    listener is still receiving: a close frame arriving next is the
    (n+1)-th receive, is counted as one message, ends the loop and makes the
    listener schedule exactly one reconnection. *)
Theorem listener_survives_timeouts (c : IPCClient) (n : nat) (t : timestamp)
        (s : list reply) :
  truthy (is_connected c) = true ->
  exists w',
    _listen (world c (timeouts n ++ quiet t (Frame close_frame) :: s))
    = Some (Return tt, w')
    /\ script w' = s
    /\ occurrences is_receive (trace w') = S n
    /\ occurrences is_reschedule (trace w') = 1%nat
    /\ message_count (_metrics (client w')) = message_count (_metrics c) + 1
    /\ last_heartbeat (_metrics (client w')) = Some t
    /\ _is_connected (client w') = false.
Proof.
  intros L.
  assert (F : _is_connected c = true).
  { revert L. unfold is_connected.
    destruct (_is_connected c); [reflexivity|discriminate]. }
  assert (W : exists ws, _websocket c = Some ws).
  { revert L. unfold is_connected. rewrite F. simpl.
    destruct (_websocket c) as [ws|]; [eauto|discriminate]. }
  destruct W as [ws W].
  unfold _listen. unfold bind at 1. unfold emit at 1. cbv beta iota.
  unfold bind at 1. unfold while at 1. simpl script.
  rewrite length_app. unfold timeouts at 1. rewrite repeat_length.
  simpl List.length.
  replace (S (n + S (List.length s))) with (n + S (S (List.length s)))%nat
    by lia.
  match goal with
  | |- context [while_ _ _is_connected listen_body ?w0] =>
    destruct (timeout_turns n (S (S (List.length s))) w0
                            (quiet t (Frame close_frame) :: s) L eq_refl)
      as (w1 & E & C1 & S1 & N1 & R1)
  end.
  rewrite E. simpl in C1, N1, R1.
  simpl. rewrite C1, F.
  unfold bind at 1.
  unfold listen_body, try_except, bind at 1, get. simpl. rewrite C1, W.
  unfold bind at 1, await_frame, bind at 1, suspend. rewrite S1. simpl.
  unfold bind, emit, modify, time_time, get. simpl.
  rewrite C1, F. simpl.
  eexists. split; [reflexivity|]. simpl.
  repeat split; auto; count_all.
Qed.

Lemma listener_survives_timeouts_witness :
  exists w',
    _listen (world connected_client
                   (timeouts 3 ++ quiet 40 (Frame close_frame) :: []))
    = Some (Return tt, w')
    /\ occurrences is_receive (trace w') = 4%nat
    /\ occurrences is_reschedule (trace w') = 1%nat.
Proof.
  destruct (listener_survives_timeouts connected_client 3 40 [] eq_refl)
    as (w' & E & _ & N & R & _).
  exists w'. split; [exact E|]. split; [exact N|exact R].
Defined.

(** ** Metrics *)

(** X14: [disconnect] resets no metric. Read after a disconnect, whatever
    the client held and however the closing calls ended, the metrics report
    the client as not connected, the three counters as they were, and an
    uptime still measured from the last successful connect - the time since
    that connect, not the time spent connected. *)
Theorem metrics_after_disconnect (c : IPCClient) (f : faults)
        (t0 : timestamp) :
  injected f = true ->
  last_connect_time (_metrics c) = Some t0 -> t0 <> 0 ->
  exists m w',
    (disconnect ;; get_metrics) (world c (closing_script c f))
    = Some (Return m, w')
    /\ item "is_connected" m = Some (VBool false)
    /\ item "uptime" m = Some (VInt (now w' - t0))
    /\ item "last_connect_time" m = Some (VInt t0)
    /\ item "connect_attempts" m = Some (VInt (connect_attempts (_metrics c)))
    /\ item "reconnect_count" m = Some (VInt (reconnect_count (_metrics c)))
    /\ item "message_count" m = Some (VInt (message_count (_metrics c))).
Proof.
  intros Hf Ht Hn.
  destruct (disconnect_run c f [] Hf) as (w1 & E1 & S1 & C1 & K1).
  rewrite app_nil_r in E1.
  destruct (released_fields (returns (on_session_close f)) c)
    as (_ & _ & R3).
  destruct (released_facts (returns (on_session_close f)) c)
    as (_ & R4 & _).
  unfold bind at 1. rewrite E1.
  unfold get_metrics, bind, get, time_time, ret. rewrite K1, R3, Ht. simpl.
  destruct (Z.eqb t0 0) eqn:Z0; [apply Z.eqb_eq in Z0; contradiction|].
  simpl. do 2 eexists. split; [reflexivity|]. simpl.
  unfold is_connected. rewrite R4. simpl. repeat split; reflexivity.
Qed.

Lemma metrics_after_disconnect_witness :
  exists m w',
    (disconnect ;; get_metrics)
      (world connected_client
             (closing_script connected_client
                {| on_task_wait := Raises CancelledError;
                   on_ws_close := Done;
                   on_session_close := Done;
                   on_connector_close := Done |}))
    = Some (Return m, w')
    /\ item "is_connected" m = Some (VBool false)
    /\ item "uptime" m = Some (VInt (now w' - 7)).
Proof.
  destruct (metrics_after_disconnect connected_client
              {| on_task_wait := Raises CancelledError;
                 on_ws_close := Done;
                 on_session_close := Done;
                 on_connector_close := Done |} 7 eq_refl eq_refl)
    as (m & w' & E & H1 & H2 & _).
  - discriminate.
  - exists m, w'. split; [exact E|]. split; [exact H1|exact H2].
Defined.

(** ** [disconnect] during a reconnection cycle *)

Lemma range_cons (lo hi : Z) :
  lo < hi -> range lo hi = lo :: range (lo + 1) hi.
Proof.
  intros H. unfold range.
  replace (Z.to_nat (hi - lo)) with (S (Z.to_nat (hi - (lo + 1)))) by lia.
  simpl. f_equal; [lia|].
  rewrite <- seq_shift, map_map. apply map_ext. intros i. lia.
Qed.

(** One attempt of the cycle on a client that is spent when the sleep
    ends: a [connect] that fails at once. *)
Lemma spent_turn (a : Z) (w : World) (r : reply) (s : list reply) :
  spent (interfere false (during r) (client w)) -> result r = Done ->
  script w = r :: s ->
  exists w',
    reconnection_attempt a w = Some (Return None, w')
    /\ script w' = s
    /\ spent (client w')
    /\ occurrences is_handshake (trace w')
       = occurrences is_handshake (trace w)
    /\ occurrences is_create_session (trace w')
       = S (occurrences is_create_session (trace w))
    /\ List.length (sleeps (trace w'))
       = S (List.length (sleeps (trace w))).
Proof.
  intros Hp Hr Hs.
  unfold reconnection_attempt, try_except.
  unfold bind at 1, get. unfold bind at 1, emit.
  unfold bind at 1, await, await_, bind at 1, suspend. simpl.
  rewrite Hs, Hr. simpl.
  match goal with
  | |- context [bind connect ?k ?w0] =>
    destruct (connect_on_spent w0) as (w1 & E & S1 & H & _ & Sl & N & Sp);
      [simpl; exact Hp|];
      unfold bind at 1; rewrite E
  end.
  unfold bind, emit. simpl.
  eexists. split; [reflexivity|]. simpl.
  split; [exact S1|]. split; [exact Sp|].
  simpl in Sl. revert Sl. sleeps_norm. intros Sl.
  split; [count_all|]. split; [count_all|].
  rewrite Sl, length_app. simpl. lia.
Qed.

Lemma spent_turns (l : list Z) :
  forall (w : World) (rs s : list reply),
    List.length rs = List.length l ->
    spent (client w) -> Forall (fun r => result r = Done) rs ->
    script w = (rs ++ s)%list ->
    exists w',
      for_ l reconnection_attempt w = Some (Return None, w')
      /\ script w' = s
      /\ spent (client w')
      /\ occurrences is_handshake (trace w')
         = occurrences is_handshake (trace w)
      /\ occurrences is_create_session (trace w')
         = (occurrences is_create_session (trace w) + List.length l)%nat
      /\ List.length (sleeps (trace w'))
         = (List.length (sleeps (trace w)) + List.length l)%nat.
Proof.
  induction l as [|a l IH]; intros w rs s Hl Hp Hr Hs.
  - destruct rs; [|discriminate]. simpl in *.
    exists w. split; [reflexivity|]. split; [exact Hs|].
    split; [exact Hp|]. repeat split; lia.
  - destruct rs as [|r rs]; [discriminate|]. simpl in Hl, Hs.
    inversion Hr as [|r' rs' Hr1 Hr2]; subst.
    destruct (spent_turn a w r (rs ++ s)%list
                         (interfere_spent false _ _ Hp) Hr1 Hs)
      as (w1 & E1 & S1 & P1 & N1 & M1 & L1).
    destruct (IH w1 rs s) as (w' & E & S & P' & N & M & L'); auto.
    exists w'. simpl. unfold bind. rewrite E1.
    split; [exact E|]. split; [exact S|]. split; [exact P'|].
    repeat split; simpl; lia.
Qed.

(** X15: [disconnect] does not stop a reconnection cycle in flight, and the
    cycle can no longer succeed. When another task runs [disconnect] while
    the coordinator sleeps before its first attempt, on a client that holds
    an open session, the coordinator goes on through its whole budget: it
    sleeps before each attempt, builds a session over the closed connector
    [disconnect] left behind, and fails before any handshake is made. It
    returns with the client not connected, and spent. *)
Theorem disconnect_does_not_stop_reconnection (c : IPCClient) (r : reply)
        (rs s : list reply) :
  idle c -> session_open c = true -> _connector c <> None ->
  during r = [disconnected] -> result r = Done ->
  Forall (fun r => result r = Done) rs ->
  S (List.length rs) = Z.to_nat (_max_reconnect_attempts c) ->
  exists w',
    _attempt_reconnection (world c (r :: rs ++ s)) = Some (Return tt, w')
    /\ script w' = s
    /\ List.length (sleeps (trace w')) = S (List.length rs)
    /\ occurrences is_create_session (trace w') = S (List.length rs)
    /\ occurrences is_handshake (trace w') = 0%nat
    /\ truthy (is_connected (client w')) = false
    /\ spent (client w')
    /\ last (trace w') (Log INFO "") = Log ERROR "Failed to reconnect".
Proof.
  intros [I1 I2] Ho Hk Hd Hr Hrs Hm.
  assert (Z0 : exists w',
             _attempt_reconnection (world c (r :: rs ++ s))
             = Some (Return tt, w')
             /\ script w' = s
             /\ List.length (sleeps (trace w')) = S (List.length rs)
             /\ occurrences is_create_session (trace w') = S (List.length rs)
             /\ occurrences is_handshake (trace w') = 0%nat
             /\ spent (client w')
             /\ last (trace w') (Log INFO "") = Log ERROR "Failed to reconnect").
  { unfold _attempt_reconnection, bind at 1, get. simpl.
    rewrite I1, I2. simpl.
    unfold bind at 1, modify. simpl. unfold bind at 1.
    rewrite range_cons by lia. simpl for_.
    unfold bind at 1.
    match goal with
    | |- context [reconnection_attempt 1 ?w0] =>
      destruct (spent_turn 1 w0 r (rs ++ s)%list)
        as (w1 & E1 & S1 & P1 & N1 & M1 & L1);
        [| exact Hr | reflexivity |]
    end.
    { simpl. rewrite Hd. unfold interfere. simpl.
      apply released_spent; simpl; assumption. }
    rewrite E1.
    match goal with
    | |- context [for_ ?l reconnection_attempt w1] =>
      destruct (spent_turns l w1 rs s)
        as (w2 & E2 & S2 & P2 & N2 & M2 & L2);
        [rewrite length_range; lia|exact P1|exact Hrs|exact S1|];
        rewrite E2
    end.
    unfold emit. eexists. split; [reflexivity|]. simpl.
    rewrite length_range in M2, L2.
    split; [exact S2|].
    split; [revert L1 L2; sleeps_norm; simpl; lia|].
    split; [simpl in *; count_all|].
    split; [simpl in *; count_all|].
    split; [exact P2|].
    apply last_last. }
  destruct Z0 as (w' & E & S' & L & N & H & Sp & La).
  exists w'. split; [exact E|]. split; [exact S'|].
  split; [exact L|]. split; [exact N|]. split; [exact H|].
  split; [|split; [exact Sp|exact La]].
  unfold is_connected. destruct Sp as (_ & -> & _). reflexivity.
Qed.

Lemma disconnect_does_not_stop_reconnection_witness :
  exists w',
    _attempt_reconnection
      (world (set_is_connected false connected_client)
             ({| during := [disconnected]; clock := 30; result := Done |}
                :: [quiet 35 Done; quiet 45 Done; quiet 65 Done;
                    quiet 105 Done] ++ [quiet 106 Done]))
    = Some (Return tt, w')
    /\ script w' = [quiet 106 Done]
    /\ occurrences is_handshake (trace w') = 0%nat
    /\ truthy (is_connected (client w')) = false.
Proof.
  destruct (disconnect_does_not_stop_reconnection
              (set_is_connected false connected_client)
              {| during := [disconnected]; clock := 30; result := Done |}
              [quiet 35 Done; quiet 45 Done; quiet 65 Done; quiet 105 Done]
              [quiet 106 Done])
    as (w' & E & S & _ & _ & H & L & _).
  - split; reflexivity.
  - reflexivity.
  - discriminate.
  - reflexivity.
  - reflexivity.
  - repeat constructor.
  - reflexivity.
  - exists w'. split; [exact E|]. split; [exact S|]. split; [exact H|exact L].
Defined.

(** ** [send]: errors other than a reset *)

(** X16: only a connection reset makes [send] retry. When the transmission
    returns, [send] answers [True]; when it raises any other error, [send]
    answers [False] at once - one transmission, no sleep, no reconnection,
    nothing changed on the client, which keeps its Connected flag; a
    cancellation is let through. *)
Theorem send_gives_up_on_errors (data : value) (c : IPCClient) (r : reply)
        (s : list reply) :
  is_dict data = true -> truthy (is_connected c) = true ->
  result r <> Raises ConnectionResetError ->
  (forall m, result r <> Frame m) ->
  exists o w',
    send data (world c (r :: s)) = Some (o, w')
    /\ o = match result r with
           | Raises e => if is_Exception e then Return false else Raise e
           | _ => Return true
           end
    /\ script w' = s
    /\ client w' = interfere false (during r) c
    /\ transmissions (trace w') = 1%nat
    /\ sleeps (trace w') = []
    /\ occurrences is_handshake (trace w') = 0%nat.
Proof.
  intros Hd L Hr Hm.
  assert (F : _is_connected c = true).
  { revert L. unfold is_connected.
    destruct (_is_connected c); [reflexivity|discriminate]. }
  assert (W : exists ws, _websocket c = Some ws).
  { revert L. unfold is_connected. rewrite F. simpl.
    destruct (_websocket c) as [ws|]; [eauto|discriminate]. }
  destruct W as [ws W].
  unfold send. rewrite Hd. simpl. unfold bind at 1, get. simpl.
  rewrite L. simpl.
  unfold try_except, bind at 1, ws_send_json, bind at 1, get. simpl.
  rewrite W. unfold await, await_, bind at 1, suspend. simpl.
  destruct (result r) as [|e|m] eqn:R; simpl.
  - unfold bind, emit. simpl. do 2 eexists. split; [reflexivity|].
    simpl. repeat split; auto.
  - destruct e; try (exfalso; apply Hr; reflexivity);
      unfold bind, emit; simpl;
      do 2 eexists; (split; [reflexivity|]); simpl; repeat split; auto.
  - exfalso. apply (Hm m). reflexivity.
Qed.

Lemma send_gives_up_on_errors_witness :
  exists o w',
    send ping (world connected_client [quiet 20 (Raises ClientError)])
    = Some (o, w')
    /\ o = Return false
    /\ client w' = connected_client.
Proof.
  destruct (send_gives_up_on_errors ping connected_client
              (quiet 20 (Raises ClientError)) [] eq_refl eq_refl)
    as (o & w' & E & O & _ & C & _).
  - discriminate.
  - discriminate.
  - exists o, w'. split; [exact E|]. split; [exact O|exact C].
Defined.

(** * The startup script *)

Import Start.

Lemma pauses_app (a b : list event) :
  pauses (a ++ b) = (pauses a ++ pauses b)%list.
Proof. unfold pauses. apply flat_map_app. Qed.

Lemma tally_app (p : event -> bool) (a b : list event) :
  tally p (a ++ b) = (tally p a + tally p b)%nat.
Proof. unfold tally. rewrite filter_app, length_app. reflexivity. Qed.

Lemma tally_one (p : event -> bool) (e : event) :
  tally p [e] = if p e then 1%nat else 0%nat.
Proof. unfold tally. simpl. destruct (p e); reflexivity. Qed.

Lemma progress_step (i k : nat) :
  ((if Z.eqb ((2 * Z.of_nat i + CHECK_INTERVAL) mod 10) 0 then 1 else 0)
   + ((S i + k) / 5 - S i / 5))%nat
  = ((i + S k) / 5 - i / 5)%nat.
Proof.
  unfold CHECK_INTERVAL.
  replace (i + S k)%nat with (S i + k)%nat by lia.
  assert (M : (S i / 5 <= (S i + k) / 5)%nat)
    by (apply Nat.Div0.div_le_mono; lia).
  destruct (Z.eqb ((2 * Z.of_nat i + 2) mod 10) 0) eqn:E.
  - apply Z.eqb_eq in E.
    assert (S i / 5 = S (i / 5))%nat; [|lia].
    pose proof (Nat.div_mod_eq (S i) 5). pose proof (Nat.div_mod_eq i 5).
    pose proof (Nat.mod_upper_bound (S i) 5).
    pose proof (Nat.mod_upper_bound i 5).
    pose proof (Z.div_mod (2 * Z.of_nat i + 2) 10). lia.
  - apply Z.eqb_neq in E.
    assert (S i / 5 = i / 5)%nat; [|lia].
    pose proof (Nat.div_mod_eq (S i) 5). pose proof (Nat.div_mod_eq i 5).
    pose proof (Nat.mod_upper_bound (S i) 5).
    pose proof (Nat.mod_upper_bound i 5).
    pose proof (Z.div_mod (2 * Z.of_nat i + 2) 10).
    pose proof (Z.mod_pos_bound (2 * Z.of_nat i + 2) 10). lia.
Qed.

(** The loop after [i] failed checks: [k] more checks fail, then one
    succeeds or the time is up. *)
Lemma wait_loop_run (m : nat) :
  forall (i fuel : nat) (env : Env) (st : St),
    (i + m = 60)%nat -> (m <= fuel)%nat ->
    exists (k : nat) (b : bool) (st' : St),
      wait_loop fuel (2 * Z.of_nat i) env st = Some (Ret b, st')
      /\ (i + k <= 60)%nat
      /\ (forall j, (j < k)%nat ->
                    healthy (health env (checks st + j)) = false)
      /\ (if b then
            healthy (health env (checks st + k)) = true
            /\ (i + k < 60)%nat
            /\ checks st' = (checks st + k + 1)%nat
          else (i + k = 60)%nat /\ checks st' = (checks st + k)%nat)
      /\ pauses (log st') = (pauses (log st) ++ repeat 2 k)%list
      /\ tally is_progress (log st')
         = (tally is_progress (log st) + ((i + k) / 5 - i / 5))%nat
      /\ tally is_bot_run (log st') = tally is_bot_run (log st)
      /\ tally is_terminate (log st') = tally is_terminate (log st).
Proof.
  induction m as [|m IH]; intros i fuel env st Hi Hf.
  - exists 0%nat, false, st.
    assert (E : Z.ltb (2 * Z.of_nat i) MAX_WAIT_TIME = false)
      by (apply Z.ltb_ge; unfold MAX_WAIT_TIME; lia).
    destruct fuel; cbn [wait_loop]; rewrite E; unfold ret.
    all: rewrite app_nil_r, !Nat.add_0_r.
    all: repeat split; auto; try lia.
  - destruct fuel as [|fuel]; [lia|].
    assert (E : Z.ltb (2 * Z.of_nat i) MAX_WAIT_TIME = true)
      by (apply Z.ltb_lt; unfold MAX_WAIT_TIME; lia).
    cbn [wait_loop]. rewrite E.
    unfold bind at 1, check_lavalink_health, bind at 1, emit.
    cbv beta iota. simpl checks. simpl log.
    assert (Unhealthy :
              healthy (health env (checks st)) = false ->
              exists (k : nat) (b : bool) (st' : St),
                (emit (Sleep CHECK_INTERVAL) ;;
                 (if Z.eqb ((2 * Z.of_nat i + CHECK_INTERVAL) mod 10) 0 then
                    print_colored
                      WARNING NoMark
                      ("Still waiting... ("
                         ++ str (2 * Z.of_nat i + CHECK_INTERVAL) ++ "s / "
                         ++ str MAX_WAIT_TIME ++ "s)")
                  else ret tt) ;;
                 wait_loop fuel (2 * Z.of_nat i + CHECK_INTERVAL))%script
                  env
                  {| log := log st ++ [Get (LAVALINK_URL ++ "/version")];
                     checks := S (checks st) |}
                = Some (Ret b, st')
                /\ (i + k <= 60)%nat
                /\ (forall j, (j < k)%nat ->
                              healthy (health env (checks st + j)) = false)
                /\ (if b then
                      healthy (health env (checks st + k)) = true
                      /\ (i + k < 60)%nat
                      /\ checks st' = (checks st + k + 1)%nat
                    else (i + k = 60)%nat
                         /\ checks st' = (checks st + k)%nat)
                /\ pauses (log st') = (pauses (log st) ++ repeat 2 k)%list
                /\ tally is_progress (log st')
                   = (tally is_progress (log st)
                      + ((i + k) / 5 - i / 5))%nat
                /\ tally is_bot_run (log st') = tally is_bot_run (log st)
                /\ tally is_terminate (log st')
                   = tally is_terminate (log st)).
    { intros Hh.
      unfold bind at 1, emit. cbv beta iota. simpl checks. simpl log.
      unfold bind at 1.
      replace (2 * Z.of_nat i + CHECK_INTERVAL) with (2 * Z.of_nat (S i))
        by (unfold CHECK_INTERVAL; lia).
      pose proof (progress_step i) as PS.
      replace (2 * Z.of_nat i + CHECK_INTERVAL) with (2 * Z.of_nat (S i))
        in PS by (unfold CHECK_INTERVAL; lia).
      set (line := ("Still waiting... (" ++ str (2 * Z.of_nat (S i))
                      ++ "s / " ++ str MAX_WAIT_TIME ++ "s)")).
      destruct (Z.eqb ((2 * Z.of_nat (S i)) mod 10) 0) eqn:P10;
        unfold bind, print_colored, emit, ret; cbv beta iota;
          simpl checks; simpl log.
      - match goal with
        | |- context [wait_loop fuel _ env ?s0] =>
          destruct (IH (S i) fuel env s0) as
              (k & b & st' & R & B1 & B2 & B3 & B4 & B5 & B6 & B7);
            [lia|lia|]
        end.
        exists (S k), b, st'. split; [exact R|].
        simpl checks in *. simpl log in *.
        split; [lia|].
        split.
        { intros [|j] Hj; [rewrite Nat.add_0_r; exact Hh|].
          replace (checks st + S j)%nat with (S (checks st) + j)%nat by lia.
          apply B2. lia. }
        split.
        { destruct b.
          - destruct B3 as (H1 & H2 & H3).
            replace (checks st + S k)%nat with (S (checks st) + k)%nat
              by lia.
            repeat split; auto; lia.
          - destruct B3 as (H1 & H2). split; lia. }
        split.
        { rewrite B4, !pauses_app. simpl.
          rewrite ?app_nil_r, <- ?app_assoc. reflexivity. }
        split.
        { rewrite <- (PS k), B5, !tally_app, !tally_one.
          cbn [is_progress]. lia. }
        split.
        { rewrite B6, !tally_app, !tally_one. cbn [is_bot_run]. lia. }
        rewrite B7, !tally_app, !tally_one. cbn [is_terminate]. lia.
      - match goal with
        | |- context [wait_loop fuel _ env ?s0] =>
          destruct (IH (S i) fuel env s0) as
              (k & b & st' & R & B1 & B2 & B3 & B4 & B5 & B6 & B7);
            [lia|lia|]
        end.
        exists (S k), b, st'. split; [exact R|].
        simpl checks in *. simpl log in *.
        split; [lia|].
        split.
        { intros [|j] Hj; [rewrite Nat.add_0_r; exact Hh|].
          replace (checks st + S j)%nat with (S (checks st) + j)%nat by lia.
          apply B2. lia. }
        split.
        { destruct b.
          - destruct B3 as (H1 & H2 & H3).
            replace (checks st + S k)%nat with (S (checks st) + k)%nat
              by lia.
            repeat split; auto; lia.
          - destruct B3 as (H1 & H2). split; lia. }
        split.
        { rewrite B4, !pauses_app. simpl.
          rewrite ?app_nil_r, <- ?app_assoc. reflexivity. }
        split.
        { rewrite <- (PS k), B5, !tally_app, !tally_one.
          cbn [is_progress]. lia. }
        split.
        { rewrite B6, !tally_app, !tally_one. cbn [is_bot_run]. lia. }
        rewrite B7, !tally_app, !tally_one. cbn [is_terminate]. lia. }
    destruct (health env (checks st)) as [code|] eqn:H;
      [destruct (Z.eqb code 200) eqn:C|].
    + (* the server is healthy *)
      unfold bind, print_colored, emit, ret. simpl.
      exists 0%nat, true. eexists. split; [reflexivity|]. simpl.
      rewrite !Nat.add_0_r, H. simpl. rewrite C.
      repeat split; auto; try lia.
      * rewrite !pauses_app. simpl. rewrite !app_nil_r. reflexivity.
      * rewrite !tally_app, !tally_one. cbn [is_progress].
        rewrite Nat.sub_diag. lia.
      * rewrite !tally_app, !tally_one. cbn [is_bot_run]. lia.
      * rewrite !tally_app, !tally_one. cbn [is_terminate]. lia.
    + (* an answer other than 200 *)
      apply Unhealthy. simpl. exact C.
    + (* no answer *)
      apply Unhealthy. reflexivity.
Qed.

Lemma wait_for_lavalink_run (env : Env) (st : St) :
  exists (k : nat) (b : bool) (st' : St),
    wait_for_lavalink env st = Some (Ret b, st')
    /\ (k <= 60)%nat
    /\ (forall j, (j < k)%nat ->
                  healthy (health env (checks st + j)) = false)
    /\ (if b then
          healthy (health env (checks st + k)) = true
          /\ (k < 60)%nat
          /\ checks st' = (checks st + k + 1)%nat
        else k = 60%nat /\ checks st' = (checks st + 60)%nat)
    /\ pauses (log st') = (pauses (log st) ++ repeat 2 k)%list
    /\ tally is_progress (log st') = (tally is_progress (log st) + k / 5)%nat
    /\ tally is_bot_run (log st') = tally is_bot_run (log st)
    /\ tally is_terminate (log st') = tally is_terminate (log st).
Proof.
  unfold wait_for_lavalink, bind, print_colored, emit. cbv beta iota.
  match goal with
  | |- context [wait_loop ?f 0 env ?s0] =>
    destruct (wait_loop_run 60 0 f env s0) as
        (k & b & st' & R & B1 & B2 & B3 & B4 & B5 & B6 & B7);
      [reflexivity|unfold MAX_WAIT_TIME; lia|]
  end.
  change (2 * Z.of_nat 0) with 0 in R.
  exists k, b, st'. split; [exact R|].
  simpl checks in *. simpl log in *. simpl Nat.add in *.
  split; [exact B1|]. split; [exact B2|].
  split.
  { destruct b; [exact B3|]. destruct B3 as [-> B3]. split; [reflexivity|].
    exact B3. }
  split.
  { rewrite B4, pauses_app. simpl. rewrite app_nil_r. reflexivity. }
  split.
  { rewrite B5, tally_app, tally_one. cbn [is_progress].
    change (0 / 5)%nat with 0%nat. lia. }
  split.
  { rewrite B6, tally_app, tally_one. cbn [is_bot_run]. lia. }
  rewrite B7, tally_app, tally_one. cbn [is_terminate]. lia.
Qed.

(** X17: [wait_for_lavalink] always returns, after 60 health checks at
    most. It answers [True] at the first check that finds the server
    healthy, if that is one of the first 60, and [False] otherwise; before
    the k-th check (counting from 0) it has slept k times 2 seconds, 120
    seconds at most, and printed one progress line per 5 sleeps. *)
Theorem wait_for_lavalink_bounded (env : Env) (st : St) :
  exists (k : nat) (b : bool) (st' : St),
    wait_for_lavalink env st = Some (Ret b, st')
    /\ (k <= 60)%nat
    /\ (forall j, (j < k)%nat ->
                  healthy (health env (checks st + j)) = false)
    /\ (if b then
          healthy (health env (checks st + k)) = true
          /\ (k < 60)%nat
          /\ checks st' = (checks st + k + 1)%nat
        else k = 60%nat /\ checks st' = (checks st + 60)%nat)
    /\ pauses (log st') = (pauses (log st) ++ repeat 2 k)%list
    /\ tally is_progress (log st') = (tally is_progress (log st) + k / 5)%nat.
Proof.
  destruct (wait_for_lavalink_run env st)
    as (k & b & st' & R & B1 & B2 & B3 & B4 & B5 & _).
  exists k, b, st'. repeat split; assumption.
Qed.

(** ** Running the script step by step *)

Lemma bind_emit {B} (e : event) (k : unit -> Script B) (env : Env) (st : St) :
  bind (emit e) k env st = k tt env (push e st).
Proof. reflexivity. Qed.

Lemma bind_print {B} (c : Colors) (m : mark) (t : string)
      (k : unit -> Script B) (env : Env) (st : St) :
  bind (print_colored c m t) k env st = k tt env (push (Print c m t) st).
Proof. reflexivity. Qed.

Lemma bind_ask {A B} (f : Env -> A) (k : A -> Script B) (env : Env)
      (st : St) :
  bind (ask f) k env st = k (f env) env st.
Proof. reflexivity. Qed.

Lemma bind_ret {A B} (a : A) (k : A -> Script B) (env : Env) (st : St) :
  bind (ret a) k env st = k a env st.
Proof. reflexivity. Qed.

Lemma bind_raise {A B} (e : error) (k : A -> Script B) (env : Env) (st : St) :
  bind (raise e) k env st = Some (Raise e, st).
Proof. reflexivity. Qed.

Lemma bind_exit {A B} (code : Z) (k : A -> Script B) (env : Env) (st : St) :
  bind (sys_exit code) k env st = Some (Exit code, st).
Proof. reflexivity. Qed.

Lemma bind_bind {A B C} (m : Script A) (f : A -> Script B)
      (g : B -> Script C) (env : Env) (st : St) :
  bind (bind m f) g env st = bind m (fun x => bind (f x) g) env st.
Proof.
  unfold bind. destruct (m env st) as [[[a|code|e] st']|]; reflexivity.
Qed.

Lemma print_run (c : Colors) (m : mark) (t : string) (env : Env) (st : St) :
  print_colored c m t env st = Some (Ret tt, push (Print c m t) st).
Proof. reflexivity. Qed.

Lemma emit_run (e : event) (env : Env) (st : St) :
  emit e env st = Some (Ret tt, push e st).
Proof. reflexivity. Qed.

Lemma ret_run {A} (a : A) (env : Env) (st : St) :
  ret a env st = Some (Ret a, st).
Proof. reflexivity. Qed.

Lemma raise_run {A} (e : error) (env : Env) (st : St) :
  @raise A e env st = Some (Raise e, st).
Proof. reflexivity. Qed.

Lemma exit_run {A} (code : Z) (env : Env) (st : St) :
  @sys_exit A code env st = Some (Exit code, st).
Proof. reflexivity. Qed.

Lemma tally_push (p : event -> bool) (e : event) (st : St) :
  tally p (log (push e st))
  = (tally p (log st) + if p e then 1 else 0)%nat.
Proof. unfold push. simpl. rewrite tally_app, tally_one. reflexivity. Qed.

Lemma checks_push (e : event) (st : St) : checks (push e st) = checks st.
Proof. reflexivity. Qed.

Ltac script_step :=
  first [ rewrite bind_bind
        | rewrite bind_print
        | rewrite bind_emit
        | rewrite bind_ask
        | rewrite bind_ret
        | rewrite bind_raise
        | rewrite bind_exit
        | rewrite print_run
        | rewrite emit_run
        | rewrite ret_run
        | rewrite raise_run
        | rewrite exit_run
        | progress unfold try_except ];
  cbv beta match.

(** The next answer of the outside the run depends on. *)
Ltac case_on x :=
  first [ match goal with H : x = _ |- _ => rewrite H end
        | destruct x eqn:? ].

Ltac script_case :=
  match goal with
  | |- context [match ?x with Some _ => _ | None => _ end] =>
    lazymatch type of x with
    | option (res _ * St) => fail
    | _ => case_on x
    end
  | |- context [match ?x with Returned _ => _ | _ => _ end] => case_on x
  | |- context [match ?x with Status _ => _ | _ => _ end] => case_on x
  | |- context [match ?x with (_, _) => _ end] =>
    lazymatch type of x with
    | (option string * option string)%type => destruct x as [[?|] [?|]] eqn:?
    end
  | |- context [if ?b then _ else _] =>
    lazymatch b with
    | negb ?c => case_on c
    | andb ?c _ => case_on c
    | orb ?c _ => case_on c
    | _ => case_on b
    end
  end;
  cbn [negb andb orb]; cbv beta match.

Ltac tallies :=
  rewrite ?tally_push, ?checks_push;
  cbn [is_bot_run is_terminate is_progress]; rewrite ?String.eqb_refl;
  try lia.

Ltac done_run :=
  cbv beta match; repeat split; tallies; try discriminate; eauto.

Ltac script_run := repeat first [script_step | script_case].

Lemma leaves_inv {A} (m : Script A) (env : Env) (st : St)
      (P : res A -> St -> Prop) :
  leaves m env st P -> exists r st', m env st = Some (r, st') /\ P r st'.
Proof.
  unfold leaves. destruct (m env st) as [[r st']|]; [eauto|tauto].
Qed.

Lemma get_python_executable_run (env : Env) (st : St) :
  leaves get_python_executable env st
         (fun r st' => (exists exe, r = Ret exe) /\ untouched st st').
Proof.
  unfold leaves, untouched, get_python_executable.
  script_run; done_run.
Qed.

Lemma check_requirements_run (python_exe : string) (env : Env) (st : St) :
  leaves (check_requirements python_exe) env st
         (fun r st' =>
            untouched st st'
            /\ (r = Ret true <-> requirements_met env = true)
            /\ (forall code, r <> Exit code)).
Proof.
  unfold leaves, untouched, check_requirements, requirements_met,
    subprocess_run, input.
  script_run; done_run.
Qed.

Lemma bind_run {A B} (m : Script A) (k : A -> Script B) (env : Env)
      (st st' : St) (r : res A) :
  m env st = Some (r, st') ->
  bind m k env st
  = match r with
    | Ret a => k a env st'
    | Exit code => Some (Exit code, st')
    | Raise e => Some (Raise e, st')
    end.
Proof. intros E. unfold bind. rewrite E. destruct r; reflexivity. Qed.

Lemma untouched_trans (a b c : St) :
  untouched a b -> untouched b c -> untouched a c.
Proof.
  unfold untouched. intros (A1 & A2 & A3) (B1 & B2 & B3).
  repeat split; congruence.
Qed.

Lemma untouched_push (e : event) (st : St) :
  is_bot_run e = false -> is_terminate e = false -> untouched st (push e st).
Proof.
  intros H1 H2. unfold untouched. rewrite !tally_push, checks_push, H1, H2.
  repeat split; lia.
Qed.

Lemma is_port_in_use_run (env : Env) (st : St) :
  leaves (is_port_in_use LAVALINK_PORT LAVALINK_HOST) env st
         (fun r st' => r = Ret (port_open env) /\ untouched st st').
Proof.
  unfold leaves, untouched, is_port_in_use, port_open.
  script_run; done_run.
Qed.

Lemma check_lavalink_health_run (env : Env) (st : St) :
  leaves check_lavalink_health env st
         (fun r st' =>
            (exists b, r = Ret b)
            /\ tally is_bot_run (log st') = tally is_bot_run (log st)
            /\ tally is_terminate (log st') = tally is_terminate (log st)).
Proof.
  unfold leaves, check_lavalink_health. rewrite bind_emit.
  destruct (health env (checks (push (Get (LAVALINK_URL ++ "/version")) st)));
    cbv beta match; simpl log; rewrite !tally_app, !tally_one;
    cbn [is_bot_run is_terminate]; repeat split; eauto; lia.
Qed.

Lemma start_lavalink_docker_run (env : Env) (st : St) :
  leaves start_lavalink_docker env st
         (fun r st' =>
            untouched st st'
            /\ (r = Ret (Some LavalinkProcess) <-> docker_started env = true)
            /\ (r = Ret None \/ r = Ret (Some LavalinkProcess)
                \/ r = Raise KeyboardInterrupt)).
Proof.
  unfold leaves, untouched, start_lavalink_docker, docker_started,
    subprocess_run.
  script_run; done_run.
Qed.

Lemma start_bot_run (python_exe : string) (env : Env) (st : St) :
  leaves (start_bot python_exe) env st
         (fun r st' =>
            tally is_bot_run (log st') = S (tally is_bot_run (log st))
            /\ tally is_terminate (log st') = tally is_terminate (log st)).
Proof.
  unfold leaves, start_bot, subprocess_run.
  script_run; done_run.
Qed.

Lemma ready_within_spec (env : Env) (k : nat) (b : bool) :
  (k <= 60)%nat ->
  (forall j, (j < k)%nat -> healthy (health env j) = false) ->
  (if b then healthy (health env k) = true /\ (k < 60)%nat
   else k = 60%nat) ->
  ready_within env 60 = b.
Proof.
  intros Hk Hj Hb. unfold ready_within. destruct b.
  - destruct Hb as [H1 H2]. apply existsb_exists. exists k.
    split; [apply in_seq; lia|exact H1].
  - subst k. destruct (existsb _ _) eqn:E; [|reflexivity].
    apply existsb_exists in E. destruct E as (j & Hin & Hh).
    apply in_seq in Hin. rewrite Hj in Hh by lia. discriminate.
Qed.

Lemma main_run (env : Env) : leaves main env start (startup env).
Proof.
  unfold leaves, startup, main. script_step.
  (* the interpreter *)
  destruct (leaves_inv _ _ _ _ (get_python_executable_run
                                  env
                                  (push (Print HEADER NoMark
                                               "Vocard Startup Script")
                                        start)))
    as (r0 & s0 & E0 & (exe & ->) & U0).
  rewrite (bind_run _ _ _ _ _ _ E0). script_step.
  (* the requirements *)
  match goal with
  | |- context [bind (check_requirements exe) _ env ?s] =>
    destruct (leaves_inv _ _ _ _ (check_requirements_run exe env s))
      as (r1 & s1 & E1 & U1 & R1 & X1);
      rewrite (bind_run _ _ _ _ _ _ E1)
  end.
  assert (S0 : checks s1 = 0%nat
               /\ tally is_bot_run (log s1) = 0%nat
               /\ tally is_terminate (log s1) = 0%nat).
  { destruct U0 as (A1 & A2 & A3). destruct U1 as (B1 & B2 & B3).
    rewrite B1, B2, B3, !tally_push, !checks_push, A1, A2, A3.
    rewrite !tally_push. cbn [is_bot_run is_terminate]. simpl. auto. }
  destruct S0 as (C1 & T1 & T2).
  destruct r1 as [[|]|code|e].
  2:{ (* the requirements are not met *)
      assert (Rq : requirements_met env = false).
      { destruct (requirements_met env); [|reflexivity].
        destruct R1 as [_ R1]. discriminate (R1 eq_refl). }
      rewrite Rq. cbn [negb andb]. repeat script_step.
      repeat split; tallies; discriminate. }
  2:{ exfalso. apply (X1 code). reflexivity. }
  2:{ assert (Rq : requirements_met env = false).
      { destruct (requirements_met env); [|reflexivity].
        destruct R1 as [_ R1]. discriminate (R1 eq_refl). }
      rewrite Rq. cbn [negb andb]. repeat split; tallies; discriminate. }
  assert (Rq : requirements_met env = true) by (apply R1; reflexivity).
  rewrite Rq. cbn [negb andb]. repeat script_step.
  (* the port *)
  destruct (leaves_inv _ _ _ _ (is_port_in_use_run env s1))
    as (r2 & s2 & E2 & -> & U2).
  rewrite (bind_run _ _ _ _ _ _ E2).
  destruct U2 as (C2 & T3 & T4). rewrite C1 in C2. rewrite T1 in T3.
  rewrite T2 in T4.
  destruct (port_open env); cbn [negb andb orb].
  - (* Lavalink answers on its port *)
    repeat script_step.
    match goal with
    | |- context [bind check_lavalink_health _ env ?s] =>
      destruct (leaves_inv _ _ _ _ (check_lavalink_health_run env s))
        as (r3 & s3 & E3 & (b & ->) & T5 & T6);
        rewrite (bind_run _ _ _ _ _ _ E3)
    end.
    rewrite !tally_push in T5, T6. cbn [is_bot_run is_terminate] in T5, T6.
    destruct b; repeat script_step;
      match goal with
      | |- context [start_bot exe env ?s] =>
        destruct (leaves_inv _ _ _ _ (start_bot_run exe env s))
          as (r4 & s4 & E4 & T7 & T8); rewrite E4
      end;
      rewrite !tally_push in T7, T8; cbn [is_bot_run is_terminate] in T7, T8;
      repeat split; intros; lia.
  - (* nothing on the port: Docker *)
    repeat script_step.
    match goal with
    | |- context [bind start_lavalink_docker _ env ?s] =>
      destruct (leaves_inv _ _ _ _ (start_lavalink_docker_run env s))
        as (r3 & s3 & E3 & U3 & D3 & K3);
        rewrite (bind_run _ _ _ _ _ _ E3)
    end.
    destruct U3 as (C3 & T5 & T6).
    rewrite ?checks_push in C3. rewrite !tally_push in T5, T6.
    cbn [is_bot_run is_terminate] in T5, T6.
    assert (Dk : r3 <> Ret (Some LavalinkProcess) ->
                 docker_started env = false).
    { intros Hn. destruct (docker_started env); [|reflexivity].
      destruct D3 as [_ D3]. elim Hn. apply D3. reflexivity. }
    destruct K3 as [->|[->| ->]].
    + rewrite Dk by discriminate. cbn [negb andb]. repeat script_step.
      repeat split; tallies; discriminate.
    + assert (D : docker_started env = true) by (apply D3; reflexivity).
      rewrite D. cbn [negb andb]. cbv beta match. repeat script_step.
      match goal with
      | |- context [bind wait_for_lavalink _ env ?s] =>
        destruct (wait_for_lavalink_run env s)
          as (k & b & s4 & E4 & W1 & W2 & W3 & _ & _ & T7 & T8);
          rewrite (bind_run _ _ _ _ _ _ E4)
      end.
      rewrite C3, C2 in W2, W3. simpl Nat.add in W2, W3.
      assert (Rd : ready_within env 60 = b).
      { apply (ready_within_spec env k b W1 W2).
        destruct b; [destruct W3 as (H1 & H2 & _); auto|apply W3]. }
      rewrite Rd. rewrite T5 in T7. rewrite T6 in T8.
      destruct b; cbn [negb]; repeat script_step.
      * match goal with
        | |- context [start_bot exe env ?s] =>
          destruct (leaves_inv _ _ _ _ (start_bot_run exe env s))
            as (r5 & s5 & E5 & T9 & T10); rewrite E5
        end.
        rewrite !tally_push in T9, T10.
        cbn [is_bot_run is_terminate] in T9, T10.
        repeat split; intros; lia.
      * repeat split; tallies; discriminate.
    + rewrite Dk by discriminate. cbn [negb andb].
      repeat split; tallies; discriminate.
Qed.

(** X18: the script always ends, by returning or with an exit status: no
    exception escapes it. It runs the bot exactly once if the requirements
    are met and Lavalink either answers on its port - whatever the health
    check says then - or was launched through Docker and found healthy by
    one of the 60 checks; in every other case the bot is not run. It
    terminates the Docker process only when it launched it and Lavalink did
    not become healthy: once the bot has been run, the process is left
    running. *)
Theorem bot_start_conditions (env : Env) :
  exists r st',
    __main__ env start = Some (r, st')
    /\ (r = Ret tt \/ exists code, r = Exit code)
    /\ tally is_bot_run (log st')
       = (if requirements_met env
             && (port_open env || docker_started env && ready_within env 60)
          then 1 else 0)%nat
    /\ tally is_terminate (log st')
       = (if requirements_met env && negb (port_open env)
             && docker_started env && negb (ready_within env 60)
          then 1 else 0)%nat
    /\ (r = Ret tt -> tally is_bot_run (log st') = 1%nat).
Proof.
  destruct (leaves_inv _ _ _ _ (main_run env)) as (r & st' & E & G1 & G2 & G3).
  unfold __main__, try_except. rewrite E.
  destruct r as [[]|code|e].
  - exists (Ret tt), st'. repeat split; auto.
  - exists (Exit code), st'. repeat split; eauto; discriminate.
  - destruct e; cbv beta match; repeat script_step;
      do 2 eexists; (split; [reflexivity|]);
      (split; [right; eexists; reflexivity|]);
      rewrite !tally_push; cbn [is_bot_run is_terminate];
      rewrite !Nat.add_0_r; repeat split; auto; discriminate.
Qed.

Lemma find_venv_in_spec (env : Env) (names : list string) :
  match find_venv_in env names with
  | (Some v, Some p) =>
    exists l1 name l2,
      names = (l1 ++ name :: l2)%list
      /\ v = join env (script_dir env) name
      /\ p = python_in env v
      /\ qualifies env name = true
      /\ forall n, In n l1 -> qualifies env n = false
  | (None, None) => forall n, In n names -> qualifies env n = false
  | _ => False
  end.
Proof.
  induction names as [|a names IH]; simpl.
  - intros n [].
  - assert (Skip : qualifies env a = false ->
                   match find_venv_in env names with
                   | (Some v, Some p) =>
                     exists l1 name l2,
                       a :: names = (l1 ++ name :: l2)%list
                       /\ v = join env (script_dir env) name
                       /\ p = python_in env v
                       /\ qualifies env name = true
                       /\ forall n, In n l1 -> qualifies env n = false
                   | (None, None) =>
                     forall n, In n (a :: names) -> qualifies env n = false
                   | _ => False
                   end).
    { intros Hq. destruct (find_venv_in env names) as [[v|] [p|]]; auto.
      - destruct IH as (l1 & name & l2 & -> & Hv & Hp & Hq' & Hn).
        exists (a :: l1), name, l2. repeat split; auto.
        intros n [<-|Hin]; [exact Hq|exact (Hn n Hin)].
      - intros n [<-|Hin]; [exact Hq|exact (IH n Hin)]. }
    destruct (isdir env (join env (script_dir env) a)) eqn:D.
    + destruct (isfile env (python_in env (join env (script_dir env) a)))
               eqn:F.
      * exists [], a, names. unfold qualifies. rewrite D, F.
        repeat split; auto. intros n [].
      * apply Skip. unfold qualifies. rewrite D, F. reflexivity.
    + apply Skip. unfold qualifies. rewrite D. reflexivity.
Qed.

(** X19: [find_venv] answers with the first of [venv], [.venv], [env],
    [.env] that is a directory of the project holding the interpreter of
    the platform - a directory without interpreter is passed over - and
    with the path of that interpreter; it answers [(None, None)] exactly
    when none of the four is one, and never gives one component without the
    other. *)
Theorem find_venv_first_match (env : Env) :
  match find_venv env with
  | (Some v, Some p) =>
    exists l1 name l2,
      VENV_PATHS = (l1 ++ name :: l2)%list
      /\ v = join env (script_dir env) name
      /\ p = python_in env v
      /\ isdir env v = true /\ isfile env p = true
      /\ forall n, In n l1 -> qualifies env n = false
  | (None, None) => forall n, In n VENV_PATHS -> qualifies env n = false
  | _ => False
  end.
Proof.
  unfold find_venv. pose proof (find_venv_in_spec env VENV_PATHS) as H.
  destruct (find_venv_in env VENV_PATHS) as [[v|] [p|]]; auto.
  destruct H as (l1 & name & l2 & E & -> & -> & Hq & Hn).
  exists l1, name, l2. unfold qualifies in Hq.
  apply andb_prop in Hq. destruct Hq as [H1 H2]. repeat split; auto.
Qed.
